(** * scripts/generate_synthetic_data.py: the synthetic data generator

    A shallow embedding of the generator script and the properties its
    specification states about it.

    - Python [float] is IEEE-754 binary64; it is modelled with the Standard
      Library's executable specification [SpecFloat] at precision 53, so
      that [int(90 * 0.7)] evaluates to [62] here as it does in CPython.
    - Python [int] is [Z].
    - The ambient random generator, the output directory tree and the faults
      of the output device are components of an explicit [world] that every
      statement threads; exceptions are values of a small error monad.
    - A PIL image is a symbolic raster: the tree of operations that built
      it, from which its size is computed.  Pixel values play no part in
      the properties below. *)

From Stdlib Require Import ZArith QArith Lia List Bool String Ascii DecimalString.
From Stdlib Require Import Floats.SpecFloat.
From stdpp Require Import gmap strings.

Open Scope Z_scope.

(** ** binary64 arithmetic *)

Module Float.

Definition prec : Z := 53.
Definition emax : Z := 1024.

Abbreviation float := spec_float.

(** [float(n)] for an integer: the nearest binary64, ties to even. *)
Definition of_int (n : Z) : float := binary_normalize prec emax n 0 false.

Definition mul : float -> float -> float := SFmul prec emax.
Definition div : float -> float -> float := SFdiv prec emax.
Definition add : float -> float -> float := SFadd prec emax.
Definition sub : float -> float -> float := SFsub prec emax.
Definition ltb : float -> float -> bool := SFltb.
Definition leb : float -> float -> bool := SFleb.

(** An integer as it is, with a mantissa of any number of digits. *)
Definition exact_int (n : Z) : float :=
  match n with
  | Z0 => S754_zero false
  | Zpos p => S754_finite false p 0
  | Zneg p => S754_finite true p 0
  end.

(** A decimal literal [num / den] denotes the binary64 nearest to that
    rational, which is what the correctly rounded quotient computes. *)
Definition lit (num den : Z) : float := div (of_int num) (of_int den).

(** [int(x)]: truncation toward zero; undefined on infinities and NaN. *)
Definition trunc (x : float) : option Z :=
  match x with
  | S754_zero _ => Some 0
  | S754_finite s m e =>
      Some (cond_Zopp s (if 0 <=? e then Z.shiftl (Zpos m) e
                         else Z.shiftr (Zpos m) (- e)))
  | S754_infinity _ | S754_nan => None
  end.

(** Python's two-argument [min]: the second argument is taken only when
    it is strictly smaller. *)
Definition min (x y : float) : float := if ltb y x then y else x.

(** The position of [N / D] inside its unit interval. *)
Definition loc_of (N D : Z) : location :=
  if N mod D =? 0 then loc_Exact else loc_Inexact (2 * (N mod D) ?= D).

(** A shift record stands for the rational [N / D]. *)
Definition represents (mrs : shr_record) (N D : Z) : Prop :=
  shr_m mrs = N / D /\ loc_of_shr_record mrs = loc_of N D.

End Float.

Abbreviation float := spec_float.

(** The literals of the script. *)
Definition f_0_7 : float := Eval vm_compute in Float.lit 7 10.
Definition f_0_15 : float := Eval vm_compute in Float.lit 15 100.
Definition f_0_05 : float := Eval vm_compute in Float.lit 5 100.
Definition f_0_35 : float := Eval vm_compute in Float.lit 35 100.
Definition f_0_9 : float := Eval vm_compute in Float.lit 9 10.
Definition f_0_8 : float := Eval vm_compute in Float.lit 8 10.
Definition f_1_2 : float := Eval vm_compute in Float.lit 12 10.
Definition f_1_3 : float := Eval vm_compute in Float.lit 13 10.
Definition f_2_0 : float := Eval vm_compute in Float.of_int 2.

(** ** The Python runtime: exceptions, the world, the monad *)

Inductive exn : Type :=
| ValueError
| OverflowError
| ZeroDivisionError
| IndexError
| OSError
| DecompressionBombError
| OtherError (class_name : string).

Inductive result (A : Type) : Type :=
| Ok (a : A)
| Raise (e : exn).
Arguments Ok {A} a.
Arguments Raise {A} e.

(** Symbolic rasters.  [Asset p w h] is the decoded file [p]. *)
Inductive raster : Type :=
| Asset (path : string) (w h : Z)
| Blank (w h : Z)
| Resized (r : raster) (w h : Z)
| Pasted (bg fg : raster) (x y : Z)
| Warped (r : raster) (dst : list (Z * Z))
| Rotated (r : raster) (angle : float)
| Brightness (r : raster) (factor : float)
| Contrast (r : raster) (factor : float).

(** A file of the output tree.  [PartialFile] is an image file that was
    opened for writing and not written in full. *)
Inductive file : Type :=
| ImageFile (r : raster)
| TextFile (s : string)
| PartialFile.

Record world : Type := mkWorld {
  rng : nat -> N;            (* the ambient generator: the raw draws *)
  rng_pos : nat;             (* how many draws were consumed *)
  io_fault : nat -> bool;    (* which output operations fail *)
  io_pos : nat;              (* how many output operations were issued *)
  fs : gmap string file;     (* the output tree, by path *)
  composited : list (string * string);
                             (* the (shield, letter) paths handed to
                                create_composite_logo, newest first *)
  warnings : list exn        (* what the handler reported, newest first *)
}.

Definition M (A : Type) : Type := world -> result A * world.

Definition ret {A} (a : A) : M A := fun w => (Ok a, w).
Definition raise {A} (e : exn) : M A := fun w => (Raise e, w).
Definition bind {A B} (m : M A) (k : A -> M B) : M B :=
  fun w => match m w with
           | (Ok a, w') => k a w'
           | (Raise e, w') => (Raise e, w')
           end.

Notation "x <- m ;; k" := (bind m (fun x => k))
  (at level 100, m at next level, right associativity).

Definition lift_option {A} (e : exn) (o : option A) : M A :=
  match o with Some a => ret a | None => raise e end.

(** *** The [random] module *)

Definition draw : M N :=
  fun w => (Ok (rng w (rng_pos w)),
            mkWorld (rng w) (S (rng_pos w)) (io_fault w) (io_pos w) (fs w)
                    (composited w) (warnings w)).

(** [random.randint(a, b)]: an integer of [a..b]; an empty range raises. *)
Definition randint (a b : Z) : M Z :=
  if b <? a then raise ValueError
  else r <- draw ;; ret (a + Z.of_N r mod (b - a + 1)).

(** [random.choice(seq)]. *)
Definition choice {A} (l : list A) : M A :=
  match l with
  | [] => raise IndexError
  | _ => r <- draw ;;
         lift_option IndexError
           (nth_error l (N.to_nat (r mod N.of_nat (length l))))
  end.

(** [random.random()]: [k / 2^53] for a 53-bit [k]. *)
Definition random : M float :=
  r <- draw ;;
  ret (binary_normalize Float.prec Float.emax (Z.of_N r mod 2 ^ 53) (-53) false).

(** [random.uniform(a, b)] is [a + (b - a) * random()]. *)
Definition uniform (a b : float) : M float :=
  r <- random ;; ret (Float.add a (Float.mul (Float.sub b a) r)).

(** *** Conversions between [int] and [float] *)

(** [float(n)]: an integer beyond the binary64 range raises. *)
Definition float_of_int (n : Z) : M float :=
  match Float.of_int n with
  | S754_infinity _ => raise OverflowError
  | x => ret x
  end.

(** [int(x)]. *)
Definition int_of_float (x : float) : M Z :=
  match x with
  | S754_nan => raise ValueError
  | _ => lift_option OverflowError (Float.trunc x)
  end.

(** [int(n * c)] for an integer [n] and a float [c]. *)
Definition int_scaled (n : Z) (c : float) : M Z :=
  x <- float_of_int n ;; int_of_float (Float.mul x c).

(** [x / n] for a float [x] and an integer [n]. *)
Definition float_div_int (x : float) (n : Z) : M float :=
  if n =? 0 then raise ZeroDivisionError
  else d <- float_of_int n ;; ret (Float.div x d).

(** [a / b] for two integers: Python divides the integers themselves and
    rounds the quotient once, whatever their size; a quotient beyond the
    binary64 range raises. *)
Definition int_truediv (a b : Z) : M float :=
  if b =? 0 then raise ZeroDivisionError
  else match Float.div (Float.exact_int a) (Float.exact_int b) with
       | S754_infinity _ => raise OverflowError
       | q => ret q
       end.

(** ** Strings, paths and the asset directories *)

Definition newline : string := String (ascii_of_nat 10) EmptyString.

(** [os.path.basename]: what follows the last slash. *)
Fixpoint basename_from (acc s : string) : string :=
  match s with
  | EmptyString => acc
  | String c rest =>
      if Ascii.eqb c "/" then basename_from EmptyString rest
      else basename_from (acc +:+ String c EmptyString) rest
  end.
Definition basename (p : string) : string := basename_from EmptyString p.

(** [os.path.join] on relative components. *)
Definition path_join (a b : string) : string := a +:+ "/" +:+ b.

(** [str.endswith]. *)
Definition endswith (s suffix : string) : bool :=
  let n := String.length s in
  let k := String.length suffix in
  (k <=? n)%nat && String.eqb (substring (n - k) k s) suffix.

(** [f"{n:06d}"]: decimal, zero-padded to six characters. *)
Definition format_06d (n : Z) : string :=
  let digits := NilZero.string_of_uint (N.to_uint (Z.abs_N n)) in
  let sign := if n <? 0 then "-" else EmptyString in
  let pad := (6 - String.length sign - String.length digits)%nat in
  sign +:+ String.concat EmptyString (repeat "0"%string pad) +:+ digits.

(** What the script reads: the directory listings, for each image file
    that [Image.open(path).convert(mode)] returns the size of the decoded
    raster, and for every other path the exception that call raises
    ([OSError] and its subclasses for a missing, unreadable or
    unidentified file, [DecompressionBombError] for an image of too many
    pixels, or whatever else the decoder raises). *)
Record disk : Type := mkDisk {
  listdir : string -> list string;
  decoded : gmap string (Z * Z);
  open_error : string -> exn
}.

Definition asset_path : string := "data/synthetic_assets".
Definition shield_path : string := path_join asset_path "shields".
Definition letter_path : string := path_join asset_path "letters".
Definition background_path : string := path_join asset_path "backgrounds".
Definition output_path : string := "data/synthetic_dataset".

Definition is_image_name (f : string) : bool :=
  endswith f ".png" || endswith f ".jpg".

(** [[os.path.join(d, f) for f in os.listdir(d) if f.endswith(('.png', '.jpg'))]] *)
Definition asset_files (d : disk) (dir : string) : list string :=
  map (path_join dir) (filter (fun f => is_image_name f = true) (listdir d dir)).

(** ** World updates and the output device *)

Definition set_fs (f : gmap string file) (w : world) : world :=
  mkWorld (rng w) (rng_pos w) (io_fault w) (io_pos w) f
          (composited w) (warnings w).

Definition log_composite (shield letter : string) : M unit :=
  fun w => (Ok tt,
            mkWorld (rng w) (rng_pos w) (io_fault w) (io_pos w) (fs w)
                    ((shield, letter) :: composited w) (warnings w)).

Definition warn (e : exn) (w : world) : world :=
  mkWorld (rng w) (rng_pos w) (io_fault w) (io_pos w) (fs w)
          (composited w) (e :: warnings w).

(** Every output operation may fail with [OSError]; a failed operation
    leaves the tree as it was. *)
Definition output_op : M unit :=
  fun w =>
    let w' := mkWorld (rng w) (rng_pos w) (io_fault w) (S (io_pos w)) (fs w)
                      (composited w) (warnings w) in
    if io_fault w (io_pos w) then (Raise OSError, w') else (Ok tt, w').

(** [try: m / except Exception: cleanup; raise], where a failure of the
    cleanup is passed over. *)
Definition on_error {A} (m : M A) (cleanup : M unit) : M A :=
  fun w => match m w with
           | (Raise e, w') => (Raise e, snd (cleanup w'))
           | r => r
           end.

(** [os.remove(path)]. *)
Definition remove (path : string) : M unit :=
  _ <- output_op ;;
  fun w => (Ok tt, set_fs (delete path (fs w)) w).

(** [Image.save(path)], as Pillow has it:
    [created = not os.path.exists(filename)];
    [fp = builtins.open(filename, "w+b")], which truncates;
    [save_handler(self, fp, filename)], and when that raises, the file is
    left as it is, partly written, if it was there before, and removed if
    this call created it, [try: os.remove(filename) / except
    PermissionError: pass], so that it stays when the removal is
    refused. *)
Definition image_save (r : raster) (path : string) : M unit :=
  fun w0 =>
    let created := match fs w0 !! path with Some _ => false | None => true end in
    (_ <- output_op ;;
     _ <- (fun w => (Ok tt, set_fs (<[path := PartialFile]> (fs w)) w)) ;;
     on_error
       (_ <- output_op ;;
        fun w => (Ok tt, set_fs (<[path := ImageFile r]> (fs w)) w))
       (if created then remove path else ret tt)) w0.

(** [open(path, 'w')]: creates or truncates. *)
Definition open_w (path : string) : M unit :=
  _ <- output_op ;;
  fun w => (Ok tt, set_fs (<[path := TextFile EmptyString]> (fs w)) w).

(** [f.write(s)] on the file opened at [path]. *)
Definition file_write (path s : string) : M unit :=
  _ <- output_op ;;
  fun w =>
    let old := match fs w !! path with
               | Some (TextFile t) => t
               | _ => EmptyString
               end in
    (Ok tt, set_fs (<[path := TextFile (old +:+ s)]> (fs w)) w).

(** ** The script *)

Definition bbox : Type := Z * Z * Z * Z.
Definition yolo_bbox : Type := float * float * float * float.

(** An accepted placement: the paste origin and the rendered size.  The
    script keeps only the normalised box of a placement; the pixel
    rectangle is carried next to it here so that it can be spoken about. *)
Record placement : Type := mkPlacement {
  paste_x : Z;
  paste_y : Z;
  rendered_w : Z;
  rendered_h : Z
}.

Section Generator.

(** The two library functions left open: the size of the canvas that
    [Image.rotate(angle, expand=True)] returns, and [repr] of a float as
    an f-string prints it. *)
Variable rotated_size : float -> Z * Z -> Z * Z.
Variable float_repr : float -> string.

Variable d : disk.

(** [Image.size]. *)
Fixpoint size (r : raster) : Z * Z :=
  match r with
  | Asset _ w h => (w, h)
  | Blank w h => (w, h)
  | Resized _ w h => (w, h)
  | Pasted bg _ _ _ => size bg
  | Warped r _ => size r
  | Rotated r angle => rotated_size angle (size r)
  | Brightness r _ => size r
  | Contrast r _ => size r
  end.

(** [Image.open(path).convert(mode)]. *)
Definition image_open (path : string) : M raster :=
  match decoded d !! path with
  | Some (w, h) => ret (Asset path w h)
  | None => raise (open_error d path)
  end.

(** [Image.resize((w, h), LANCZOS)].  Pillow returns a copy when the size
    does not change and otherwise rejects a target with a side below one
    pixel ("height and width must be > 0"); [main] guards its own call
    for that reason. *)
Definition resize (img : raster) (w h : Z) : M raster :=
  if (fst (size img) =? w) && (snd (size img) =? h) then ret img
  else if (w <? 1) || (h <? 1) then raise ValueError
  else ret (Resized img w h).

Definition paste_transparent (background foreground : raster) (box : Z * Z)
  : raster :=
  Pasted background foreground (fst box) (snd box).

Definition create_composite_logo (shield_img letter_img : raster) : M raster :=
  let shield_w := fst (size shield_img) in
  let shield_h := snd (size shield_img) in
  new_letter_size <- int_scaled (Z.min shield_w shield_h) f_0_7 ;;
  letter_img <- resize letter_img new_letter_size new_letter_size ;;
  let letter_w := fst (size letter_img) in
  let letter_h := snd (size letter_img) in
  let composite := Blank shield_w shield_h in
  let composite := paste_transparent composite shield_img (0, 0) in
  let paste_x := (shield_w - letter_w) / 2 in
  let paste_y := (shield_h - letter_h) / 2 in
  let composite := paste_transparent composite letter_img (paste_x, paste_y) in
  ret composite.

(** Lines 61-71 of [apply_augmentations]: the destination corners of the
    warp, as the integers handed to [np.float32], in the order of the
    source corners [(0,0); (w,0); (w,h); (0,h)]. *)
Definition jitter_corners (w h : Z) : M (list (Z * Z)) :=
  jitter_w <- int_scaled w f_0_15 ;;
  jitter_h <- int_scaled h f_0_15 ;;
  x0 <- randint 0 jitter_w ;; y0 <- randint 0 jitter_h ;;
  x1 <- randint 1 jitter_w ;; y1 <- randint 0 jitter_h ;;
  x2 <- randint 1 jitter_w ;; y2 <- randint 1 jitter_h ;;
  x3 <- randint 0 jitter_w ;; y3 <- randint 1 jitter_h ;;
  ret [(x0, y0); (w - x1, y1); (w - x2, h - y2); (x3, h - y3)].

Definition src_corners (w h : Z) : list (Z * Z) :=
  [(0, 0); (w, 0); (w, h); (0, h)].

Definition apply_augmentations (logo_img : raster) : M raster :=
  let w := fst (size logo_img) in
  let h := snd (size logo_img) in
  dst_pts <- jitter_corners w h ;;
  let logo_img := Warped logo_img dst_pts in
  angle <- uniform (Float.of_int (-15)) (Float.of_int 15) ;;
  let logo_img := Rotated logo_img angle in
  b <- uniform f_0_7 f_1_3 ;;
  let logo_img := Brightness logo_img b in
  c <- uniform f_0_8 f_1_2 ;;
  let logo_img := Contrast logo_img c in
  ret logo_img.

Definition convert_to_yolo (box : bbox) (img_size : Z * Z) : M yolo_bbox :=
  let '(b0, b1, b2, b3) := box in
  let '(img_w, img_h) := img_size in
  sx <- float_of_int (b0 + b2) ;;
  let x_center := Float.div sx f_2_0 in
  sy <- float_of_int (b1 + b3) ;;
  let y_center := Float.div sy f_2_0 in
  let w := b2 - b0 in
  let h := b3 - b1 in
  x_center <- float_div_int x_center img_w ;;
  w <- int_truediv w img_w ;;
  y_center <- float_div_int y_center img_h ;;
  h <- int_truediv h img_h ;;
  ret (x_center, y_center, w, h).

Definition forbidden (shield_filename letter_filename : string) : bool :=
  (String.eqb shield_filename "shield1.png"
   && String.eqb letter_filename "tletter2.png")
  || (String.eqb shield_filename "shield3.png"
      && String.eqb letter_filename "tletter1.png").

Definition shield_files : list string := asset_files d shield_path.
Definition letter_files : list string := asset_files d letter_path.
Definition background_files : list string := asset_files d background_path.

(** Lines 148-202 of [main]: one turn of the [for] loop; [None] is
    [continue]. *)
Definition logo_attempt (background_pil : raster) (bg_w bg_h : Z)
  : M (option (raster * placement * yolo_bbox)) :=
  shield_file_path <- choice shield_files ;;
  letter_file_path <- choice letter_files ;;
  let shield_filename := basename shield_file_path in
  let letter_filename := basename letter_file_path in
  if forbidden shield_filename letter_filename then ret None
  else
    shield_pil <- image_open shield_file_path ;;
    letter_pil <- image_open letter_file_path ;;
    _ <- log_composite shield_file_path letter_file_path ;;
    logo <- create_composite_logo shield_pil letter_pil ;;
    logo <- apply_augmentations logo ;;
    scale <- uniform f_0_05 f_0_35 ;;
    target_w <- int_scaled bg_w scale ;;
    target_h <- int_scaled bg_h scale ;;
    let logo_w := fst (size logo) in
    let logo_h := snd (size logo) in
    if (logo_w =? 0) || (logo_h =? 0) then ret None
    else
      rw <- int_truediv target_w logo_w ;;
      rh <- int_truediv target_h logo_h ;;
      let ratio := Float.min rw rh in
      new_logo_w <- int_scaled logo_w ratio ;;
      new_logo_h <- int_scaled logo_h ratio ;;
      if (new_logo_w <? 1) || (new_logo_h <? 1) then ret None
      else
        logo <- resize logo new_logo_w new_logo_h ;;
        let max_x := bg_w - new_logo_w in
        let max_y := bg_h - new_logo_h in
        paste_x <- randint 0 max_x ;;
        paste_y <- randint 0 max_y ;;
        let background_pil :=
          paste_transparent background_pil logo (paste_x, paste_y) in
        let bbox := (paste_x, paste_y,
                     paste_x + new_logo_w, paste_y + new_logo_h) in
        yolo_bbox <- convert_to_yolo bbox (bg_w, bg_h) ;;
        ret (Some (background_pil,
                   mkPlacement paste_x paste_y new_logo_w new_logo_h,
                   yolo_bbox)).

(** Line 147 of [main], [for _ in range(n)]: the background and the list
    grow together. *)
Fixpoint place_logos (n : nat) (bg_w bg_h : Z) (background_pil : raster)
    (yolo_bboxes : list (placement * yolo_bbox))
  : M (raster * list (placement * yolo_bbox)) :=
  match n with
  | O => ret (background_pil, yolo_bboxes)
  | S n' =>
      r <- logo_attempt background_pil bg_w bg_h ;;
      match r with
      | None => place_logos n' bg_w bg_h background_pil yolo_bboxes
      | Some (background_pil', p, y) =>
          place_logos n' bg_w bg_h background_pil' (yolo_bboxes ++ [(p, y)])
      end
  end.

(** [f"0 {bbox[0]} {bbox[1]} {bbox[2]} {bbox[3]}\\n"]: in the script the
    backslash is itself escaped, so the text ends with a backslash and
    the letter n. *)
Definition label_line (b : yolo_bbox) : string :=
  let '(x, y, w, h) := b in
  "0 " +:+ float_repr x +:+ " " +:+ float_repr y +:+ " "
       +:+ float_repr w +:+ " " +:+ float_repr h +:+ "\n".

Fixpoint write_lines (path : string) (bs : list yolo_bbox) : M unit :=
  match bs with
  | [] => ret tt
  | b :: rest => _ <- file_write path (label_line b) ;; write_lines path rest
  end.

Definition image_file (split : string) (generated_count : Z) : string :=
  path_join (path_join output_path ("images/" +:+ split))
            ("synthetic_" +:+ format_06d generated_count +:+ ".jpg").

Definition label_file (split : string) (generated_count : Z) : string :=
  path_join (path_join output_path ("labels/" +:+ split))
            ("synthetic_" +:+ format_06d generated_count +:+ ".txt").

(** Lines 137-202 of [main], the first half of the body of the [try]: the
    background is chosen and the logos are placed. *)
Definition assemble_scene : M (raster * list (placement * yolo_bbox)) :=
  background_file <- choice background_files ;;
  background_pil <- image_open background_file ;;
  let bg_w := fst (size background_pil) in
  let bg_h := snd (size background_pil) in
  num_logos_to_add <- randint 1 3 ;;
  place_logos (Z.to_nat num_logos_to_add) bg_w bg_h background_pil [].

(** Lines 204-222 of [main], the second half: the image and its labels are
    saved if any logo was placed.  [true] when the scene was saved,
    [false] when it was skipped. *)
Definition save_scene (generated_count : Z) (background_pil : raster)
    (yolo_bboxes : list (placement * yolo_bbox)) : M bool :=
  match yolo_bboxes with
  | [] => ret false
  | _ =>
      r <- random ;;
      let split := if Float.ltb r f_0_9 then "train"%string else "val"%string in
      _ <- image_save background_pil (image_file split generated_count) ;;
      _ <- open_w (label_file split generated_count) ;;
      _ <- write_lines (label_file split generated_count)
                       (map snd yolo_bboxes) ;;
      ret true
  end.

Definition scene_body (generated_count : Z) : M bool :=
  placed <- assemble_scene ;;
  save_scene generated_count (fst placed) (snd placed).

Inductive outcome : Type :=
| Saved
| Skipped
| Abandoned (e : exn).

(** Lines 136-227 of [main]: one turn of the [while] loop with its
    handler. *)
Definition scene_attempt (generated_count : Z) (w : world)
  : outcome * Z * world :=
  match scene_body generated_count w with
  | (Ok true, w') => (Saved, generated_count + 1, w')
  | (Ok false, w') => (Skipped, generated_count, w')
  | (Raise e, w') => (Abandoned e, generated_count, warn e w')
  end.

(** Line 135 of [main], [while generated_count < num_images], cut after
    [fuel] turns. *)
Fixpoint main_loop (fuel : nat) (num_images generated_count : Z) (w : world)
  : Z * world :=
  match fuel with
  | O => (generated_count, w)
  | S fuel' =>
      if generated_count <? num_images then
        let '(_, generated_count', w') := scene_attempt generated_count w in
        main_loop fuel' num_images generated_count' w'
      else (generated_count, w)
  end.

Definition is_nil {A} (l : list A) : bool :=
  match l with [] => true | _ => false end.

Definition main (fuel : nat) (num_images : Z) (w : world) : Z * world :=
  if is_nil shield_files || is_nil letter_files || is_nil background_files
  then (0, w)
  else main_loop fuel num_images 0 w.

End Generator.

(** * Vocabulary of the statements *)

(** [keeps R m]: whatever [m] does, the final world is [R]-related to the
    initial one. *)
Definition keeps (R : world -> world -> Prop) {A} (m : M A) : Prop :=
  forall st : world, R st (snd (m st)).

(** The output side of the world is untouched. *)
Definition same_output (st st' : world) : Prop :=
  fs st' = fs st /\ io_pos st' = io_pos st /\ io_fault st' = io_fault st
  /\ warnings st' = warnings st.

(** A raster side as Pillow stores it: a positive C [int]. *)
Definition side_ok (x : Z) : Prop := 1 <= x < 2 ^ 31.

(** The world that starts with the given raw draws. *)
Definition world_of_draws (draws : list N) : world :=
  mkWorld (fun i => nth i draws 0%N) 0 (fun _ => false) 0 ∅ [] [].

(** A placement lies inside a background of the given size. *)
Definition placement_in_bounds (bg_w bg_h : Z) (p : placement) : Prop :=
  0 <= paste_x p /\ paste_x p + rendered_w p <= bg_w
  /\ 0 <= paste_y p /\ paste_y p + rendered_h p <= bg_h.

(** A pair of asset paths that the exclusion rule lets through. *)
Definition admissible (p : string * string) : Prop :=
  forbidden (basename (fst p)) (basename (snd p)) = false.

(** The log of composited pairs only grew, and by admissible pairs. *)
Definition log_grows (st st' : world) : Prop :=
  exists new : list (string * string),
    composited st' = new ++ composited st /\ Forall admissible new.

(** ** A small asset tree to run the script on *)

Definition sample_listdir (dir : string) : list string :=
  if String.eqb dir shield_path
  then ["shield1.png"; "shield2.png"; "notes.txt"]%string
  else if String.eqb dir letter_path
  then ["tletter1.png"; "tletter2.png"]%string
  else if String.eqb dir background_path then ["street.jpg"]%string
  else [].

Definition sample_disk : disk :=
  mkDisk sample_listdir
    (list_to_map
       [(path_join shield_path "shield1.png", (100, 80));
        (path_join shield_path "shield2.png", (90, 120));
        (path_join letter_path "tletter1.png", (40, 60));
        (path_join letter_path "tletter2.png", (300, 200));
        (path_join background_path "street.jpg", (640, 480))])
    (fun _ => OSError).

(** A stand-in for [repr]: mantissa and exponent in decimal. *)
Definition sample_repr (x : float) : string :=
  match x with
  | S754_finite s m e =>
      (if s then "-" else EmptyString) +:+ NilZero.string_of_uint (Pos.to_uint m)
      +:+ "p" +:+ NilZero.string_of_int (Z.to_int e)
  | S754_zero _ => "0.0"
  | S754_infinity _ => "inf"
  | S754_nan => "nan"
  end.

(** A stand-in for the canvas of a rotation: the canvas does not grow. *)
Definition same_canvas (angle : float) (s : Z * Z) : Z * Z := s.

Definition sample_draws : list N :=
  map (fun n => (N.of_nat (7 * n + 3) * 1234567891234567)%N) (seq 0 64).

Definition sample_world : world := world_of_draws sample_draws.

(** The last character of a text. *)
Fixpoint last_char (s : string) : option ascii :=
  match s with
  | EmptyString => None
  | String c EmptyString => Some c
  | String _ rest => last_char rest
  end.

(** The text of a label file: the lines as the script writes them. *)
Definition label_text (float_repr : float -> string) (bs : list yolo_bbox)
  : string :=
  String.concat EmptyString (map (label_line float_repr) bs).

(** The sample world with the third output operation failing: the image
    is opened and written, and the label file cannot be opened. *)
Definition label_fault_world : world :=
  mkWorld (rng sample_world) 0 (fun i => Nat.eqb i 2) 0 ∅ [] [].

(** The atomicity the specification asks of a scene numbered [c]: its
    image is on disk exactly when its label file is. *)
Definition scene_files_paired (c : Z) (st : world) : Prop :=
  forall split : string,
    is_Some (fs st !! image_file split c)
    <-> is_Some (fs st !! label_file split c).

(** The sample world with the first output operation, the opening of
    the image file, failing. *)
Definition image_fault_world : world :=
  mkWorld (rng sample_world) 0 (fun i => Nat.eqb i 0) 0 ∅ [] [].

(** The sample world with an image already at the path of the first
    scene and the second output operation, the encoding of the image,
    failing. *)
Definition stale_image_world : world :=
  mkWorld (rng sample_world) 0 (fun i => Nat.eqb i 1) 0
          {[ image_file "train" 0 := ImageFile (Blank 1 1) ]} [] [].

(** Draws under which the only turn of a scene lands on the forbidden
    pair (shield1.png, tletter2.png). *)
Definition forbidden_scene_world : world := world_of_draws [0; 0; 0; 1]%N.

(** Draws under which a turn starts with that pair. *)
Definition forbidden_turn_world : world := world_of_draws [0; 1]%N.

(** The fit the specification asks of the resized letter: the aspect ratio
    of the letter [lw x lh] is that of the resized [rw x rh], whose larger
    side is 0.7 times the smaller side of the shield [sw x sh]. *)
Definition letter_fitted_as_specified (sw sh lw lh rw rh : Z) : Prop :=
  lw * rh = lh * rw /\ 10 * Z.max rw rh = 7 * Z.min sw sh.

(** The jitter the specification describes: every corner can move by any
    offset of up to 15% of the side, inward as well as outward. *)
Definition jitter_as_specified (w h : Z) : Prop :=
  forall (i : nat) (sx sy dx dy : Z),
    nth_error (src_corners w h) i = Some (sx, sy) ->
    20 * Z.abs dx <= 3 * w -> 20 * Z.abs dy <= 3 * h ->
    exists (st : world) (pts : list (Z * Z)) (st' : world),
      jitter_corners w h st = (Ok pts, st')
      /\ nth_error pts i = Some (sx + dx, sy + dy).

(** An asset tree whose only shield is five pixels wide and high. *)
Definition tiny_listdir (dir : string) : list string :=
  if String.eqb dir shield_path then ["dot.png"]%string
  else if String.eqb dir letter_path then ["tletter1.png"]%string
  else if String.eqb dir background_path then ["street.jpg"]%string
  else [].

Definition tiny_disk : disk :=
  mkDisk tiny_listdir
    (list_to_map
       [(path_join shield_path "dot.png", (5, 5));
        (path_join letter_path "tletter1.png", (40, 60));
        (path_join background_path "street.jpg", (640, 480))])
    (fun _ => OSError).

(** [0 < x <= 1], as Python compares floats. *)
Definition in_unit_interval (x : float) : bool :=
  Float.ltb (Float.of_int 0) x && Float.leb x (Float.of_int 1).

(** The positive float [x = m * 2^e] is within relative distance [2^-52]
    of the rational [num / den]:
    [|m * 2^e - num / den| <= 2^-52 * (num / den)], cross-multiplied. *)
Definition within_rounding (x : float) (num den : Z) : Prop :=
  match x with
  | S754_finite false m e =>
      e <= 0
      /\ 2 ^ 52 * Z.abs (Zpos m * den - num * 2 ^ (- e)) <= num * 2 ^ (- e)
  | _ => False
  end.

(** ** The normalisation in exact arithmetic *)

Definition Q4 : Type := (Q * Q * Q * Q)%type.

Definition Qeq4 (a b : Q4) : Prop :=
  let '(a0, a1, a2, a3) := a in
  let '(b0, b1, b2, b3) := b in
  (a0 == b0 /\ a1 == b1 /\ a2 == b2 /\ a3 == b3)%Q.

(** [convert_to_yolo] over the rationals. *)
Definition encode_exact (box : Q4) (W H : Q) : Q4 :=
  let '(b0, b1, b2, b3) := box in
  ((b0 + b2) / 2 / W, (b1 + b3) / 2 / H, (b2 - b0) / W, (b3 - b1) / H)%Q.

(** The decoding the specification speaks of: the pixel box
    [(xmin, ymin, xmax, ymax)] of a normalised box. *)
Definition decode_exact (y : Q4) (W H : Q) : Q4 :=
  let '(xc, yc, w, h) := y in
  ((xc - w / 2) * W, (yc - h / 2) * H, (xc + w / 2) * W, (yc + h / 2) * H)%Q.

(** The pixel box of a placement, as [main] builds it. *)
Definition box_of (p : placement) : bbox :=
  (paste_x p, paste_y p, paste_x p + rendered_w p, paste_y p + rendered_h p).

Definition box_Q (b : bbox) : Q4 :=
  let '(b0, b1, b2, b3) := b in
  (inject_Z b0, inject_Z b1, inject_Z b2, inject_Z b3).

(** The float [x] is the rational [q] up to rounding. *)
Definition rounds (x : float) (q : Q) : Prop :=
  exists num den : Z,
    0 < den /\ (q == inject_Z num / inject_Z den)%Q
    /\ within_rounding x num den.

(** What the specification asks of an annotation record [y] made from the
    placement [p] on a background [bg_w x bg_h]. *)
Definition annotation_ok (bg_w bg_h : Z) (p : placement) (y : yolo_bbox)
  : Prop :=
  let '(xc, yc, w, h) := y in
  let exact := encode_exact (box_Q (box_of p)) (inject_Z bg_w) (inject_Z bg_h) in
  in_unit_interval xc = true /\ in_unit_interval yc = true
  /\ in_unit_interval w = true /\ in_unit_interval h = true
  /\ rounds xc (fst (fst (fst exact))) /\ rounds yc (snd (fst (fst exact)))
  /\ rounds w (snd (fst exact)) /\ rounds h (snd exact)
  /\ Qeq4 (decode_exact exact (inject_Z bg_w) (inject_Z bg_h))
          (box_Q (box_of p))
  /\ Qeq4 (encode_exact
             (decode_exact exact (inject_Z bg_w) (inject_Z bg_h))
             (inject_Z bg_w) (inject_Z bg_h))
          exact.
From Stdlib Require DecimalN.
From Stdlib Require Import Qpower Lqa.


(** * Vocabulary of the further properties *)

(** The rectangles [(x, y, width, height)] of the layers pasted on a
    raster, bottom layer first. *)
Fixpoint pasted_layers (size : raster -> Z * Z) (r : raster)
  : list (Z * Z * Z * Z) :=
  match r with
  | Pasted bg fg x y =>
      pasted_layers size bg ++ [(x, y, fst (size fg), snd (size fg))]
  | _ => []
  end.

(** The raster under all pasted layers. *)
Fixpoint bottom_layer (r : raster) : raster :=
  match r with
  | Pasted bg _ _ _ => bottom_layer bg
  | _ => r
  end.

Definition placement_rect (p : placement) : Z * Z * Z * Z :=
  (paste_x p, paste_y p, rendered_w p, rendered_h p).

(** A split directory of the dataset. *)
Definition is_split (s : string) : Prop := (s = "train" \/ s = "val")%string.

(** A path of the dataset for a scene numbered below [num]. *)
Definition dataset_path (num : Z) (p : string) : Prop :=
  exists (split : string) (k : Z),
    is_split split /\ 0 <= k < num
    /\ (p = image_file split k \/ p = label_file split k).

(** The output tree of [st'] has, beyond that of [st], only paths of [S]. *)
Definition grows_within (S : string -> Prop) (st st' : world) : Prop :=
  forall p : string,
    is_Some (fs st' !! p) -> is_Some (fs st !! p) \/ S p.

(** An asset tree none of whose shields can be warped: every shield that
    decodes has a side of at most six pixels. *)
Definition shields_too_small (d : disk) : Prop :=
  forall (s : string) (w h : Z),
    In s (shield_files d) -> decoded d !! s = Some (w, h) ->
    side_ok w /\ side_ok h /\ (w <= 6 \/ h <= 6).

(** The warnings a turn of the loop adds. *)
Definition new_warnings (o : outcome) : list exn :=
  match o with
  | Abandoned e => [e]
  | _ => []
  end.

(** A decimal numeral read back as a number, leading zeros allowed. *)
Definition parse_count (s : string) : option N :=
  option_map N.of_uint (NilEmpty.uint_of_string s).

(** A file name as [os.listdir] returns it has no slash. *)
Fixpoint no_slash (s : string) : bool :=
  match s with
  | EmptyString => true
  | String c rest => negb (Ascii.eqb c "/") && no_slash rest
  end.

(** The exceptions [m] can raise all satisfy [P]. *)
Definition raises_only {A} (P : exn -> Prop) (m : M A) : Prop :=
  forall (st st' : world) (e : exn), m st = (Raise e, st') -> P e.





(** ** The output directories *)

(** The directories [os.makedirs(name)] makes sure of: every prefix of
    [name] that ends before a slash, and [name] itself. *)
Fixpoint ancestors_from (acc s : string) : list string :=
  match s with
  | EmptyString => [acc]
  | String c rest =>
      if Ascii.eqb c "/" then acc :: ancestors_from (acc +:+ "/") rest
      else ancestors_from (acc +:+ String c EmptyString) rest
  end.

(** [os.makedirs(name, exist_ok=True)] on a tree where no file stands in
    the way: the directories that are there stay, the missing ones are
    made. *)
Definition makedirs (name : string) (dirs : gset string) : gset string :=
  dirs ∪ list_to_set (ancestors_from EmptyString name).

Definition create_output_dirs (output_path : string) (dirs : gset string)
  : gset string :=
  let dirs := makedirs (path_join output_path "images/train") dirs in
  let dirs := makedirs (path_join output_path "images/val") dirs in
  let dirs := makedirs (path_join output_path "labels/train") dirs in
  makedirs (path_join output_path "labels/val") dirs.

(** The 53-bit integer [k] behind the next [random.random()], which
    returns [k / 2^53]. *)
Definition unit_draw (st : world) : Z :=
  Z.of_N (rng st (rng_pos st)) mod 2 ^ 53.

(** [split = 'train' if random.random() < 0.9 else 'val'], read on the
    exact value of the draw. *)
Definition split_of_draw (k : Z) : string :=
  if 10 * k <? 9 * 2 ^ 53 then "train"%string else "val"%string.

(** ** Where a pasted logo comes from *)

(** The rasters pasted on a raster, bottom layer first. *)
Fixpoint pasted_rasters (r : raster) : list raster :=
  match r with
  | Pasted bg fg _ _ => pasted_rasters bg ++ [fg]
  | _ => []
  end.

(** A raster as [resize] returns it for [img]. *)
Definition resized_from (img r : raster) : Prop :=
  r = img \/ exists w h : Z, r = Resized img w h.

(** A logo as a turn of the [for] loop makes it: a listed shield and a
    listed letter that are not a forbidden pair, the letter fitted and
    pasted on the shield over a blank canvas, the composite warped,
    rotated, brightened and contrasted, and the result fitted to the
    background. *)
Definition made_logo (d : disk) (r : raster) : Prop :=
  exists (s l : string) (sw sh lw lh px py : Z) (letter : raster)
         (pts : list (Z * Z)) (angle b c : float),
    In s (shield_files d) /\ In l (letter_files d)
    /\ forbidden (basename s) (basename l) = false
    /\ decoded d !! s = Some (sw, sh) /\ decoded d !! l = Some (lw, lh)
    /\ resized_from (Asset l lw lh) letter
    /\ resized_from
         (Contrast
            (Brightness
               (Rotated
                  (Warped
                     (Pasted (Pasted (Blank sw sh) (Asset s sw sh) 0 0)
                             letter px py)
                     pts)
                  angle) b) c)
         r.

(** ** Floats as rationals *)

(** The rational a float denotes; zero for what is not a number. *)
Definition value (x : float) : Q :=
  match x with
  | S754_finite s m e =>
      ((if s then -1 else 1) * inject_Z (Zpos m) * 2 ^ e)%Q
  | _ => 0%Q
  end.

(** Half a unit in the last place of a binary64, relative to the float:
    [2^-53]. *)
Definition half_ulp : Q := 1 # 9007199254740992.

(** [x] is a positive normal float within half a unit in the last place of
    the rational [q], with an exponent of at least [lo]. *)
Definition rounds_to (lo : Z) (x : float) (q : Q) : Prop :=
  exists (m : positive) (e : Z),
    x = S754_finite false m e
    /\ 2 ^ 52 <= Zpos m < 2 ^ 53 /\ lo <= e
    /\ (value x * (1 - half_ulp) <= q <= value x * (1 + half_ulp))%Q.

(** [Image.rotate] returns a canvas whose sides are positive C [int]s
    when the sides of the image are. *)
Definition sides_kept (rotated_size : float -> Z * Z -> Z * Z) : Prop :=
  forall (angle : float) (w h : Z),
    side_ok w -> side_ok h ->
    side_ok (fst (rotated_size angle (w, h)))
    /\ side_ok (snd (rotated_size angle (w, h))).

(** Every image file that decodes has sides that are positive C [int]s. *)
Definition decoded_sides_ok (d : disk) : Prop :=
  forall (path : string) (w h : Z),
    decoded d !! path = Some (w, h) -> side_ok w /\ side_ok h.


(** * Facts about binary64 rounding *)

Module FloatFacts.

Import Float.

Lemma digits2_size (p : positive) : digits2_pos p = Pos.size p.
Proof. induction p; simpl; congruence. Qed.

Lemma digits_bounds (p : positive) :
  2 ^ (Zpos (digits2_pos p) - 1) <= Zpos p < 2 ^ Zpos (digits2_pos p).
Proof.
  rewrite digits2_size.
  pose proof (Pos.size_gt p) as Hgt.
  pose proof (Pos.size_le p) as Hle.
  apply Pos2Z.pos_lt_pos in Hgt. apply Pos2Z.pos_le_pos in Hle.
  rewrite Pos2Z.inj_pow in Hgt, Hle.
  assert (E : 2 ^ Zpos (Pos.size p) = 2 * 2 ^ (Zpos (Pos.size p) - 1)).
  { rewrite <- Z.pow_succ_r by lia. f_equal. lia. }
  pose proof (Pos2Z.inj_xO p). lia.
Qed.

Lemma digits_unique (p : positive) (k : Z) :
  2 ^ (k - 1) <= Zpos p < 2 ^ k -> Zpos (digits2_pos p) = k.
Proof.
  intros [Hlo Hhi]. destruct (digits_bounds p) as [Dlo Dhi].
  set (n := Zpos (digits2_pos p)) in *.
  assert (0 < k).
  { destruct (Z_lt_le_dec 0 k) as [|Hk]; [assumption|].
    exfalso. destruct (Z.eq_dec k 0) as [->|]; [simpl in Hhi; lia|].
    rewrite Z.pow_neg_r in Hhi by lia. lia. }
  destruct (Z.lt_trichotomy n k) as [Hlt | [Heq | Hgt]]; [|assumption|].
  - exfalso.
    assert (2 ^ n <= 2 ^ (k - 1)) by (apply Z.pow_le_mono_r; lia). lia.
  - exfalso.
    assert (2 ^ k <= 2 ^ (n - 1)) by (apply Z.pow_le_mono_r; lia). lia.
Qed.

Lemma shr_1_m (m : Z) (r s : bool) :
  0 <= m ->
  shr_1 (Build_shr_record m r s) = Build_shr_record (m / 2) (Z.odd m) (r || s).
Proof.
  intros Hm. rewrite <- Z.div2_div.
  destruct m as [|[p|p|]|p]; try reflexivity; lia.
Qed.

Lemma loc_of_exact (N D : Z) : N mod D = 0 -> loc_of N D = loc_Exact.
Proof. intros H. unfold loc_of. rewrite H. reflexivity. Qed.

Lemma loc_of_inexact (N D : Z) (c : comparison) :
  N mod D <> 0 -> (2 * (N mod D) ?= D) = c -> loc_of N D = loc_Inexact c.
Proof.
  intros H Hc. unfold loc_of.
  destruct (Z.eqb_spec (N mod D) 0); [contradiction | now rewrite Hc].
Qed.

Lemma loc_of_inv (N D : Z) :
  match loc_of N D with
  | loc_Exact => N mod D = 0
  | loc_Inexact Lt => N mod D <> 0 /\ 2 * (N mod D) < D
  | loc_Inexact Eq => N mod D <> 0 /\ 2 * (N mod D) = D
  | loc_Inexact Gt => N mod D <> 0 /\ 2 * (N mod D) > D
  end.
Proof.
  unfold loc_of. destruct (Z.eqb_spec (N mod D) 0) as [E|E]; [assumption|].
  destruct (Z.compare_spec (2 * (N mod D)) D); split; auto; lia.
Qed.

Lemma shr_1_represents (mrs : shr_record) (N D : Z) :
  0 <= N -> 0 < D -> represents mrs N D -> represents (shr_1 mrs) N (2 * D).
Proof.
  intros HN HD [Hm Hl]. destruct mrs as [m r s]. simpl in Hm.
  assert (0 <= m) by (subst m; apply Z.div_pos; lia).
  rewrite shr_1_m by assumption.
  assert (Hdiv : N / (2 * D) = m / 2).
  { subst m. rewrite Z.div_div by lia. f_equal. lia. }
  assert (Hmod : N mod (2 * D) = N mod D + D * (m mod 2)).
  { subst m. rewrite (Z.mul_comm 2 D). apply Z.rem_mul_r; lia. }
  pose proof (Z.mod_pos_bound N D HD) as Hr.
  pose proof (loc_of_inv N D) as Hinv. rewrite <- Hl in Hinv.
  split; [simpl; congruence|].
  rewrite Zmod_odd in Hmod. simpl.
  destruct (Z.odd m), r, s; simpl in Hinv |- *; symmetry;
    first [ apply loc_of_exact; lia
          | apply loc_of_inexact; [lia|];
            first [ apply Z.compare_lt_iff; lia
                  | apply Z.compare_eq_iff; lia
                  | apply Z.compare_gt_iff; lia ] ].
Qed.

Lemma iter_shr_represents (p : positive) :
  forall (mrs : shr_record) (N D : Z),
    0 <= N -> 0 < D -> represents mrs N D ->
    represents (SpecFloat.iter_pos shr_1 p mrs) N (2 ^ Zpos p * D).
Proof.
  induction p as [p IH | p IH |]; intros mrs N D HN HD H;
    simpl SpecFloat.iter_pos.
  - assert (P : 0 < 2 ^ Zpos p) by (apply Z.pow_pos_nonneg; lia).
    replace (2 ^ Zpos p~1 * D) with (2 ^ Zpos p * (2 ^ Zpos p * (2 * D))).
    + apply IH; [assumption | nia |]. apply IH; [assumption | lia |].
      apply shr_1_represents; assumption.
    + replace (Zpos p~1) with (Zpos p + Zpos p + 1) by lia.
      rewrite !Z.pow_add_r by lia. change (2 ^ 1) with 2. ring.
  - assert (P : 0 < 2 ^ Zpos p) by (apply Z.pow_pos_nonneg; lia).
    replace (2 ^ Zpos p~0 * D) with (2 ^ Zpos p * (2 ^ Zpos p * D)).
    + apply IH; [assumption | nia |]. apply IH; assumption.
    + replace (Zpos p~0) with (Zpos p + Zpos p) by lia.
      rewrite Z.pow_add_r by lia. ring.
  - change (2 ^ 1) with 2. apply shr_1_represents; assumption.
Qed.

Lemma shr_represents (mrs : shr_record) (e n : Z) (N D : Z) :
  0 <= N -> 0 < D -> represents mrs N D ->
  represents (fst (shr mrs e n)) N (2 ^ Z.max 0 n * D)
  /\ snd (shr mrs e n) = e + Z.max 0 n.
Proof.
  intros HN HD H. destruct n as [|p|p]; simpl shr; simpl fst; simpl snd.
  - change (2 ^ Z.max 0 0) with 1. rewrite Z.mul_1_l, Z.add_0_r. auto.
  - rewrite Z.max_r by lia. split; [|reflexivity].
    apply iter_shr_represents; assumption.
  - rewrite Z.max_l by lia. change (2 ^ 0) with 1.
    rewrite Z.mul_1_l, Z.add_0_r. auto.
Qed.

Lemma record_of_loc_represents (N D : Z) :
  represents (shr_record_of_loc (N / D) (loc_of N D)) N D.
Proof.
  split.
  - destruct (loc_of N D) as [|[]]; reflexivity.
  - destruct (loc_of N D) as [|[]]; reflexivity.
Qed.

(** Rounding to nearest commits an error of at most half a unit. *)
Lemma round_nearest_even_error (mrs : shr_record) (N D : Z) :
  0 <= N -> 0 < D -> represents mrs N D ->
  let m := round_nearest_even (shr_m mrs) (loc_of_shr_record mrs) in
  N / D <= m <= N / D + 1 /\ 2 * Z.abs (m * D - N) <= D.
Proof.
  intros HN HD [Hm Hl]. cbv zeta. rewrite Hl, Hm.
  pose proof (loc_of_inv N D) as Hinv.
  pose proof (Z.div_mod N D ltac:(lia)) as Hdm.
  pose proof (Z.mod_pos_bound N D HD) as Hr.
  destruct (loc_of N D) as [|[]]; simpl round_nearest_even.
  - split; [lia|]. nia.
  - destruct (Z.even (N / D)); split; try lia; nia.
  - split; [lia|]. nia.
  - split; [lia|]. nia.
Qed.

Lemma fexp_normal (x : Z) : -1074 <= x - 53 -> fexp prec emax x = x - 53.
Proof. intros H. unfold fexp, emin, prec, emax. lia. Qed.

Lemma Zdigits2_unique (m k : Z) :
  0 < m -> 2 ^ (k - 1) <= m < 2 ^ k -> Zdigits2 m = k.
Proof.
  intros Hm H. destruct m as [|p|p]; try lia. simpl. now apply digits_unique.
Qed.

Lemma Zdigits2_bounds (m : Z) :
  0 < m -> 2 ^ (Zdigits2 m - 1) <= m < 2 ^ Zdigits2 m.
Proof.
  intros Hm. destruct m as [|p|p]; try lia. simpl. apply digits_bounds.
Qed.

(** The rounding step of every operation: a positive quotient [N / D] of
    at least 53 digits, scaled by [2 ^ e], is rounded to a 53-digit
    mantissa with an error of at most half a unit in the last place. *)
Lemma binary_round_aux_spec (s : bool) (N D e : Z) :
  0 < D -> 2 ^ 52 <= N / D ->
  -1074 <= Zdigits2 (N / D) + e - 53 ->
  Zdigits2 (N / D) + e - 53 + 1 <= 971 ->
  exists (m : positive) (k : Z),
    binary_round_aux prec emax s (N / D) e (loc_of N D)
    = S754_finite s m (e + k)
    /\ 0 <= k
    /\ 2 ^ 52 <= Zpos m < 2 ^ 53
    /\ 2 * Z.abs (Zpos m * (2 ^ k * D) - N) <= 2 ^ k * D.
Proof.
  intros HD Hq Hlo Hhi.
  assert (HN : 0 <= N).
  { destruct (Z_lt_le_dec N 0) as [Hneg|]; [|assumption].
    exfalso. assert (N / D < 0) by (apply Z.div_lt_upper_bound; lia).
    assert (0 < 2 ^ 52) by reflexivity. lia. }
  assert (Hqpos : 0 < N / D) by (assert (0 < 2 ^ 52) by reflexivity; lia).
  pose proof (Zdigits2_bounds _ Hqpos) as Hdq.
  set (dq := Zdigits2 (N / D)) in *.
  assert (Hdq53 : 53 <= dq).
  { destruct (Z_lt_le_dec dq 53) as [Hlt|]; [|assumption]. exfalso.
    assert (2 ^ dq <= 2 ^ 52) by (apply Z.pow_le_mono_r; lia). lia. }
  set (n := dq - 53).
  assert (Hn : 0 <= n) by (unfold n; lia).
  assert (P2n : 0 < 2 ^ n) by (apply Z.pow_pos_nonneg; lia).
  unfold binary_round_aux.
  (* first shift *)
  unfold shr_fexp at 1. fold dq. rewrite fexp_normal by lia.
  replace (dq + e - 53 - e) with n by (unfold n; lia).
  destruct (shr_represents (shr_record_of_loc (N / D) (loc_of N D)) e n N D
              HN HD (record_of_loc_represents N D)) as [Hrep He'].
  rewrite Z.max_r in Hrep, He' by lia.
  destruct (shr (shr_record_of_loc (N / D) (loc_of N D)) e n) as [mrs' e'].
  simpl fst in Hrep. simpl snd in He'. subst e'.
  assert (HD' : 0 < 2 ^ n * D) by nia.
  destruct (round_nearest_even_error mrs' N (2 ^ n * D) HN HD' Hrep)
    as [Hm2 Herr].
  set (m2 := round_nearest_even (shr_m mrs') (loc_of_shr_record mrs')) in *.
  (* the shifted mantissa has 53 digits *)
  assert (Hm1 : 2 ^ 52 <= N / (2 ^ n * D) < 2 ^ 53).
  { rewrite (Z.mul_comm (2 ^ n) D), <- Z.div_div by lia.
    assert (E1 : 2 ^ (dq - 1) = 2 ^ 52 * 2 ^ n).
    { rewrite <- Z.pow_add_r by lia. f_equal. unfold n. lia. }
    assert (E2 : 2 ^ dq = 2 ^ 53 * 2 ^ n).
    { rewrite <- Z.pow_add_r by lia. f_equal. unfold n. lia. }
    split.
    - apply Z.div_le_lower_bound; lia.
    - apply Z.div_lt_upper_bound; lia. }
  destruct (Z_lt_le_dec m2 (2 ^ 53)) as [Hsmall | Hbig].
  - (* no carry *)
    assert (Hd2 : Zdigits2 m2 = 53).
    { apply Zdigits2_unique; [assert (0 < 2 ^ 52) by reflexivity; lia|].
      change (53 - 1) with 52. lia. }
    unfold shr_fexp. rewrite Hd2, fexp_normal by (unfold n; lia).
    replace (53 + (e + n) - 53 - (e + n)) with 0 by lia.
    simpl shr. simpl shr_m.
    destruct m2 as [|p2|p2] eqn:Em2;
      try (exfalso; assert (0 < 2 ^ 52) by reflexivity; lia).
    exists p2, n.
    replace (e + n <=? emax - prec) with true
      by (symmetry; apply Z.leb_le; unfold emax, prec, n; lia).
    repeat split; try lia.
  - (* the mantissa was rounded up to 2^53 *)
    assert (Em2 : m2 = 2 ^ 53) by lia.
    assert (Hd2 : Zdigits2 m2 = 54).
    { rewrite Em2. reflexivity. }
    unfold shr_fexp. rewrite Hd2, fexp_normal by (unfold n; lia).
    replace (54 + (e + n) - 53 - (e + n)) with 1 by lia.
    cbv [shr shr_record_of_loc SpecFloat.iter_pos].
    rewrite shr_1_m by lia. cbv [shr_m].
    replace (m2 / 2) with (Zpos 4503599627370496)
      by (rewrite Em2; reflexivity).
    replace (e + n + 1 <=? emax - prec) with true
      by (symmetry; apply Z.leb_le; unfold emax, prec, n; lia).
    exists 4503599627370496%positive, (n + 1).
    split; [f_equal; lia|].
    split; [lia|]. split; [split; [discriminate | reflexivity]|].
    rewrite Z.pow_add_r by lia. change (2 ^ 1) with 2.
    rewrite Em2 in Herr. change (2 ^ 53) with 9007199254740992 in Herr. lia.
Qed.

Lemma binary_round_aux_exact (s : bool) (m : positive) (e : Z) :
  2 ^ 52 <= Zpos m < 2 ^ 53 -> -1074 <= e <= 971 ->
  binary_round_aux prec emax s (Zpos m) e loc_Exact = S754_finite s m e.
Proof.
  intros Hm He.
  assert (Hd : Zdigits2 (Zpos m) = 53) by (apply Zdigits2_unique; lia).
  assert (Hs : shr_fexp prec emax (Zpos m) e loc_Exact
               = (Build_shr_record (Zpos m) false false, e)).
  { unfold shr_fexp. rewrite Hd, fexp_normal by lia.
    replace (53 + e - 53 - e) with 0 by lia. reflexivity. }
  unfold binary_round_aux. rewrite Hs. cbn [shr_m loc_of_shr_record round_nearest_even].
  rewrite Hs. cbn [shr_m].
  replace (e <=? emax - prec) with true
    by (symmetry; apply Z.leb_le; unfold emax, prec; lia).
  reflexivity.
Qed.

Lemma iter_xO (d : positive) (p : positive) :
  Zpos (Pos.iter xO p d) = Zpos p * 2 ^ Zpos d.
Proof.
  induction d as [|d IH] using Pos.peano_ind.
  - simpl. lia.
  - rewrite Pos.iter_succ, Pos2Z.inj_succ, Z.pow_succ_r by lia.
    pose proof (Pos2Z.inj_xO (Pos.iter xO p d)). lia.
Qed.

(** [float(w)] is exact below [2^53]: a 53-digit mantissa [w * 2^a]. *)
Lemma of_int_exact (w : Z) :
  0 < w < 2 ^ 53 ->
  exists (mw : positive) (a : Z),
    of_int w = S754_finite false mw (- a)
    /\ 0 <= a <= 52
    /\ Zpos mw = w * 2 ^ a
    /\ 2 ^ 52 <= Zpos mw < 2 ^ 53.
Proof.
  intros Hw. destruct w as [|p|p]; try lia.
  pose proof (digits_bounds p) as Hd.
  set (dp := Zpos (digits2_pos p)) in *.
  assert (Hdp : 1 <= dp <= 53).
  { split; [unfold dp; lia|].
    destruct (Z_lt_le_dec 53 dp) as [Hgt|]; [|lia]. exfalso.
    assert (2 ^ 53 <= 2 ^ (dp - 1)) by (apply Z.pow_le_mono_r; lia). lia. }
  unfold of_int, binary_normalize, binary_round.
  fold dp. rewrite fexp_normal by lia. unfold shl_align.
  replace (dp + 0 - 53 - 0) with (dp - 53) by lia.
  destruct (dp - 53) as [|q|q] eqn:Eq; try lia.
  - exists p, 0. assert (dp = 53) by lia.
    replace (dp - 1) with 52 in Hd by lia. replace dp with 53 in Hd by lia.
    rewrite binary_round_aux_exact by lia.
    repeat split; try lia.
  - pose proof (iter_xO q p) as Hit.
    assert (Epow : 2 ^ 52 = 2 ^ (dp - 1) * 2 ^ Zpos q).
    { rewrite <- Z.pow_add_r by lia. f_equal. lia. }
    assert (Epow' : 2 ^ 53 = 2 ^ dp * 2 ^ Zpos q).
    { rewrite <- Z.pow_add_r by lia. f_equal. lia. }
    assert (0 < 2 ^ Zpos q) by (apply Z.pow_pos_nonneg; lia).
    exists (Pos.iter xO p q), (Zpos q).
    replace (dp + 0 - 53) with (- Zpos q) by lia.
    rewrite binary_round_aux_exact by (split; first [lia | nia]).
    repeat split; try lia; nia.
Qed.

Lemma trunc_scaled (m : positive) (k E : Z) :
  0 <= k -> 0 <= E ->
  trunc (S754_finite false m (k - E)) = Some (Zpos m * 2 ^ k / 2 ^ E).
Proof.
  intros Hk HE. unfold trunc, cond_Zopp. f_equal.
  assert (0 < 2 ^ E) by (apply Z.pow_pos_nonneg; lia).
  assert (0 < 2 ^ k) by (apply Z.pow_pos_nonneg; lia).
  destruct (Z.leb_spec 0 (k - E)).
  - rewrite Z.shiftl_mul_pow2 by lia.
    replace k with ((k - E) + E) at 2 by lia.
    rewrite Z.pow_add_r, Z.mul_assoc, Z.div_mul by lia. reflexivity.
  - rewrite Z.shiftr_div_pow2 by lia.
    replace E with ((- (k - E)) + k) at 2 by lia.
    rewrite Z.pow_add_r by lia.
    rewrite Z.div_mul_cancel_r by lia. reflexivity.
Qed.

Lemma pow2_digits_range (x lo hi : Z) :
  0 < x -> 0 <= lo -> 2 ^ lo <= x < 2 ^ hi -> lo + 1 <= Zdigits2 x <= hi.
Proof.
  intros Hx Hlo [H1 H2]. pose proof (Zdigits2_bounds x Hx) as [D1 D2].
  split.
  - destruct (Z_lt_le_dec (Zdigits2 x) (lo + 1)) as [Hc|]; [|assumption].
    exfalso. assert (2 ^ Zdigits2 x <= 2 ^ lo).
    { destruct (Z_lt_le_dec (Zdigits2 x) 0).
      - rewrite Z.pow_neg_r by assumption. apply Z.pow_nonneg. lia.
      - apply Z.pow_le_mono_r; lia. }
    lia.
  - destruct (Z_lt_le_dec hi (Zdigits2 x)) as [Hc|]; [|assumption].
    exfalso. assert (2 ^ hi <= 2 ^ (Zdigits2 x - 1)).
    { destruct (Z_lt_le_dec hi 0).
      - rewrite (Z.pow_neg_r 2 hi) by assumption. apply Z.pow_nonneg. lia.
      - apply Z.pow_le_mono_r; lia. }
    lia.
Qed.

(** [int(w * c)] for a positive integer [w] and a positive normal [c]:
    the floor of a number within relative distance [2^-53] of the exact
    product [w * mc / 2^K]. *)
Lemma mul_trunc_bounds (w : Z) (mc : positive) (ec : Z) :
  0 < w < 2 ^ 53 -> 2 ^ 52 <= Zpos mc < 2 ^ 53 -> -1000 <= ec <= 0 ->
  exists (m : positive) (e n : Z),
    mul (of_int w) (S754_finite false mc ec) = S754_finite false m e
    /\ trunc (S754_finite false m e) = Some n
    /\ (2 ^ 53 - 1) * (2 ^ (- ec) * n) <= 2 ^ 53 * (w * Zpos mc)
    /\ 2 ^ 53 * (w * Zpos mc) < (2 ^ 53 + 1) * (2 ^ (- ec) * (n + 1)).
Proof.
  intros Hw Hmc Hec.
  destruct (of_int_exact w Hw) as (mw & a & Hof & Ha & Emw & Hmw).
  rewrite Hof. unfold mul, SFmul. cbn [xorb].
  set (N := Zpos (mw * mc)).
  assert (EN : N = Zpos mw * Zpos mc) by reflexivity.
  assert (HNr : 2 ^ 104 <= N < 2 ^ 106).
  { change (2 ^ 104) with (2 ^ 52 * 2 ^ 52).
    change (2 ^ 106) with (2 ^ 53 * 2 ^ 53). nia. }
  assert (HNd : 105 <= Zdigits2 N <= 106).
  { apply (pow2_digits_range N 104 106); lia. }
  assert (E1 : N / 1 = N) by apply Z.div_1_r.
  assert (El : loc_of N 1 = loc_Exact).
  { apply loc_of_exact. apply Z.mod_1_r. }
  destruct (binary_round_aux_spec false N 1 (- a + ec)) as (m & k & Hr & Hk & Hm & Herr).
  - lia.
  - rewrite E1. assert (2 ^ 52 <= 2 ^ 104) by (apply Z.pow_le_mono_r; lia). lia.
  - rewrite E1. lia.
  - rewrite E1. lia.
  - rewrite E1, El in Hr.
    exists m, (k - (a - ec)), (Zpos m * 2 ^ k / 2 ^ (a - ec)).
    split; [fold N; rewrite Hr; f_equal; lia|].
    split; [apply trunc_scaled; lia|].
    set (T := Zpos m * 2 ^ k) in *.
    set (A := 2 ^ a). set (Kp := 2 ^ (- ec)). set (P := 2 ^ k) in *.
    assert (HA : 0 < A) by (apply Z.pow_pos_nonneg; lia).
    assert (HK : 0 < Kp) by (apply Z.pow_pos_nonneg; lia).
    assert (HP : 0 < P) by (apply Z.pow_pos_nonneg; lia).
    assert (EE : 2 ^ (a - ec) = A * Kp).
    { unfold A, Kp. rewrite <- Z.pow_add_r by lia. f_equal; lia. }
    rewrite EE.
    assert (HAK : 0 < A * Kp) by nia.
    pose proof (Z.div_mod T (A * Kp) ltac:(lia)) as Hdm.
    pose proof (Z.mod_pos_bound T (A * Kp) HAK) as Hrm.
    set (n := T / (A * Kp)) in *.
    assert (ENX : N = (w * Zpos mc) * A) by (rewrite EN, Emw; fold A; ring).
    set (X := w * Zpos mc) in *.
    rewrite Z.mul_1_r in Herr. fold T in Herr.
    assert (HTP : 2 ^ 52 * P <= T) by (unfold T; nia).
    change (2 ^ 53) with 9007199254740992 in *.
    change (2 ^ 52) with 4503599627370496 in *.
    split.
    + apply Z.mul_le_mono_pos_r with (p := A); [assumption|]. lia.
    + apply Z.mul_lt_mono_pos_r with (p := A); [assumption|]. lia.
Qed.

End FloatFacts.

(** * The monad: inversion and frame rules *)

Lemma bind_ok {A B} (m : M A) (k : A -> M B) (st st' : world) (b : B) :
  bind m k st = (Ok b, st') ->
  exists (a : A) (st1 : world), m st = (Ok a, st1) /\ k a st1 = (Ok b, st').
Proof.
  unfold bind. destruct (m st) as [[a|e] st1]; intros H.
  - exists a, st1. auto.
  - discriminate.
Qed.

Lemma bind_raise {A B} (m : M A) (k : A -> M B) (st st' : world) (e : exn) :
  m st = (Raise e, st') -> bind m k st = (Raise e, st').
Proof. unfold bind. intros ->. reflexivity. Qed.

Lemma bind_step {A B} (m : M A) (k : A -> M B) (st st1 : world) (a : A) :
  m st = (Ok a, st1) -> bind m k st = k a st1.
Proof. unfold bind. intros ->. reflexivity. Qed.

Lemma ret_ok {A} (a b : A) (st st' : world) :
  ret a st = (Ok b, st') -> a = b /\ st = st'.
Proof. unfold ret. intros H. inversion H. auto. Qed.

Section Keeps.

Variable R : world -> world -> Prop.
Hypothesis R_refl : forall st, R st st.
Hypothesis R_trans : forall a b c, R a b -> R b c -> R a c.

Lemma keeps_ret {A} (a : A) : keeps R (ret a).
Proof. intros st. apply R_refl. Qed.

Lemma keeps_raise {A} (e : exn) : keeps R (@raise A e).
Proof. intros st. apply R_refl. Qed.

Lemma keeps_bind {A B} (m : M A) (k : A -> M B) :
  keeps R m -> (forall a, keeps R (k a)) -> keeps R (bind m k).
Proof.
  intros Hm Hk st. unfold bind. specialize (Hm st).
  destruct (m st) as [[a|e] st1]; simpl in *.
  - eapply R_trans; [exact Hm | apply Hk].
  - exact Hm.
Qed.

Lemma keeps_lift_option {A} (e : exn) (o : option A) : keeps R (lift_option e o).
Proof. destruct o; [apply keeps_ret | apply keeps_raise]. Qed.

End Keeps.

(** Break a hypothesis [(x <- m ;; k) st = (Ok r, st')] into its steps. *)
Ltac bind_inv H :=
  let a := fresh "a" in
  let st := fresh "st" in
  let H1 := fresh "Hstep" in
  apply bind_ok in H; destruct H as (a & st & H1 & H).

Tactic Notation "unbind" hyp(H) "as" ident(a) ident(st) ident(H1) :=
  apply bind_ok in H; destruct H as (a & st & H1 & H).

Module DivFacts.

Import Float FloatFacts.

Lemma new_location_loc_of (N D : Z) :
  0 < D -> new_location D (N mod D) = loc_of N D.
Proof.
  intros HD. pose proof (Z.mod_pos_bound N D HD) as Hr.
  unfold new_location, new_location_even, new_location_odd, loc_of.
  change IntDef.Z.even with Z.even. change IntDef.Z.eqb with Z.eqb.
  change IntDef.Z.compare with Z.compare. change IntDef.Z.mul with Z.mul.
  change IntDef.Z.add with Z.add.
  destruct (Z.even D) eqn:Ev; cbv beta; [reflexivity|].
  destruct (N mod D =? 0) eqn:E0; [reflexivity|].
  apply Z.eqb_neq in E0. f_equal.
  assert (Hodd : Z.odd D = true) by (rewrite <- Z.negb_even, Ev; reflexivity).
  apply Z.odd_spec in Hodd as [j Hj].
  destruct (Z.compare_spec (2 * (N mod D) + 1) D);
    symmetry;
    first [ apply Z.compare_lt_iff; lia | apply Z.compare_gt_iff; lia ].
Qed.

(** The quotient of two positive normal numbers: a 53-digit mantissa within
    half a unit in the last place of [m1 * 2^53 / m2]. *)
Lemma div_spec (m1 m2 : positive) (e1 e2 : Z) :
  2 ^ 52 <= Zpos m1 < 2 ^ 53 -> 2 ^ 52 <= Zpos m2 < 2 ^ 53 ->
  -1000 <= e1 - e2 <= 900 ->
  exists (m : positive) (k : Z),
    div (S754_finite false m1 e1) (S754_finite false m2 e2)
    = S754_finite false m (e1 - e2 - 53 + k)
    /\ 0 <= k
    /\ 2 ^ 52 <= Zpos m < 2 ^ 53
    /\ 2 * Z.abs (Zpos m * (2 ^ k * Zpos m2) - Zpos m1 * 2 ^ 53)
       <= 2 ^ k * Zpos m2.
Proof.
  intros H1 H2 He.
  assert (Hd1 : Zdigits2 (Zpos m1) = 53) by (apply Zdigits2_unique; lia).
  assert (Hd2 : Zdigits2 (Zpos m2) = 53) by (apply Zdigits2_unique; lia).
  unfold div, SFdiv, SFdiv_core_binary. cbn [xorb].
  rewrite Hd1, Hd2.
  replace (53 + e1 - (53 + e2)) with (e1 - e2) by lia.
  rewrite fexp_normal by lia.
  rewrite Z.min_l by lia.
  replace (e1 - e2 - (e1 - e2 - 53)) with 53 by lia.
  rewrite Z.shiftl_mul_pow2 by lia.
  set (N := Zpos m1 * 2 ^ 53).
  assert (Hq : Z.div_eucl N (Zpos m2) = (N / Zpos m2, N mod Zpos m2)).
  { unfold Z.div, Z.modulo. destruct (Z.div_eucl N (Zpos m2)). reflexivity. }
  rewrite Hq. rewrite new_location_loc_of by lia.
  assert (HNq : 2 ^ 52 <= N / Zpos m2 < 2 ^ 54).
  { split.
    - apply Z.div_le_lower_bound; [lia|]. unfold N. nia.
    - apply Z.div_lt_upper_bound; [lia|]. unfold N.
      change (2 ^ 54) with (2 * 2 ^ 53). nia. }
  assert (HNd : 53 <= Zdigits2 (N / Zpos m2) <= 54).
  { apply (pow2_digits_range (N / Zpos m2) 52 54); lia. }
  destruct (binary_round_aux_spec false N (Zpos m2) (e1 - e2 - 53))
    as (m & k & Hr & Hk & Hm & Herr); try lia.
  exists m, k. auto.
Qed.

(** A quotient whose exact value [m1 * 2^e1 / (m2 * 2^e2)] is at most 1:
    the rounded result is at most 1 and within rounding of the exact
    value. *)
Lemma div_unit (m1 m2 : positive) (e1 e2 : Z) :
  2 ^ 52 <= Zpos m1 < 2 ^ 53 -> 2 ^ 52 <= Zpos m2 < 2 ^ 53 ->
  e1 <= e2 -> -1000 <= e1 - e2 ->
  Zpos m1 <= Zpos m2 * 2 ^ (e2 - e1) ->
  exists (m : positive) (K : Z),
    div (S754_finite false m1 e1) (S754_finite false m2 e2)
    = S754_finite false m K
    /\ (K < -52 \/ (K = -52 /\ Zpos m = 2 ^ 52))
    /\ within_rounding (S754_finite false m K)
                       (Zpos m1) (Zpos m2 * 2 ^ (e2 - e1)).
Proof.
  intros H1 H2 He Hlo Hle.
  destruct (div_spec m1 m2 e1 e2 H1 H2 ltac:(lia))
    as (m & k & Hdiv & Hk & Hm & Herr).
  set (dl := e2 - e1) in *.
  assert (Hdl : 0 <= dl) by (unfold dl; lia).
  set (Qd := 2 ^ dl) in *. set (P := 2 ^ k) in *.
  set (N := Zpos m1 * 2 ^ 53) in *.
  assert (HQ : 0 < Qd) by (apply Z.pow_pos_nonneg; lia).
  assert (HP : 0 < P) by (apply Z.pow_pos_nonneg; lia).
  set (W := P * Zpos m2) in *.
  set (Y := Zpos m * W) in *.
  assert (HW : 0 < W) by (unfold W; nia).
  assert (HY : 2 ^ 52 * W <= Y) by (unfold Y; nia).
  change (2 ^ 53) with 9007199254740992 in *.
  change (2 ^ 52) with 4503599627370496 in *.
  (* the exponent of the result *)
  assert (HA : P * (2 * Zpos m - 1) <= Qd * 18014398509481984).
  { apply Z.mul_le_mono_pos_l with (p := Zpos m2); [lia|].
    assert (Y = Zpos m * P * Zpos m2) by (unfold Y, W; ring).
    assert (Zpos m2 * (P * (2 * Zpos m - 1)) = 2 * Y - W) by (unfold W; lia).
    assert (2 * N <= 2 * (Zpos m2 * Qd) * 9007199254740992) by (unfold N; nia).
    nia. }
  assert (Hk1 : k <= dl + 1).
  { destruct (Z_le_gt_dec k (dl + 1)) as [|Hgt]; [assumption|]. exfalso.
    assert (4 * Qd <= P).
    { unfold P, Qd. change 4 with (2 ^ 2). rewrite <- Z.pow_add_r by lia.
      apply Z.pow_le_mono_r; lia. }
    nia. }
  exists m, (e1 - e2 - 53 + k). split; [exact Hdiv|].
  split.
  - destruct (Z.eq_dec k (dl + 1)) as [Ek|Nk].
    + right. split; [unfold dl in *; lia|].
      assert (P = 2 * Qd).
      { unfold P, Qd. rewrite Ek, Z.pow_add_r by lia. lia. }
      nia.
    + left. unfold dl in *. lia.
  - unfold within_rounding. split; [unfold dl in *; lia|].
    change (2 ^ 52) with 4503599627370496.
    set (T := 2 ^ (- (e1 - e2 - 53 + k))).
    assert (HT : T * P = Qd * 9007199254740992).
    { unfold T, P, Qd. rewrite <- Z.pow_add_r by (unfold dl in *; lia).
      replace (- (e1 - e2 - 53 + k) + k) with (dl + 53) by (unfold dl; lia).
      rewrite Z.pow_add_r by lia. reflexivity. }
    apply Z.mul_le_mono_pos_r with (p := P); [assumption|].
    assert (E1 : Z.abs (Zpos m * (Zpos m2 * Qd) - Zpos m1 * T) * P
                 = Qd * Z.abs (Y - N)).
    { rewrite <- (Z.abs_eq P) at 1 by lia. rewrite <- Z.abs_mul.
      rewrite <- (Z.abs_eq Qd) at 2 by lia. rewrite <- Z.abs_mul.
      f_equal. unfold Y, W, N.
      replace ((Zpos m * (Zpos m2 * Qd) - Zpos m1 * T) * P)
        with (Zpos m * Zpos m2 * Qd * P - Zpos m1 * (T * P)) by ring.
      rewrite HT. ring. }
    assert (E2 : Zpos m1 * T * P = Qd * N).
    { unfold N. rewrite <- Z.mul_assoc, HT. ring. }
    rewrite <- Z.mul_assoc, E1, E2.
    rewrite Z.mul_assoc, (Z.mul_comm 4503599627370496 Qd), <- Z.mul_assoc.
    apply Z.mul_le_mono_nonneg_l; [lia|]. lia.
Qed.

Lemma within_rounding_scale (x : float) (n d n' d' : Z) :
  0 < d -> 0 < d' -> n * d' = n' * d ->
  within_rounding x n d -> within_rounding x n' d'.
Proof.
  intros Hd Hd' E. unfold within_rounding.
  destruct x as [| | |[|] m e]; try exact (fun H => H).
  intros [He H]. split; [exact He|].
  set (T := 2 ^ (- e)) in *.
  assert (HT : 0 < T) by (apply Z.pow_pos_nonneg; lia).
  apply Z.mul_le_mono_pos_r with (p := d); [assumption|].
  assert (E1 : Z.abs (Zpos m * d' - n' * T) * d
               = d' * Z.abs (Zpos m * d - n * T)).
  { rewrite <- (Z.abs_eq d) at 1 by lia. rewrite <- Z.abs_mul.
    rewrite <- (Z.abs_eq d') at 2 by lia. rewrite <- Z.abs_mul.
    f_equal.
    replace ((Zpos m * d' - n' * T) * d)
      with (Zpos m * d' * d - (n' * d) * T) by ring.
    rewrite <- E. ring. }
  rewrite <- Z.mul_assoc, E1.
  replace (n' * T * d) with (d' * (n * T)) by (rewrite <- Z.mul_assoc; nia).
  rewrite Z.mul_assoc, (Z.mul_comm _ d'), <- Z.mul_assoc.
  apply Z.mul_le_mono_nonneg_l; [lia | exact H].
Qed.

Lemma leb_one (m : positive) (K : Z) :
  K < -52 \/ (K = -52 /\ Zpos m = 2 ^ 52) ->
  in_unit_interval (S754_finite false m K) = true.
Proof.
  intros H. unfold in_unit_interval, Float.ltb, Float.leb, SFltb, SFleb.
  change (Float.of_int 0) with (S754_zero false).
  change (Float.of_int 1) with (S754_finite false 4503599627370496 (-52)).
  cbn [SFcompare andb].
  change IntDef.Z.compare with Z.compare.
  destruct H as [H | [-> H]].
  - apply Z.compare_lt_iff in H. rewrite H. reflexivity.
  - assert (m = 4503599627370496%positive) as -> by (change (2 ^ 52) with 4503599627370496 in H; lia).
    reflexivity.
Qed.

(** Halving is exact. *)
Lemma div_by_two (ms : positive) (e : Z) :
  2 ^ 52 <= Zpos ms < 2 ^ 53 -> -1000 <= e <= 900 ->
  div (S754_finite false ms e)
      (S754_finite false 4503599627370496 (-51))
  = S754_finite false ms (e - 1).
Proof.
  intros Hm He.
  assert (Hd1 : Zdigits2 (Zpos ms) = 53) by (apply Zdigits2_unique; lia).
  unfold div, SFdiv, SFdiv_core_binary. cbn [xorb].
  rewrite Hd1. change (Zdigits2 4503599627370496) with 53.
  replace (53 + e - (53 + -51)) with (e + 51) by lia.
  rewrite fexp_normal by lia. rewrite Z.min_l by lia.
  replace (e - -51 - (e + 51 - 53)) with 53 by lia.
  rewrite Z.shiftl_mul_pow2 by lia.
  assert (EN : Zpos ms * 2 ^ 53 = (2 * Zpos ms) * 4503599627370496).
  { change (2 ^ 53) with (2 * 4503599627370496). ring. }
  assert (Hq : Z.div_eucl (Zpos ms * 2 ^ 53) 4503599627370496
               = (2 * Zpos ms, 0)).
  { pose proof (Z.div_mul (2 * Zpos ms) 4503599627370496 ltac:(lia)) as Hdiv.
    pose proof (Z.mod_mul (2 * Zpos ms) 4503599627370496 ltac:(lia)) as Hmod.
    rewrite <- EN in Hdiv, Hmod. unfold Z.div, Z.modulo in Hdiv, Hmod.
    destruct (Z.div_eucl (Zpos ms * 2 ^ 53) 4503599627370496) as [q r].
    congruence. }
  rewrite Hq. change (new_location 4503599627370496 0) with loc_Exact.
  change (2 * Zpos ms) with (Zpos ms~0).
  assert (Hd2 : Zdigits2 (Zpos ms~0) = 54).
  { apply Zdigits2_unique; [lia|]. change (54 - 1) with 53.
    change (2 ^ 54) with (2 * 2 ^ 53). change (2 ^ 53) with (2 * 2 ^ 52) at 1.
    lia. }
  unfold binary_round_aux.
  assert (Hs1 : shr_fexp prec emax (Zpos ms~0) (e + 51 - 53) loc_Exact
                = (Build_shr_record (Zpos ms) false false, e - 1)).
  { unfold shr_fexp. rewrite Hd2, fexp_normal by lia.
    replace (54 + (e + 51 - 53) - 53 - (e + 51 - 53)) with 1 by lia.
    cbn. f_equal. lia. }
  rewrite Hs1. cbn [shr_m loc_of_shr_record round_nearest_even].
  assert (Hs2 : shr_fexp prec emax (Zpos ms) (e - 1) loc_Exact
                = (Build_shr_record (Zpos ms) false false, e - 1)).
  { unfold shr_fexp. rewrite Hd1, fexp_normal by lia.
    replace (53 + (e - 1) - 53 - (e - 1)) with 0 by lia. reflexivity. }
  rewrite Hs2. cbn [shr_m].
  replace (e - 1 <=? emax - prec) with true
    by (symmetry; apply Z.leb_le; unfold emax, prec; lia).
  reflexivity.
Qed.

(** The quotient [a / (2^h * b)] of integers, at most 1: computed as the
    float of [a], scaled down by [2^h], divided by the float of [b]. *)
Lemma quotient_unit (a b h : Z) (ma : positive) (al : Z) :
  0 < a -> 0 < b < 2 ^ 53 -> 0 <= h <= 1 -> a <= 2 ^ h * b ->
  0 <= al <= 52 -> Zpos ma = a * 2 ^ al -> 2 ^ 52 <= Zpos ma < 2 ^ 53 ->
  exists (m : positive) (K : Z),
    div (S754_finite false ma (- al - h)) (of_int b) = S754_finite false m K
    /\ in_unit_interval (S754_finite false m K) = true
    /\ within_rounding (S754_finite false m K) a (2 ^ h * b).
Proof.
  intros Ha Hb Hh Hab Hal Ema Hma.
  destruct (of_int_exact b Hb) as (mb & be & Hof & Hbe & Emb & Hmb).
  rewrite Hof.
  set (A := 2 ^ al) in *. set (B := 2 ^ be) in *. set (Hh2 := 2 ^ h) in *.
  assert (PA : 0 < A) by (apply Z.pow_pos_nonneg; lia).
  assert (PB : 0 < B) by (apply Z.pow_pos_nonneg; lia).
  assert (PH : 0 < Hh2) by (apply Z.pow_pos_nonneg; lia).
  assert (Hexp : be <= al + h).
  { destruct (Z_le_gt_dec be (al + h)) as [|Hgt]; [assumption|]. exfalso.
    assert (2 * (Hh2 * A) <= B).
    { unfold B, Hh2, A. rewrite <- Z.pow_add_r by lia.
      change 2 with (2 ^ 1) at 1. rewrite <- Z.pow_add_r by lia.
      apply Z.pow_le_mono_r; lia. }
    change (2 ^ 53) with (2 * 2 ^ 52) in *. nia. }
  assert (EB : B * 2 ^ (- be - (- al - h)) = A * Hh2).
  { unfold B, A, Hh2. rewrite <- !Z.pow_add_r by lia. f_equal. lia. }
  destruct (div_unit ma mb (- al - h) (- be)) as (m & K & Hdiv & HK & Hw);
    try assumption; try lia.
  - rewrite Emb, Ema, <- Z.mul_assoc, EB. nia.
  - exists m, K. split; [exact Hdiv|]. split; [apply leb_one; exact HK|].
    assert (P2 : 0 < 2 ^ (- be - (- al - h)))
      by (apply Z.pow_pos_nonneg; lia).
    apply (within_rounding_scale _ (Zpos ma)
             (Zpos mb * 2 ^ (- be - (- al - h)))).
    + nia.
    + nia.
    + rewrite Emb, Ema, <- (Z.mul_assoc b), EB. ring.
    + exact Hw.
Qed.

Lemma loc_of_scale (N D k : Z) :
  0 < D -> 0 < k -> loc_of (N * k) (D * k) = loc_of N D.
Proof.
  intros HD Hk. unfold loc_of. rewrite Z.mul_mod_distr_r by lia.
  destruct (Z.eqb_spec (N mod D) 0) as [E|E],
           (Z.eqb_spec (N mod D * k) 0) as [E'|E']; try nia; [reflexivity|].
  f_equal. rewrite Z.mul_assoc.
  destruct (Z.compare_spec (2 * (N mod D)) D);
    first [ apply Z.compare_eq_iff; nia | apply Z.compare_lt_iff; nia
          | apply Z.compare_gt_iff; nia ].
Qed.

(** The quotient of two positive numbers of any number of digits, when
    it is a normal number: the rounding of [m1 * 2^s / m2]. *)
Lemma div_core (m1 m2 : positive) (e1 e2 d1 d2 : Z) :
  Zdigits2 (Zpos m1) = d1 -> Zdigits2 (Zpos m2) = d2 ->
  -1074 <= d1 + e1 - (d2 + e2) - 53 -> 0 <= 53 - d1 + d2 ->
  div (S754_finite false m1 e1) (S754_finite false m2 e2)
  = binary_round_aux prec emax false
      (Zpos m1 * 2 ^ (53 - d1 + d2) / Zpos m2)
      (d1 + e1 - (d2 + e2) - 53)
      (loc_of (Zpos m1 * 2 ^ (53 - d1 + d2)) (Zpos m2)).
Proof.
  intros Hd1 Hd2 Hlo Hs.
  unfold div, SFdiv, SFdiv_core_binary. cbn [xorb].
  rewrite Hd1, Hd2. rewrite fexp_normal by lia.
  rewrite Z.min_l by lia.
  replace (e1 - e2 - (d1 + e1 - (d2 + e2) - 53)) with (53 - d1 + d2) by lia.
  assert (Hm : match 53 - d1 + d2 with
               | 0 => Zpos m1
               | Zpos _ => Z.shiftl (Zpos m1) (53 - d1 + d2)
               | Zneg _ => 0
               end = Zpos m1 * 2 ^ (53 - d1 + d2)).
  { rewrite <- (Z.shiftl_mul_pow2 _ _ Hs).
    destruct (53 - d1 + d2); [reflexivity|reflexivity|lia]. }
  rewrite Hm. set (N := Zpos m1 * 2 ^ (53 - d1 + d2)).
  assert (Hq : Z.div_eucl N (Zpos m2) = (N / Zpos m2, N mod Zpos m2)).
  { unfold Z.div, Z.modulo. destruct (Z.div_eucl N (Zpos m2)). reflexivity. }
  rewrite Hq. rewrite new_location_loc_of by lia. reflexivity.
Qed.

Lemma digits_of_scaled (p m : positive) (x : Z) :
  0 <= x -> Zpos m = Zpos p * 2 ^ x -> 2 ^ 52 <= Zpos m < 2 ^ 53 ->
  x <= 52 /\ Zdigits2 (Zpos p) = 53 - x.
Proof.
  intros Hx E Hm.
  assert (Hpx : 0 < 2 ^ x) by (apply Z.pow_pos_nonneg; lia).
  assert (Hx52 : x <= 52).
  { destruct (Z_lt_le_dec 52 x) as [Hgt|]; [|lia]. exfalso.
    assert (2 ^ 53 <= 2 ^ x) by (apply Z.pow_le_mono_r; lia). nia. }
  split; [exact Hx52|].
  apply Zdigits2_unique; [lia|].
  assert (E52 : 2 ^ 52 = 2 ^ (53 - x - 1) * 2 ^ x).
  { rewrite <- Z.pow_add_r by lia. f_equal. lia. }
  assert (E53 : 2 ^ 53 = 2 ^ (53 - x) * 2 ^ x).
  { rewrite <- Z.pow_add_r by lia. f_equal. lia. }
  nia.
Qed.

(** The quotient of two integers below [2^53] is the quotient of their
    conversions. *)
Lemma div_exact_int (a b : Z) :
  0 < a < 2 ^ 53 -> 0 < b < 2 ^ 53 ->
  div (exact_int a) (exact_int b) = div (of_int a) (of_int b).
Proof.
  intros Ha Hb.
  destruct (of_int_exact a Ha) as (ma & xa & -> & Hxa & Ea & Hma).
  destruct (of_int_exact b Hb) as (mb & xb & -> & Hxb & Eb & Hmb).
  destruct a as [|pa|pa]; try lia. destruct b as [|pb|pb]; try lia.
  cbn [exact_int].
  destruct (digits_of_scaled pa ma xa ltac:(lia) Ea Hma) as [_ Hda].
  destruct (digits_of_scaled pb mb xb ltac:(lia) Eb Hmb) as [_ Hdb].
  assert (Hd1 : Zdigits2 (Zpos ma) = 53) by (apply Zdigits2_unique; lia).
  assert (Hd2 : Zdigits2 (Zpos mb) = 53) by (apply Zdigits2_unique; lia).
  rewrite (div_core pa pb 0 0 _ _ Hda Hdb) by lia.
  rewrite (div_core ma mb (- xa) (- xb) _ _ Hd1 Hd2) by lia.
  replace (53 - (53 - xa) + (53 - xb)) with (53 + xa - xb) by lia.
  replace (53 - 53 + 53) with 53 by lia.
  replace (53 + - xa - (53 + - xb) - 53) with (53 - xa + 0 - (53 - xb + 0) - 53)
    by lia.
  assert (Hpb : 0 < 2 ^ xb) by (apply Z.pow_pos_nonneg; lia).
  assert (EN : Zpos ma * 2 ^ 53 = Zpos pa * 2 ^ (53 + xa - xb) * 2 ^ xb).
  { rewrite Ea, <- !Z.mul_assoc, <- !Z.pow_add_r by lia.
    f_equal. f_equal. lia. }
  rewrite EN, Eb.
  rewrite Z.div_mul_cancel_r by lia.
  rewrite loc_of_scale by lia. reflexivity.
Qed.

End DivFacts.

(** * The primitives *)

Lemma same_output_refl (st : world) : same_output st st.
Proof. repeat split. Qed.

Lemma same_output_trans (a b c : world) :
  same_output a b -> same_output b c -> same_output a c.
Proof.
  intros (A1 & A2 & A3 & A4) (B1 & B2 & B3 & B4).
  repeat split; congruence.
Qed.

Lemma draw_ok (st : world) :
  exists st', draw st = (Ok (rng st (rng_pos st)), st')
              /\ rng_pos st' = S (rng_pos st) /\ rng st' = rng st
              /\ composited st' = composited st /\ same_output st st'.
Proof. eexists. split; [reflexivity|]. repeat split. Qed.

Lemma randint_ok (a b x : Z) (st st' : world) :
  randint a b st = (Ok x, st') -> a <= x <= b.
Proof.
  unfold randint. destruct (Z.ltb_spec b a) as [Hlt|Hle]; [discriminate|].
  intros H. bind_inv H. apply ret_ok in H as [<- _].
  pose proof (Z.mod_pos_bound (Z.of_N a0) (b - a + 1) ltac:(lia)). lia.
Qed.

Lemma randint_empty (a b : Z) (st : world) :
  b < a -> randint a b st = (Raise ValueError, st).
Proof.
  intros H. unfold randint.
  destruct (Z.ltb_spec b a); [reflexivity | lia].
Qed.

Lemma randint_total (a b : Z) (st : world) :
  a <= b -> exists x st', randint a b st = (Ok x, st') /\ a <= x <= b.
Proof.
  intros H. unfold randint. destruct (Z.ltb_spec b a); [lia|].
  do 2 eexists. split; [reflexivity|].
  pose proof (Z.mod_pos_bound (Z.of_N (rng st (rng_pos st))) (b - a + 1)
                ltac:(lia)). lia.
Qed.

(** The draw that yields a chosen value of the range. *)
Lemma randint_reach (a b x : Z) (st : world) :
  a <= x <= b -> rng st (rng_pos st) = Z.to_N (x - a) ->
  exists st', randint a b st = (Ok x, st')
              /\ rng st' = rng st /\ rng_pos st' = S (rng_pos st).
Proof.
  intros Hx Hr. unfold randint. destruct (Z.ltb_spec b a); [lia|].
  eexists. unfold bind, draw, ret. rewrite Hr.
  rewrite Z2N.id, Z.mod_small by lia.
  split; [f_equal; f_equal; lia|]. split; reflexivity.
Qed.

Lemma float_of_int_exact (w : Z) (st : world) :
  0 < w < 2 ^ 53 ->
  exists (mw : positive) (a : Z),
    float_of_int w st = (Ok (S754_finite false mw (- a)), st)
    /\ Float.of_int w = S754_finite false mw (- a)
    /\ 0 <= a <= 52 /\ Zpos mw = w * 2 ^ a /\ 2 ^ 52 <= Zpos mw < 2 ^ 53.
Proof.
  intros Hw.
  destruct (FloatFacts.of_int_exact w Hw) as (mw & a & Hof & Ha & E & Hm).
  exists mw, a. unfold float_of_int. rewrite Hof. auto.
Qed.

(** [int(w * c)] succeeds, leaves the world alone and is the floor of a
    number within relative distance [2^-53] of [w * mc / 2^(-ec)]. *)
Lemma int_scaled_bounds (w : Z) (mc : positive) (ec : Z) (st : world) :
  0 < w < 2 ^ 53 -> 2 ^ 52 <= Zpos mc < 2 ^ 53 -> -1000 <= ec <= 0 ->
  exists n : Z,
    int_scaled w (S754_finite false mc ec) st = (Ok n, st)
    /\ (2 ^ 53 - 1) * (2 ^ (- ec) * n) <= 2 ^ 53 * (w * Zpos mc)
    /\ 2 ^ 53 * (w * Zpos mc) < (2 ^ 53 + 1) * (2 ^ (- ec) * (n + 1)).
Proof.
  intros Hw Hmc Hec.
  destruct (FloatFacts.mul_trunc_bounds w mc ec Hw Hmc Hec)
    as (m & e & n & Hmul & Htr & Hb).
  destruct (float_of_int_exact w st Hw) as (mw & a & Hf & Hof & _).
  exists n. split; [|exact Hb].
  unfold int_scaled. rewrite (bind_step _ _ _ _ _ Hf).
  rewrite <- Hof, Hmul. unfold int_of_float. rewrite Htr. reflexivity.
Qed.

Lemma int_scaled_pure (n : Z) (c : float) (st st' : world) (r : result Z) :
  int_scaled n c st = (r, st') -> st' = st.
Proof.
  unfold int_scaled, bind, float_of_int, int_of_float, lift_option, ret, raise.
  destruct (Float.of_int n); try (intros H; inversion H; reflexivity);
    destruct (Float.mul _ c); try (intros H; inversion H; reflexivity);
    destruct (Float.trunc _); intros H; inversion H; reflexivity.
Qed.

Lemma uniform_ok (a b : float) (st : world) :
  exists x st', uniform a b st = (Ok x, st')
                /\ composited st' = composited st /\ same_output st st'.
Proof. do 2 eexists. split; [reflexivity|]. repeat split. Qed.

(** The jitter amplitude [int(w * 0.15)]. *)
Lemma jitter_small (w : Z) (st : world) :
  0 <= w <= 6 -> int_scaled w f_0_15 st = (Ok 0, st).
Proof.
  intros Hw.
  assert (H : w = 0 \/ w = 1 \/ w = 2 \/ w = 3 \/ w = 4 \/ w = 5 \/ w = 6)
    by lia.
  destruct H as [->|[->|[->|[->|[->|[->| ->]]]]]]; reflexivity.
Qed.

Lemma jitter_large (w : Z) (st : world) :
  7 <= w < 2 ^ 31 ->
  exists j : Z, int_scaled w f_0_15 st = (Ok j, st) /\ 1 <= j /\ 20 * j <= 3 * w.
Proof.
  intros Hw.
  destruct (int_scaled_bounds w 5404319552844595 (-55) st)
    as (n & Hn & Hlo & Hhi); [lia | split; reflexivity || discriminate | lia |].
  exists n. split; [exact Hn|].
  change (- -55) with 55 in *.
  change (2 ^ 55) with 36028797018963968 in *.
  change (2 ^ 53) with 9007199254740992 in *.
  change (2 ^ 31) with 2147483648 in *. lia.
Qed.

(** The side of the letter [int(m * 0.7)]. *)
Lemma letter_side_bounds (m : Z) (st : world) :
  1 <= m < 2 ^ 31 ->
  exists n : Z, int_scaled m f_0_7 st = (Ok n, st)
                /\ 7 * m - 10 <= 10 * n <= 7 * m.
Proof.
  intros Hm.
  destruct (int_scaled_bounds m 6305039478318694 (-53) st)
    as (n & Hn & Hlo & Hhi); [lia | split; reflexivity || discriminate | lia |].
  exists n. split; [exact Hn|].
  change (- -53) with 53 in *.
  change (2 ^ 53) with 9007199254740992 in *.
  change (2 ^ 31) with 2147483648 in *. lia.
Qed.

Lemma int_scaled_const (n : Z) (c : float) :
  exists r : result Z, forall st : world, int_scaled n c st = (r, st).
Proof.
  unfold int_scaled, bind, float_of_int, int_of_float, lift_option, ret, raise.
  destruct (Float.of_int n); try (eexists; intros; reflexivity);
    destruct (Float.mul _ c); try (eexists; intros; reflexivity);
    destruct (Float.trunc _); eexists; intros; reflexivity.
Qed.

Lemma int_scaled_any_world (n : Z) (c : float) (r : result Z) (st st' : world) :
  int_scaled n c st = (r, st) -> int_scaled n c st' = (r, st').
Proof.
  destruct (int_scaled_const n c) as (r' & Hr). rewrite !Hr.
  intros H. inversion H. reflexivity.
Qed.

(** The rounding of binary64 shows: [int(90 * 0.7)] is 62, not 63. *)
Example int_90_times_0_7 (st : world) : int_scaled 90 f_0_7 st = (Ok 62, st).
Proof. reflexivity. Qed.

Example int_7_times_0_15 (st : world) : int_scaled 7 f_0_15 st = (Ok 1, st).
Proof. reflexivity. Qed.

(** * The geometric transformer *)

Lemma jitter_corners_inv (w h : Z) (st st' : world) (pts : list (Z * Z)) :
  side_ok w -> side_ok h ->
  jitter_corners w h st = (Ok pts, st') ->
  exists jw jh x0 y0 x1 y1 x2 y2 x3 y3 : Z,
    int_scaled w f_0_15 st = (Ok jw, st)
    /\ int_scaled h f_0_15 st = (Ok jh, st)
    /\ 20 * jw <= 3 * w /\ 20 * jh <= 3 * h
    /\ pts = [(x0, y0); (w - x1, y1); (w - x2, h - y2); (x3, h - y3)]
    /\ 0 <= x0 <= jw /\ 0 <= y0 <= jh
    /\ 1 <= x1 <= jw /\ 0 <= y1 <= jh
    /\ 1 <= x2 <= jw /\ 1 <= y2 <= jh
    /\ 0 <= x3 <= jw /\ 1 <= y3 <= jh.
Proof.
  intros Hw Hh H. unfold side_ok in *. unfold jitter_corners in H.
  bind_inv H. rename a into jw, Hstep into Hjw.
  pose proof (int_scaled_pure _ _ _ _ _ Hjw) as ->.
  bind_inv H. rename a into jh, Hstep into Hjh.
  pose proof (int_scaled_pure _ _ _ _ _ Hjh) as ->.
  bind_inv H. rename a into x0, Hstep into Hx0. apply randint_ok in Hx0.
  bind_inv H. rename a into y0, Hstep into Hy0. apply randint_ok in Hy0.
  bind_inv H. rename a into x1, Hstep into Hx1. apply randint_ok in Hx1.
  bind_inv H. rename a into y1, Hstep into Hy1. apply randint_ok in Hy1.
  bind_inv H. rename a into x2, Hstep into Hx2. apply randint_ok in Hx2.
  bind_inv H. rename a into y2, Hstep into Hy2. apply randint_ok in Hy2.
  bind_inv H. rename a into x3, Hstep into Hx3. apply randint_ok in Hx3.
  bind_inv H. rename a into y3, Hstep into Hy3. apply randint_ok in Hy3.
  apply ret_ok in H as [<- _].
  assert (Bw : 20 * jw <= 3 * w).
  { destruct (Z_le_gt_dec w 6).
    - rewrite jitter_small in Hjw by lia. inversion Hjw. lia.
    - destruct (jitter_large w st) as (j & Hj & ? & ?); [lia|].
      rewrite Hj in Hjw. inversion Hjw. lia. }
  assert (Bh : 20 * jh <= 3 * h).
  { destruct (Z_le_gt_dec h 6).
    - rewrite jitter_small in Hjh by lia. inversion Hjh. lia.
    - destruct (jitter_large h st) as (j & Hj & ? & ?); [lia|].
      rewrite Hj in Hjh. inversion Hjh. lia. }
  exists jw, jh, x0, y0, x1, y1, x2, y2, x3, y3.
  repeat split; try assumption; lia.
Qed.

Ltac randint_step a b st :=
  let x := fresh "x" in
  let st' := fresh "st" in
  let Hx := fresh "Hx" in
  let Hr := fresh "Hr" in
  destruct (randint_total a b st ltac:(lia)) as (x & st' & Hx & Hr);
  rewrite (bind_step _ _ _ _ _ Hx).

Lemma jitter_corners_raises (w h : Z) (st : world) :
  side_ok w -> side_ok h -> w <= 6 \/ h <= 6 ->
  exists st', jitter_corners w h st = (Raise ValueError, st').
Proof.
  unfold side_ok. intros Hw Hh Hsmall. unfold jitter_corners.
  destruct (Z_le_gt_dec w 6) as [Hw6|Hw7].
  - (* the first draw of [1..jitter_w] has an empty range *)
    rewrite (bind_step _ _ _ _ _ (jitter_small w st ltac:(lia))).
    assert (Hjh : exists jh, int_scaled h f_0_15 st = (Ok jh, st) /\ 0 <= jh).
    { destruct (Z_le_gt_dec h 6).
      - exists 0. split; [apply jitter_small; lia | lia].
      - destruct (jitter_large h st) as (j & Hj & ? & ?); [lia|].
        exists j. split; [assumption | lia]. }
    destruct Hjh as (jh & Hjh & Hjh0).
    rewrite (bind_step _ _ _ _ _ Hjh).
    randint_step 0 0 st. randint_step 0 jh st0.
    eexists. apply bind_raise. apply randint_empty. lia.
  - (* the width is fine, so the height is small: the first draw of
       [1..jitter_h] fails *)
    destruct (jitter_large w st) as (jw & Hjw & Hjw1 & _); [lia|].
    rewrite (bind_step _ _ _ _ _ Hjw).
    rewrite (bind_step _ _ _ _ _ (jitter_small h st ltac:(lia))).
    randint_step 0 jw st. randint_step 0 0 st0.
    randint_step 1 jw st1. randint_step 0 0 st2.
    randint_step 1 jw st3.
    eexists. apply bind_raise. apply randint_empty. lia.
Qed.

Lemma jitter_corners_total (w h : Z) (st : world) :
  7 <= w < 2 ^ 31 -> 7 <= h < 2 ^ 31 ->
  exists pts st', jitter_corners w h st = (Ok pts, st').
Proof.
  intros Hw Hh. unfold jitter_corners.
  destruct (jitter_large w st Hw) as (jw & Hjw & Hjw1 & _).
  destruct (jitter_large h st Hh) as (jh & Hjh & Hjh1 & _).
  rewrite (bind_step _ _ _ _ _ Hjw), (bind_step _ _ _ _ _ Hjh).
  randint_step 0 jw st. randint_step 0 jh st0.
  randint_step 1 jw st1. randint_step 0 jh st2.
  randint_step 1 jw st3. randint_step 1 jh st4.
  randint_step 0 jw st5. randint_step 1 jh st6.
  do 2 eexists. reflexivity.
Qed.

Ltac reach_step a b x st :=
  let st' := fresh "st" in
  let Hx := fresh "Hx" in
  let Hrng := fresh "Hrng" in
  let Hpos := fresh "Hpos" in
  destruct (randint_reach a b x st ltac:(lia)) as (st' & Hx & Hrng & Hpos);
  [ repeat match goal with
           | H : rng _ = rng _ |- _ => rewrite H
           | H : rng_pos _ = _ |- _ => rewrite H
           end;
    simpl; f_equal; lia
  | rewrite (bind_step _ _ _ _ _ Hx) ].

(** Every vector of inward offsets is the outcome of some draws. *)
Lemma jitter_corners_reach (w h jw jh x0 y0 x1 y1 x2 y2 x3 y3 : Z) :
  (forall st, int_scaled w f_0_15 st = (Ok jw, st)) ->
  (forall st, int_scaled h f_0_15 st = (Ok jh, st)) ->
  0 <= x0 <= jw -> 0 <= y0 <= jh -> 1 <= x1 <= jw -> 0 <= y1 <= jh ->
  1 <= x2 <= jw -> 1 <= y2 <= jh -> 0 <= x3 <= jw -> 1 <= y3 <= jh ->
  exists st',
    jitter_corners w h
      (world_of_draws [Z.to_N x0; Z.to_N y0; Z.to_N (x1 - 1); Z.to_N y1;
                       Z.to_N (x2 - 1); Z.to_N (y2 - 1); Z.to_N x3;
                       Z.to_N (y3 - 1)])
    = (Ok [(x0, y0); (w - x1, y1); (w - x2, h - y2); (x3, h - y3)], st').
Proof.
  intros Hjw Hjh ? ? ? ? ? ? ? ?.
  set (st := world_of_draws _).
  unfold jitter_corners.
  rewrite (bind_step _ _ _ _ _ (Hjw st)), (bind_step _ _ _ _ _ (Hjh st)).
  reach_step 0 jw x0 st. reach_step 0 jh y0 st0.
  reach_step 1 jw x1 st1. reach_step 0 jh y1 st2.
  reach_step 1 jw x2 st3. reach_step 1 jh y2 st4.
  reach_step 0 jw x3 st5. reach_step 1 jh y3 st6.
  eexists. reflexivity.
Qed.

(** * The logo compositor and the transformers *)

Section Script.

Variable rotated_size : float -> Z * Z -> Z * Z.
Variable float_repr : float -> string.
Variable d : disk.

Lemma resize_ok (img : raster) (w h : Z) (st : world) :
  1 <= w -> 1 <= h ->
  exists img', resize rotated_size img w h st = (Ok img', st)
               /\ size rotated_size img' = (w, h)
               /\ (img' = img \/ img' = Resized img w h).
Proof.
  intros Hw Hh. unfold resize.
  destruct ((fst (size rotated_size img) =? w)
            && (snd (size rotated_size img) =? h)) eqn:E.
  - apply andb_true_iff in E as [E1 E2].
    apply Z.eqb_eq in E1, E2. exists img. split; [reflexivity|].
    split; [|now left].
    destruct (size rotated_size img). simpl in *. congruence.
  - destruct (Z.ltb_spec w 1); [lia|]. destruct (Z.ltb_spec h 1); [lia|].
    simpl. exists (Resized img w h). repeat split. now right.
Qed.

Lemma resize_inv (img img' : raster) (w h : Z) (st st' : world) :
  resize rotated_size img w h st = (Ok img', st') ->
  size rotated_size img' = (w, h) /\ st' = st.
Proof.
  unfold resize.
  destruct ((fst (size rotated_size img) =? w)
            && (snd (size rotated_size img) =? h)) eqn:E.
  - apply andb_true_iff in E as [E1 E2]. apply Z.eqb_eq in E1, E2.
    intros H. apply ret_ok in H as [<- <-]. split; [|reflexivity].
    destruct (size rotated_size img). simpl in *. congruence.
  - destruct ((w <? 1) || (h <? 1)); [discriminate|].
    intros H. apply ret_ok in H as [<- <-]. auto.
Qed.

Lemma create_composite_logo_ok (shield letter : raster) (sw sh : Z) (st : world) :
  size rotated_size shield = (sw, sh) ->
  2 <= sw < 2 ^ 31 -> 2 <= sh < 2 ^ 31 ->
  exists (n : Z) (letter' : raster),
    create_composite_logo rotated_size shield letter st
    = (Ok (Pasted (Pasted (Blank sw sh) shield 0 0) letter'
                  ((sw - n) / 2) ((sh - n) / 2)), st)
    /\ int_scaled (Z.min sw sh) f_0_7 st = (Ok n, st)
    /\ size rotated_size letter' = (n, n)
    /\ (letter' = letter \/ letter' = Resized letter n n)
    /\ 1 <= n /\ 7 * Z.min sw sh - 10 <= 10 * n <= 7 * Z.min sw sh.
Proof.
  intros Hsize Hsw Hsh. unfold create_composite_logo. rewrite Hsize.
  cbn [fst snd].
  destruct (letter_side_bounds (Z.min sw sh) st) as (n & Hn & Hb); [lia|].
  assert (Hn1 : 1 <= n) by lia.
  rewrite (bind_step _ _ _ _ _ Hn).
  destruct (resize_ok letter n n st Hn1 Hn1) as (letter' & Hr & Hs & Hl).
  rewrite (bind_step _ _ _ _ _ Hr). rewrite Hs. cbn [fst snd].
  exists n, letter'. unfold paste_transparent, ret. cbn [fst snd].
  repeat split; try assumption; lia.
Qed.

Lemma apply_augmentations_raises (logo : raster) (w h : Z) (st : world) :
  size rotated_size logo = (w, h) -> side_ok w -> side_ok h ->
  w <= 6 \/ h <= 6 ->
  exists st', apply_augmentations rotated_size logo st = (Raise ValueError, st').
Proof.
  intros Hsize Hw Hh Hsmall. unfold apply_augmentations.
  rewrite Hsize. cbn [fst snd].
  destruct (jitter_corners_raises w h st Hw Hh Hsmall) as (st' & Hj).
  exists st'. apply bind_raise. exact Hj.
Qed.

Lemma apply_augmentations_total (logo : raster) (w h : Z) (st : world) :
  size rotated_size logo = (w, h) -> 7 <= w < 2 ^ 31 -> 7 <= h < 2 ^ 31 ->
  exists pts angle b c st',
    apply_augmentations rotated_size logo st
    = (Ok (Contrast (Brightness (Rotated (Warped logo pts) angle) b) c), st').
Proof.
  intros Hsize Hw Hh. unfold apply_augmentations.
  rewrite Hsize. cbn [fst snd].
  destruct (jitter_corners_total w h st Hw Hh) as (pts & st1 & Hj).
  rewrite (bind_step _ _ _ _ _ Hj).
  exists pts. do 4 eexists. reflexivity.
Qed.

End Script.

(** * Frame rules for the script

    A relation between worlds that is kept by a draw and by the logging of
    an admissible pair is kept by everything up to the assembled scene. *)

Section Frame.

Variable rotated_size : float -> Z * Z -> Z * Z.
Variable float_repr : float -> string.
Variable d : disk.

Variable R : world -> world -> Prop.
Hypothesis R_refl : forall st, R st st.
Hypothesis R_trans : forall a b c, R a b -> R b c -> R a c.
Hypothesis R_draw : keeps R draw.
Hypothesis R_log :
  forall s l, forbidden (basename s) (basename l) = false ->
              keeps R (log_composite s l).

Ltac keeps_step :=
  first
    [ apply (keeps_ret R R_refl)
    | apply (keeps_raise R R_refl)
    | apply (keeps_lift_option R R_refl)
    | assumption
    | match goal with
      | |- keeps _ (bind _ _) => apply (keeps_bind R R_trans); [| intros ?]
      end
    | match goal with
      | |- keeps _ (if ?b then _ else _) => destruct b eqn:?
      | |- keeps _ (match ?x with _ => _ end) => destruct x eqn:?
      end ].

Ltac keeps_auto := repeat keeps_step.

Lemma keeps_randint (a b : Z) : keeps R (randint a b).
Proof. unfold randint. keeps_auto. Qed.

Lemma keeps_choice {A} (l : list A) : keeps R (choice l).
Proof. unfold choice. keeps_auto. Qed.

Lemma keeps_random : keeps R random.
Proof. unfold random. keeps_auto. Qed.

Lemma keeps_uniform (a b : float) : keeps R (uniform a b).
Proof. unfold uniform. keeps_auto; apply keeps_random. Qed.

Lemma keeps_float_of_int (n : Z) : keeps R (float_of_int n).
Proof. unfold float_of_int. keeps_auto. Qed.

Lemma keeps_int_of_float (x : float) : keeps R (int_of_float x).
Proof. unfold int_of_float. keeps_auto. Qed.

Lemma keeps_int_scaled (n : Z) (c : float) : keeps R (int_scaled n c).
Proof.
  unfold int_scaled. keeps_auto;
    [apply keeps_float_of_int | apply keeps_int_of_float].
Qed.

Lemma keeps_float_div_int (x : float) (n : Z) : keeps R (float_div_int x n).
Proof. unfold float_div_int. keeps_auto; apply keeps_float_of_int. Qed.

Lemma keeps_int_truediv (a b : Z) : keeps R (int_truediv a b).
Proof. unfold int_truediv. keeps_auto. Qed.

Lemma keeps_image_open (path : string) : keeps R (image_open d path).
Proof. unfold image_open. keeps_auto. Qed.

Lemma keeps_resize (img : raster) (w h : Z) :
  keeps R (resize rotated_size img w h).
Proof. unfold resize. keeps_auto. Qed.

Lemma keeps_create_composite_logo (shield letter : raster) :
  keeps R (create_composite_logo rotated_size shield letter).
Proof.
  unfold create_composite_logo. keeps_auto;
    [apply keeps_int_scaled | apply keeps_resize].
Qed.

Lemma keeps_jitter_corners (w h : Z) : keeps R (jitter_corners w h).
Proof.
  unfold jitter_corners.
  keeps_auto; first [apply keeps_int_scaled | apply keeps_randint].
Qed.

Lemma keeps_apply_augmentations (logo : raster) :
  keeps R (apply_augmentations rotated_size logo).
Proof.
  unfold apply_augmentations.
  keeps_auto; first [apply keeps_jitter_corners | apply keeps_uniform].
Qed.

Lemma keeps_convert_to_yolo (box : bbox) (img_size : Z * Z) :
  keeps R (convert_to_yolo box img_size).
Proof.
  unfold convert_to_yolo. destruct box as [[[b0 b1] b2] b3].
  destruct img_size as [img_w img_h].
  keeps_auto;
    first [apply keeps_float_of_int | apply keeps_float_div_int
          | apply keeps_int_truediv].
Qed.

Lemma keeps_logo_attempt (bg : raster) (bg_w bg_h : Z) :
  keeps R (logo_attempt rotated_size d bg bg_w bg_h).
Proof.
  unfold logo_attempt.
  apply (keeps_bind R R_trans); [apply keeps_choice | intros s].
  apply (keeps_bind R R_trans); [apply keeps_choice | intros l].
  destruct (forbidden (basename s) (basename l)) eqn:Hf;
    [apply (keeps_ret R R_refl)|].
  keeps_auto;
    first [ apply keeps_image_open | apply R_log; assumption
          | apply keeps_create_composite_logo
          | apply keeps_apply_augmentations | apply keeps_uniform
          | apply keeps_int_scaled | apply keeps_int_truediv
          | apply keeps_resize | apply keeps_randint
          | apply keeps_convert_to_yolo ].
Qed.

Lemma keeps_place_logos (n : nat) :
  forall (bg_w bg_h : Z) (bg : raster) (acc : list (placement * yolo_bbox)),
    keeps R (place_logos rotated_size d n bg_w bg_h bg acc).
Proof.
  induction n as [|n IH]; intros bg_w bg_h bg acc; simpl.
  - apply (keeps_ret R R_refl).
  - apply (keeps_bind R R_trans); [apply keeps_logo_attempt | intros r].
    destruct r as [[[bg' p] y]|]; apply IH.
Qed.

Lemma keeps_assemble_scene : keeps R (assemble_scene rotated_size d).
Proof.
  unfold assemble_scene.
  keeps_auto;
    first [ apply keeps_choice | apply keeps_image_open | apply keeps_randint
          | apply keeps_place_logos ].
Qed.

(** With the output operations kept as well, the whole run keeps [R]. *)
Hypothesis R_out : keeps R output_op.
Hypothesis R_fs : forall f st, R st (set_fs f st).
Hypothesis R_warn : forall e st, R st (warn e st).

Lemma keeps_set_fs (f : world -> gmap string file) :
  keeps R (fun st => (Ok tt, set_fs (f st) st)).
Proof. intros st. apply R_fs. Qed.

Lemma keeps_on_error {A} (m : M A) (cleanup : M unit) :
  keeps R m -> keeps R cleanup -> keeps R (on_error m cleanup).
Proof.
  intros Hm Hc st. unfold on_error. specialize (Hm st).
  destruct (m st) as [[a|e] st1]; simpl in *; [exact Hm|].
  eapply R_trans; [exact Hm | apply Hc].
Qed.

Lemma keeps_image_save (r : raster) (path : string) :
  keeps R (image_save r path).
Proof.
  intros st. unfold image_save.
  apply (keeps_bind R R_trans); [assumption | intros _].
  apply (keeps_bind R R_trans);
    [apply (keeps_set_fs (fun st => <[path := PartialFile]> (fs st)))
    | intros _].
  apply keeps_on_error.
  - apply (keeps_bind R R_trans); [assumption | intros _].
    apply (keeps_set_fs (fun st => <[path := ImageFile r]> (fs st))).
  - destruct (fs st !! path); [apply (keeps_ret R R_refl)|].
    unfold remove. apply (keeps_bind R R_trans); [assumption | intros _].
    apply (keeps_set_fs (fun st => delete path (fs st))).
Qed.

Lemma keeps_open_w (path : string) : keeps R (open_w path).
Proof.
  unfold open_w. apply (keeps_bind R R_trans); [assumption | intros _].
  apply (keeps_set_fs (fun st => <[path := TextFile EmptyString]> (fs st))).
Qed.

Lemma keeps_file_write (path s : string) : keeps R (file_write path s).
Proof.
  unfold file_write. apply (keeps_bind R R_trans); [assumption | intros _].
  intros st. apply R_fs.
Qed.

Lemma keeps_write_lines (path : string) (bs : list yolo_bbox) :
  keeps R (write_lines float_repr path bs).
Proof.
  induction bs as [|b bs IH]; simpl.
  - apply (keeps_ret R R_refl).
  - apply (keeps_bind R R_trans); [apply keeps_file_write | intros _; exact IH].
Qed.

Lemma keeps_save_scene (c : Z) (bg : raster) (l : list (placement * yolo_bbox)) :
  keeps R (save_scene float_repr c bg l).
Proof.
  unfold save_scene. destruct l as [|x l]; [apply (keeps_ret R R_refl)|].
  keeps_auto;
    first [ apply keeps_random | apply keeps_image_save | apply keeps_open_w
          | apply keeps_write_lines ].
Qed.

Lemma keeps_scene_body (c : Z) :
  keeps R (scene_body rotated_size float_repr d c).
Proof.
  unfold scene_body.
  apply (keeps_bind R R_trans); [apply keeps_assemble_scene | intros p].
  apply keeps_save_scene.
Qed.

Lemma scene_attempt_keeps (c : Z) (st : world) :
  R st (snd (scene_attempt rotated_size float_repr d c st)).
Proof.
  unfold scene_attempt. pose proof (keeps_scene_body c st) as H.
  destruct (scene_body rotated_size float_repr d c st) as [[[|]|e] st'];
    simpl in *; try exact H.
  eapply R_trans; [exact H | apply R_warn].
Qed.

Lemma main_loop_keeps (fuel : nat) :
  forall (num c : Z) (st : world),
    R st (snd (main_loop rotated_size float_repr d fuel num c st)).
Proof.
  induction fuel as [|fuel IH]; intros num c st; simpl.
  - apply R_refl.
  - destruct (c <? num); [|apply R_refl].
    pose proof (scene_attempt_keeps c st) as H.
    destruct (scene_attempt rotated_size float_repr d c st) as [[o c'] st'].
    simpl in H. eapply R_trans; [exact H | apply IH].
Qed.

End Frame.

(** * The placement loop *)

Section Loop.

Variable rotated_size : float -> Z * Z -> Z * Z.
Variable float_repr : float -> string.
Variable d : disk.

Lemma same_output_draw : keeps same_output draw.
Proof. intros st. repeat split. Qed.

Lemma same_output_log (s l : string) : keeps same_output (log_composite s l).
Proof. intros st. repeat split. Qed.

Lemma assemble_scene_same_output (st : world) :
  same_output st (snd (assemble_scene rotated_size d st)).
Proof.
  apply (keeps_assemble_scene rotated_size d same_output
           same_output_refl same_output_trans same_output_draw).
  intros s l _. apply same_output_log.
Qed.

Lemma log_grows_refl (st : world) : log_grows st st.
Proof. exists []. split; [reflexivity | constructor]. Qed.

Lemma log_grows_trans (a b c : world) :
  log_grows a b -> log_grows b c -> log_grows a c.
Proof.
  intros (n1 & E1 & F1) (n2 & E2 & F2). exists (n2 ++ n1). split.
  - rewrite E2, E1. apply app_assoc.
  - apply Forall_app. split; assumption.
Qed.

Lemma log_grows_same (st st' : world) :
  composited st' = composited st -> log_grows st st'.
Proof. intros H. exists []. split; [exact H | constructor]. Qed.

(** What one accepted turn of the [for] loop guarantees. *)
Lemma logo_attempt_accepts (bg bg' : raster) (bg_w bg_h : Z) (p : placement)
    (y : yolo_bbox) (st st' : world) :
  logo_attempt rotated_size d bg bg_w bg_h st = (Ok (Some (bg', p, y)), st') ->
  placement_in_bounds bg_w bg_h p
  /\ 1 <= rendered_w p /\ 1 <= rendered_h p
  /\ size rotated_size bg' = size rotated_size bg
  /\ exists st1 st2,
       convert_to_yolo (paste_x p, paste_y p, paste_x p + rendered_w p,
                        paste_y p + rendered_h p) (bg_w, bg_h) st1
       = (Ok y, st2).
Proof.
  intros H. unfold logo_attempt in H.
  unbind H as s st1 Hs. unbind H as l st2 Hl.
  destruct (forbidden _ _); [apply ret_ok in H as [H _]; discriminate|].
  unbind H as shield st3 Hshield. unbind H as letter st4 Hletter.
  unbind H as u st5 Hlog. unbind H as logo st6 Hlogo.
  unbind H as logo' st7 Haug. unbind H as scale st8 Hscale.
  unbind H as target_w st9 Htw. unbind H as target_h st10 Hth.
  destruct ((_ =? 0) || (_ =? 0)); [apply ret_ok in H as [H _]; discriminate|].
  unbind H as rw st11 Hrw. unbind H as rh st12 Hrh.
  unbind H as new_w st13 Hnw. unbind H as new_h st14 Hnh.
  destruct (Z.ltb_spec new_w 1); simpl in H;
    [apply ret_ok in H as [H _]; discriminate|].
  destruct (Z.ltb_spec new_h 1); simpl in H;
    [apply ret_ok in H as [H _]; discriminate|].
  unbind H as logo'' st15 Hres.
  unbind H as px st16 Hpx. unbind H as py st17 Hpy.
  unbind H as yolo st18 Hyolo.
  apply ret_ok in H as [H _]. inversion H; subst; clear H.
  apply randint_ok in Hpx, Hpy.
  unfold placement_in_bounds. cbn [paste_x paste_y rendered_w rendered_h].
  repeat split; try lia.
  eauto.
Qed.

Lemma place_logos_in_bounds (n : nat) :
  forall (bg_w bg_h : Z) (bg bg' : raster)
         (acc l : list (placement * yolo_bbox)) (st st' : world),
    place_logos rotated_size d n bg_w bg_h bg acc st = (Ok (bg', l), st') ->
    Forall (fun py => placement_in_bounds bg_w bg_h (fst py)) acc ->
    Forall (fun py => placement_in_bounds bg_w bg_h (fst py)) l
    /\ size rotated_size bg' = size rotated_size bg.
Proof.
  induction n as [|n IH]; intros bg_w bg_h bg bg' acc l st st' H Hacc;
    simpl in H.
  - apply ret_ok in H as [H _]. inversion H; subst. auto.
  - unbind H as r st1 Hstep. destruct r as [[[bg1 p] y]|].
    + apply logo_attempt_accepts in Hstep as (Hb & _ & _ & Hs & _).
      apply IH in H.
      * destruct H as [Hl Hs']. split; [exact Hl | congruence].
      * apply Forall_app. split; [exact Hacc|]. constructor; [exact Hb|constructor].
    + apply IH in H; assumption.
Qed.

Lemma place_logos_Forall (P : placement * yolo_bbox -> Prop) (bg_w bg_h : Z) :
  (forall bg bg' p y st st',
     logo_attempt rotated_size d bg bg_w bg_h st = (Ok (Some (bg', p, y)), st') ->
     P (p, y)) ->
  forall (n : nat) (bg bg' : raster) (acc l : list (placement * yolo_bbox))
         (st st' : world),
    place_logos rotated_size d n bg_w bg_h bg acc st = (Ok (bg', l), st') ->
    Forall P acc -> Forall P l.
Proof.
  intros HP. induction n as [|n IH]; intros bg bg' acc l st st' H Hacc;
    simpl in H.
  - apply ret_ok in H as [H _]. inversion H; subst. exact Hacc.
  - unbind H as r st1 Hstep. destruct r as [[[bg1 p] y]|].
    + apply (IH _ _ _ _ _ _ H). apply Forall_app. split; [exact Hacc|].
      constructor; [|constructor]. apply (HP _ _ _ _ _ _ Hstep).
    + apply (IH _ _ _ _ _ _ H Hacc).
Qed.

End Loop.

(** * The dataset writer *)

Lemma append_cons (c : ascii) (a b : string) :
  String c a +:+ b = String c (a +:+ b).
Proof. reflexivity. Qed.

Lemma append_nil_r (a : string) : a +:+ EmptyString = a.
Proof.
  induction a as [|c a IH]; [reflexivity|]. rewrite append_cons, IH. reflexivity.
Qed.

Lemma append_assoc (a b c : string) : (a +:+ b) +:+ c = a +:+ (b +:+ c).
Proof.
  induction a as [|x a IH]; [reflexivity|].
  rewrite !append_cons, IH. reflexivity.
Qed.

Lemma last_char_append (a b : string) :
  b <> EmptyString -> last_char (a +:+ b) = last_char b.
Proof.
  intros Hb. induction a as [|c a IH]; [reflexivity|].
  rewrite append_cons. simpl.
  destruct (a +:+ b) eqn:E; [|exact IH].
  destruct a; [|rewrite append_cons in E; discriminate].
  change (EmptyString +:+ b) with b in E. contradiction.
Qed.

Lemma concat_cons' (s : string) (l : list string) :
  String.concat EmptyString (s :: l) = s +:+ String.concat EmptyString l.
Proof.
  destruct l; [|reflexivity]. simpl. symmetry. apply append_nil_r.
Qed.

Lemma output_op_inv (st st' : world) (r : result unit) :
  output_op st = (r, st') ->
  fs st' = fs st /\ io_pos st' = S (io_pos st) /\ io_fault st' = io_fault st
  /\ composited st' = composited st /\ warnings st' = warnings st
  /\ r = if io_fault st (io_pos st) then Raise OSError else Ok tt.
Proof.
  unfold output_op. destruct (io_fault st (io_pos st));
    intros H; inversion H; subst; repeat split.
Qed.

Lemma image_save_inv (r : raster) (path : string) (st st' : world)
    (res : result unit) :
  image_save r path st = (res, st') ->
  io_fault st' = io_fault st
  /\ if io_fault st (io_pos st)
     then res = Raise OSError /\ fs st' = fs st /\ io_pos st' = S (io_pos st)
     else if io_fault st (S (io_pos st))
     then res = Raise OSError
          /\ fs st' = match fs st !! path with
                      | Some _ => <[path := PartialFile]> (fs st)
                      | None => if io_fault st (S (S (io_pos st)))
                                then <[path := PartialFile]> (fs st)
                                else fs st
                      end
     else res = Ok tt /\ fs st' = <[path := ImageFile r]> (fs st)
          /\ io_pos st' = S (S (io_pos st)).
Proof.
  unfold image_save, bind, on_error, remove, output_op, set_fs, ret.
  cbn [rng rng_pos io_fault io_pos fs composited warnings].
  destruct (io_fault st (io_pos st)).
  { intros H; inversion H; subst; repeat split. }
  cbn [rng rng_pos io_fault io_pos fs composited warnings].
  destruct (io_fault st (S (io_pos st))).
  - destruct (fs st !! path) eqn:E;
      cbn [rng rng_pos io_fault io_pos fs composited warnings snd];
      [intros H; inversion H; subst; repeat split|].
    unfold bind. cbn [rng rng_pos io_fault io_pos fs composited warnings snd].
    destruct (io_fault st (S (S (io_pos st))));
      intros H; inversion H; subst;
      cbn [rng rng_pos io_fault io_pos fs composited warnings snd];
      repeat split.
    rewrite delete_insert_eq. apply delete_id. exact E.
  - intros H; inversion H; subst.
    cbn [rng rng_pos io_fault io_pos fs composited warnings].
    repeat split. apply insert_insert_eq.
Qed.

Lemma open_w_inv (path : string) (st st' : world) (res : result unit) :
  open_w path st = (res, st') ->
  if io_fault st (io_pos st)
  then res = Raise OSError /\ fs st' = fs st
  else res = Ok tt /\ fs st' = <[path := TextFile EmptyString]> (fs st)
       /\ io_pos st' = S (io_pos st) /\ io_fault st' = io_fault st.
Proof.
  unfold open_w, bind, output_op.
  destruct (io_fault st (io_pos st)); intros H; inversion H; subst;
    repeat split.
Qed.

Lemma file_write_ok (path s t : string) (st st' : world) :
  file_write path s st = (Ok tt, st') ->
  fs st !! path = Some (TextFile t) ->
  fs st' = <[path := TextFile (t +:+ s)]> (fs st).
Proof.
  unfold file_write, bind, output_op.
  destruct (io_fault st (io_pos st)); intros H Hl; inversion H; subst.
  simpl. rewrite Hl. reflexivity.
Qed.

Lemma file_write_inv (path s t : string) (st st' : world) (res : result unit) :
  file_write path s st = (res, st') ->
  fs st !! path = Some (TextFile t) ->
  io_fault st' = io_fault st /\ io_pos st' = S (io_pos st)
  /\ if io_fault st (io_pos st)
     then res = Raise OSError /\ fs st' = fs st
     else res = Ok tt /\ fs st' = <[path := TextFile (t +:+ s)]> (fs st).
Proof.
  unfold file_write, bind, output_op.
  destruct (io_fault st (io_pos st)); intros H Hl; inversion H; subst;
    repeat split.
  simpl. rewrite Hl. reflexivity.
Qed.

Section Writer.

Variable float_repr : float -> string.

Lemma label_text_cons (b : yolo_bbox) (bs : list yolo_bbox) :
  label_text float_repr (b :: bs)
  = label_line float_repr b +:+ label_text float_repr bs.
Proof. unfold label_text. cbn [map]. apply concat_cons'. Qed.

(** The records are written in order, one output operation each, up to
    the first that fails. *)
Lemma write_lines_outcome (path : string) (bs : list yolo_bbox) :
  forall (t : string) (st st' : world) (res : result unit),
    write_lines float_repr path bs st = (res, st') ->
    fs st !! path = Some (TextFile t) ->
    exists j : nat,
      (j <= length bs)%nat
      /\ fs st'
         = <[path := TextFile (t +:+ label_text float_repr (take j bs))]>
             (fs st)
      /\ (forall i : nat, (i < j)%nat -> io_fault st (io_pos st + i)%nat = false)
      /\ ((res = Ok tt /\ j = length bs)
          \/ (res = Raise OSError /\ (j < length bs)%nat
              /\ io_fault st (io_pos st + j)%nat = true)).
Proof.
  induction bs as [|b bs IH]; intros t st st' res H Hl; cbn [write_lines] in H.
  - inversion H; subst. exists 0%nat. cbn [length take].
    split; [lia|]. split.
    + unfold label_text. cbn. rewrite append_nil_r.
      symmetry. apply insert_id. exact Hl.
    + split; [intros i Hi; lia | left; auto].
  - unfold bind in H.
    destruct (file_write path (label_line float_repr b) st) as [r1 st1] eqn:Hw.
    destruct (file_write_inv _ _ _ _ _ _ Hw Hl) as (Hf & Hp & Hcase).
    destruct (io_fault st (io_pos st)) eqn:F0.
    + destruct Hcase as [-> Hfs]. inversion H; subst.
      exists 0%nat. cbn [length take]. split; [lia|]. split.
      * unfold label_text. cbn. rewrite append_nil_r, Hfs.
        symmetry. apply insert_id. exact Hl.
      * split; [intros i Hi; lia|]. right. split; [reflexivity|].
        split; [lia|]. rewrite Nat.add_0_r. exact F0.
    + destruct Hcase as [-> Hfs].
      assert (Hl1 : fs st1 !! path
                    = Some (TextFile (t +:+ label_line float_repr b)))
        by (rewrite Hfs; apply lookup_insert_eq).
      destruct (IH _ _ _ _ H Hl1) as (j & Hj & Hfs' & Hok & Hres).
      exists (S j). cbn [length take]. split; [lia|]. split.
      * rewrite Hfs', Hfs, insert_insert_eq, label_text_cons, append_assoc.
        reflexivity.
      * split.
        { intros [|i] Hi; [rewrite Nat.add_0_r; exact F0|].
          rewrite <- Hf. specialize (Hok i ltac:(lia)).
          rewrite Hp in Hok. rewrite <- Nat.add_succ_comm. exact Hok. }
        destruct Hres as [[-> ->] | (-> & Hlt & Hfault)].
        { left. auto. }
        right. split; [reflexivity|]. split; [lia|].
        rewrite <- Hf, <- Nat.add_succ_comm. rewrite Hp in Hfault.
        exact Hfault.
Qed.

Lemma write_lines_ok (path : string) (bs : list yolo_bbox) :
  forall (t : string) (st st' : world),
    write_lines float_repr path bs st = (Ok tt, st') ->
    fs st !! path = Some (TextFile t) ->
    fs st' !! path = Some (TextFile (t +:+ label_text float_repr bs))
    /\ forall q, q <> path -> fs st' !! q = fs st !! q.
Proof.
  induction bs as [|b bs IH]; intros t st st' H Hl; simpl in H.
  - apply ret_ok in H as [_ <-]. unfold label_text. simpl.
    rewrite append_nil_r. auto.
  - unbind H as u st1 Hw. destruct u.
    pose proof (file_write_ok _ _ _ _ _ Hw Hl) as Hfs.
    apply (IH (t +:+ label_line float_repr b)) in H.
    + destruct H as [H1 H2]. split.
      * rewrite H1. unfold label_text. cbn [map].
        rewrite concat_cons', append_assoc. reflexivity.
      * intros q Hq. rewrite (H2 q Hq), Hfs. apply lookup_insert_ne. congruence.
    + rewrite Hfs. apply lookup_insert_eq.
Qed.

Lemma image_label_distinct (split split' : string) (c c' : Z) :
  image_file split c <> label_file split' c'.
Proof. unfold image_file, label_file, path_join, output_path. discriminate. Qed.

Lemma random_inv (st st' : world) (r : result float) :
  random st = (r, st') ->
  (exists x : float, r = Ok x)
  /\ fs st' = fs st /\ io_pos st' = io_pos st /\ io_fault st' = io_fault st.
Proof.
  unfold random, bind, draw, ret. intros H. inversion H; subst.
  split; [eexists; reflexivity | repeat split].
Qed.

(** What [save_scene] leaves behind, by the first output operation that
    fails: the image file is opened and encoded first, then the label file
    is opened, then the records are written in order. *)
Lemma save_scene_outcome (c : Z) (bg : raster)
    (l : list (placement * yolo_bbox)) (st st' : world) (res : result bool) :
  save_scene float_repr c bg l st = (res, st') -> l <> [] ->
  exists (rnd : float) (st1 : world),
    random st = (Ok rnd, st1)
    /\ let split := if Float.ltb rnd f_0_9 then "train"%string
                    else "val"%string in
       let img := image_file split c in
       let lab := label_file split c in
       let n := io_pos st in
       if io_fault st n then res = Raise OSError /\ fs st' = fs st
       else if io_fault st (S n)
       then res = Raise OSError
            /\ fs st' = match fs st !! img with
                        | Some _ => <[img := PartialFile]> (fs st)
                        | None => if io_fault st (S (S n))
                                  then <[img := PartialFile]> (fs st)
                                  else fs st
                        end
       else if io_fault st (S (S n))
       then res = Raise OSError /\ fs st' = <[img := ImageFile bg]> (fs st)
       else exists j : nat,
              (j <= length l)%nat
              /\ fs st'
                 = <[lab := TextFile (label_text float_repr
                                        (take j (map snd l)))]>
                     (<[img := ImageFile bg]> (fs st))
              /\ (forall i : nat,
                     (i < j)%nat -> io_fault st (n + 3 + i)%nat = false)
              /\ ((res = Ok true /\ j = length l)
                  \/ (res = Raise OSError /\ (j < length l)%nat
                      /\ io_fault st (n + 3 + j)%nat = true)).
Proof.
  intros H Hne. unfold save_scene in H.
  destruct l as [|x l0] eqn:El; [contradiction|]. rewrite <- El in *.
  clear Hne El x l0.
  unfold bind at 1 in H.
  destruct (random st) as [r0 st1] eqn:Hr.
  destruct (random_inv _ _ _ Hr) as ([rnd ->] & Hfs1 & Hp1 & Hf1).
  exists rnd, st1. split; [reflexivity|]. cbv zeta.
  set (split := if Float.ltb rnd f_0_9 then "train"%string else "val"%string)
    in *.
  unfold bind at 1 in H.
  destruct (image_save bg (image_file split c) st1) as [r1 st2] eqn:Himg.
  destruct (image_save_inv _ _ _ _ _ Himg) as (Hf2 & Hcase).
  rewrite Hf1, Hp1, Hfs1 in Hcase. rewrite Hf1 in Hf2.
  destruct (io_fault st (io_pos st)).
  { destruct Hcase as (-> & Hfs2 & _). inversion H; subst. auto. }
  destruct (io_fault st (S (io_pos st))).
  { destruct Hcase as (-> & Hfs2). inversion H; subst. auto. }
  destruct Hcase as (-> & Hfs2 & Hp2).
  unfold bind at 1 in H.
  destruct (open_w (label_file split c) st2) as [r2 st3] eqn:Hopen.
  apply open_w_inv in Hopen. rewrite Hf2, Hp2 in Hopen.
  destruct (io_fault st (S (S (io_pos st)))).
  { destruct Hopen as [-> Hfs3]. inversion H; subst. split; congruence. }
  destruct Hopen as (-> & Hfs3 & Hp3 & Hf3).
  unfold bind at 1 in H.
  destruct (write_lines float_repr (label_file split c) (map snd l) st3)
    as [r3 st4] eqn:Hwr.
  destruct (write_lines_outcome _ _ EmptyString _ _ _ Hwr
              ltac:(rewrite Hfs3; apply lookup_insert_eq))
    as (j & Hj & Hfs4 & Hok & Hres).
  rewrite length_map in Hj, Hres.
  rewrite Hf3, Hp3 in Hok, Hres.
  assert (Hst : st' = st4) by (destruct r3; inversion H; reflexivity).
  subst st'.
  exists j. split; [exact Hj|]. split.
  { rewrite Hfs4, Hfs3, Hfs2, insert_insert_eq. reflexivity. }
  split.
  { intros i Hi. specialize (Hok i Hi).
    replace (io_pos st + 3 + i)%nat with (S (S (S (io_pos st))) + i)%nat
      by lia. exact Hok. }
  destruct Hres as [[-> ->] | (-> & Hlt & Hfault)].
  - left. inversion H; subst. auto.
  - right. inversion H; subst. split; [reflexivity|]. split; [exact Hlt|].
    replace (io_pos st + 3 + j)%nat with (S (S (S (io_pos st))) + j)%nat
      by lia. exact Hfault.
Qed.

(** A saved scene: both files are there, complete. *)
Lemma save_scene_saved (c : Z) (bg : raster) (l : list (placement * yolo_bbox))
    (st st' : world) :
  save_scene float_repr c bg l st = (Ok true, st') ->
  l <> []
  /\ exists split : string,
       (split = "train" \/ split = "val")%string
       /\ fs st' !! image_file split c = Some (ImageFile bg)
       /\ fs st' !! label_file split c
          = Some (TextFile (label_text float_repr (map snd l))).
Proof.
  intros H.
  assert (Hne : l <> []).
  { destruct l; [|discriminate]. inversion H. }
  split; [exact Hne|].
  destruct (save_scene_outcome _ _ _ _ _ _ H Hne) as (rnd & st1 & _ & Hcase).
  cbv zeta in Hcase.
  set (split := if Float.ltb rnd f_0_9 then "train"%string else "val"%string)
    in *.
  destruct (io_fault st (io_pos st)); [destruct Hcase; discriminate|].
  destruct (io_fault st (S (io_pos st))); [destruct Hcase; discriminate|].
  destruct (io_fault st (S (S (io_pos st)))); [destruct Hcase; discriminate|].
  destruct Hcase as (j & Hj & Hfs & _ & [[_ ->] | (Hr & _)]);
    [|discriminate].
  rewrite firstn_all2 in Hfs by (rewrite length_map; lia).
  exists split. split; [unfold split; destruct (Float.ltb rnd f_0_9); auto|].
  rewrite Hfs. split.
  - rewrite lookup_insert_ne by (apply not_eq_sym, image_label_distinct).
    apply lookup_insert_eq.
  - apply lookup_insert_eq.
Qed.

Lemma save_scene_skipped (c : Z) (bg : raster)
    (l : list (placement * yolo_bbox)) (st st' : world) :
  save_scene float_repr c bg l st = (Ok false, st') -> l = [] /\ st' = st.
Proof.
  unfold save_scene. destruct l as [|x l].
  - intros H. apply ret_ok in H as [_ <-]. auto.
  - intros H. unbind H as r st1 Hr. unbind H as u1 st2 Himg.
    unbind H as u2 st3 Hopen. unbind H as u3 st4 Hwr.
    apply ret_ok in H as [H _]. discriminate.
Qed.

End Writer.

(** * The normalised boxes *)

Lemma float_div_int_eq (x : float) (n : Z) (st : world) :
  0 < n < 2 ^ 53 ->
  float_div_int x n st = (Ok (Float.div x (Float.of_int n)), st).
Proof.
  intros Hn. unfold float_div_int.
  destruct (Z.eqb_spec n 0); [lia|].
  destruct (float_of_int_exact n st Hn) as (m & a & Hf & Hof & _).
  rewrite (bind_step _ _ _ _ _ Hf), Hof. reflexivity.
Qed.

Lemma int_truediv_eq (a b : Z) (st : world) :
  0 < a < 2 ^ 53 -> 0 < b < 2 ^ 53 ->
  int_truediv a b st
  = (Ok (Float.div (Float.of_int a) (Float.of_int b)), st).
Proof.
  intros Ha Hb. unfold int_truediv.
  destruct (Z.eqb_spec b 0); [lia|].
  rewrite (DivFacts.div_exact_int a b Ha Hb).
  destruct (FloatFacts.of_int_exact a Ha) as (m & al & -> & Hal & _ & Hm).
  destruct (FloatFacts.of_int_exact b Hb) as (m' & be & -> & Hbe & _ & Hm').
  destruct (DivFacts.div_spec m m' (- al) (- be) Hm Hm' ltac:(lia))
    as (mq & k & -> & _).
  reflexivity.
Qed.

(** The centre [(lo + hi) / 2.0 / side] of an interval inside the image. *)
Lemma centre_normalised (lo hi side : Z) (st : world) :
  0 <= lo -> lo < hi -> hi <= side -> side < 2 ^ 31 ->
  exists s c : float,
    float_of_int (lo + hi) st = (Ok s, st)
    /\ float_div_int (Float.div s f_2_0) side st = (Ok c, st)
    /\ in_unit_interval c = true
    /\ within_rounding c (lo + hi) (2 * side).
Proof.
  intros Hlo Hlt Hhi Hside.
  assert (H31 : 2 ^ 31 = 2147483648) by reflexivity.
  assert (H53 : 2 ^ 53 = 9007199254740992) by reflexivity.
  destruct (float_of_int_exact (lo + hi) st ltac:(lia))
    as (ms & al & Hf & Hof & Hal & Ems & Hms).
  destruct (DivFacts.quotient_unit (lo + hi) side 1 ms al)
    as (m & K & Hdiv & Hunit & Hw); try assumption; try lia.
  exists (S754_finite false ms (- al)), (S754_finite false m K).
  split; [exact Hf|].
  change f_2_0 with (S754_finite false 4503599627370496 (-51)).
  rewrite (DivFacts.div_by_two ms (- al) Hms ltac:(lia)).
  rewrite float_div_int_eq by lia. rewrite Hdiv. auto.
Qed.

(** The extent [(hi - lo) / side] of an interval inside the image. *)
Lemma extent_normalised (lo hi side : Z) (st : world) :
  0 <= lo -> lo < hi -> hi <= side -> side < 2 ^ 31 ->
  exists c : float,
    int_truediv (hi - lo) side st = (Ok c, st)
    /\ in_unit_interval c = true
    /\ within_rounding c (hi - lo) side.
Proof.
  intros Hlo Hlt Hhi Hside.
  assert (H31 : 2 ^ 31 = 2147483648) by reflexivity.
  assert (H53 : 2 ^ 53 = 9007199254740992) by reflexivity.
  rewrite int_truediv_eq by lia.
  destruct (FloatFacts.of_int_exact (hi - lo) ltac:(lia))
    as (ms & al & Hof & Hal & Ems & Hms).
  rewrite Hof.
  destruct (DivFacts.quotient_unit (hi - lo) side 0 ms al)
    as (m & K & Hdiv & Hunit & Hw); try assumption; try lia.
  replace (- al - 0) with (- al) in Hdiv by lia.
  exists (S754_finite false m K). rewrite Hdiv.
  change (2 ^ 0 * side) with (1 * side) in Hw. rewrite Z.mul_1_l in Hw. auto.
Qed.

Lemma convert_to_yolo_ok (p : placement) (bg_w bg_h : Z) (st : world) :
  bg_w < 2 ^ 31 -> bg_h < 2 ^ 31 ->
  placement_in_bounds bg_w bg_h p ->
  1 <= rendered_w p -> 1 <= rendered_h p ->
  exists xc yc w h : float,
    convert_to_yolo (box_of p) (bg_w, bg_h) st = (Ok (xc, yc, w, h), st)
    /\ in_unit_interval xc = true /\ in_unit_interval yc = true
    /\ in_unit_interval w = true /\ in_unit_interval h = true
    /\ within_rounding xc (paste_x p + (paste_x p + rendered_w p)) (2 * bg_w)
    /\ within_rounding yc (paste_y p + (paste_y p + rendered_h p)) (2 * bg_h)
    /\ within_rounding w (paste_x p + rendered_w p - paste_x p) bg_w
    /\ within_rounding h (paste_y p + rendered_h p - paste_y p) bg_h.
Proof.
  intros Hbw Hbh (Hx0 & Hx1 & Hy0 & Hy1) Hrw Hrh.
  destruct p as [px py rw rh]. cbn [paste_x paste_y rendered_w rendered_h] in *.
  unfold box_of, convert_to_yolo.
  cbn [paste_x paste_y rendered_w rendered_h].
  destruct (centre_normalised px (px + rw) bg_w st)
    as (sx & xc & Hsx & Hxc & Uxc & Wxc); try lia.
  destruct (centre_normalised py (py + rh) bg_h st)
    as (sy & yc & Hsy & Hyc & Uyc & Wyc); try lia.
  destruct (extent_normalised px (px + rw) bg_w st)
    as (w & Hw & Uw & Ww); try lia.
  destruct (extent_normalised py (py + rh) bg_h st)
    as (h & Hh & Uh & Wh); try lia.
  exists xc, yc, w, h.
  rewrite (bind_step _ _ _ _ _ Hsx), (bind_step _ _ _ _ _ Hsy).
  rewrite (bind_step _ _ _ _ _ Hxc), (bind_step _ _ _ _ _ Hw).
  rewrite (bind_step _ _ _ _ _ Hyc), (bind_step _ _ _ _ _ Hh).
  repeat split; assumption.
Qed.

(** Decoding undoes the exact normalisation. *)
Lemma decode_encode_exact (b : Q4) (W H : Q) :
  (~ W == 0)%Q -> (~ H == 0)%Q ->
  Qeq4 (decode_exact (encode_exact b W H) W H) b.
Proof.
  intros HW HH. destruct b as [[[b0 b1] b2] b3].
  unfold decode_exact, encode_exact, Qeq4.
  repeat split; field; assumption.
Qed.

Lemma encode_exact_proper (a b : Q4) (W H : Q) :
  Qeq4 a b -> Qeq4 (encode_exact a W H) (encode_exact b W H).
Proof.
  destruct a as [[[a0 a1] a2] a3]. destruct b as [[[b0 b1] b2] b3].
  unfold Qeq4, encode_exact. intros (E0 & E1 & E2 & E3).
  rewrite E0, E1, E2, E3. repeat split; reflexivity.
Qed.

Lemma inject_Z_nonzero (z : Z) : 0 < z -> (~ inject_Z z == 0)%Q.
Proof.
  intros Hz E. unfold Qeq, inject_Z in E. simpl in E. lia.
Qed.

Lemma annotation_ok_intro (p : placement) (bg_w bg_h : Z) (st st' : world)
    (y : yolo_bbox) :
  bg_w < 2 ^ 31 -> bg_h < 2 ^ 31 ->
  placement_in_bounds bg_w bg_h p ->
  1 <= rendered_w p -> 1 <= rendered_h p ->
  convert_to_yolo (box_of p) (bg_w, bg_h) st = (Ok y, st') ->
  annotation_ok bg_w bg_h p y.
Proof.
  intros Hbw Hbh Hb Hrw Hrh H.
  destruct (convert_to_yolo_ok p bg_w bg_h st Hbw Hbh Hb Hrw Hrh)
    as (xc & yc & w & h & E & Uxc & Uyc & Uw & Uh & Wxc & Wyc & Ww & Wh).
  rewrite E in H. inversion H; subst; clear H.
  destruct Hb as (Hx0 & Hx1 & Hy0 & Hy1).
  assert (PW : 0 < bg_w) by lia. assert (PH : 0 < bg_h) by lia.
  pose proof (inject_Z_nonzero bg_w PW) as NW.
  pose proof (inject_Z_nonzero bg_h PH) as NH.
  unfold annotation_ok.
  destruct p as [px py rw rh]. unfold box_of, box_Q in *.
  cbn [paste_x paste_y rendered_w rendered_h] in *.
  split; [exact Uxc|]. split; [exact Uyc|].
  split; [exact Uw|]. split; [exact Uh|].
  split.
  { exists (px + (px + rw)), (2 * bg_w). split; [lia|]. split; [|exact Wxc].
    cbn [encode_exact fst snd].
    rewrite !inject_Z_plus, inject_Z_mult. change (inject_Z 2) with 2%Q.
    field. exact NW. }
  split.
  { exists (py + (py + rh)), (2 * bg_h). split; [lia|]. split; [|exact Wyc].
    cbn [encode_exact fst snd].
    rewrite !inject_Z_plus, inject_Z_mult. change (inject_Z 2) with 2%Q.
    field. exact NH. }
  split.
  { exists (px + rw - px), bg_w. split; [lia|]. split; [|exact Ww].
    cbn [encode_exact fst snd].
    unfold Z.sub. rewrite !inject_Z_plus, inject_Z_opp. reflexivity. }
  split.
  { exists (py + rh - py), bg_h. split; [lia|]. split; [|exact Wh].
    cbn [encode_exact fst snd].
    unfold Z.sub. rewrite !inject_Z_plus, inject_Z_opp. reflexivity. }
  split.
  - apply decode_encode_exact; assumption.
  - apply encode_exact_proper. apply decode_encode_exact; assumption.
Qed.

(** * The properties of the specification *)

Section Claims.

Variable rotated_size : float -> Z * Z -> Z * Z.
Variable float_repr : float -> string.
Variable d : disk.

(** C1.  Every placement accepted while a scene is assembled lies inside
    the background: on a background of positive width and height,
    [0 <= paste_x], [paste_x + rendered_width <= background_width], and
    likewise for [y]. *)
Theorem C1_accepted_placements_in_bounds
    (st st' : world) (bg : raster) (l : list (placement * yolo_bbox))
    (bg_w bg_h : Z) :
  assemble_scene rotated_size d st = (Ok (bg, l), st') ->
  size rotated_size bg = (bg_w, bg_h) ->
  0 < bg_w -> 0 < bg_h ->
  Forall (fun py => placement_in_bounds bg_w bg_h (fst py)) l.
Proof.
  intros H Hsize _ _. unfold assemble_scene in H.
  unbind H as bgf st1 Hbgf. unbind H as bg0 st2 Hopen.
  unbind H as n st3 Hn.
  apply place_logos_in_bounds in H; [|constructor].
  destruct H as [Hl Hs]. rewrite Hsize in Hs. rewrite <- Hs in Hl.
  exact Hl.
Qed.

(** C5.  However long the run, no composite is built from a forbidden
    (shield, letter) pair: when the drawn pair is forbidden the turn ends
    before any compositing and the loop goes on with its next turn. *)
Theorem C5_forbidden_pairs_never_composited
    (fuel : nat) (num_images : Z) (st : world) :
  (composited st = [] ->
   Forall admissible
     (composited (snd (main rotated_size float_repr d fuel num_images st))))
  /\ forall (bg : raster) (bg_w bg_h : Z) (s l : string) (st1 st2 : world),
       choice (shield_files d) st = (Ok s, st1) ->
       choice (letter_files d) st1 = (Ok l, st2) ->
       forbidden (basename s) (basename l) = true ->
       logo_attempt rotated_size d bg bg_w bg_h st = (Ok None, st2)
       /\ composited st2 = composited st
       /\ forall (n : nat) (acc : list (placement * yolo_bbox)),
            place_logos rotated_size d (S n) bg_w bg_h bg acc st
            = place_logos rotated_size d n bg_w bg_h bg acc st2.
Proof.
  split.
  - intros Hempty.
    assert (H : log_grows st
                  (snd (main rotated_size float_repr d fuel num_images st))).
    { unfold main. destruct (_ || _); [apply log_grows_refl|].
      apply main_loop_keeps.
      - apply log_grows_refl.
      - apply log_grows_trans.
      - intros w. apply log_grows_same. reflexivity.
      - intros s l Hadm w. exists [(s, l)]. split; [reflexivity|].
        constructor; [exact Hadm | constructor].
      - intros w. apply log_grows_same. unfold output_op.
        destruct (io_fault w (io_pos w)); reflexivity.
      - intros f w. apply log_grows_same. reflexivity.
      - intros e w. apply log_grows_same. reflexivity. }
    destruct H as (new & E & Hnew). rewrite E, Hempty, app_nil_r. exact Hnew.
  - intros bg bg_w bg_h s l st1 st2 Hs Hl Hf.
    assert (Hatt : logo_attempt rotated_size d bg bg_w bg_h st = (Ok None, st2)).
    { unfold logo_attempt.
      rewrite (bind_step _ _ _ _ _ Hs), (bind_step _ _ _ _ _ Hl), Hf.
      reflexivity. }
    split; [exact Hatt|]. split.
    + assert (Hd : forall (A : Type) (xs : list A) (w w' : world) (x : A),
                 choice xs w = (Ok x, w') -> composited w' = composited w).
      { intros A xs w w' x Hc. unfold choice in Hc. destruct xs; [discriminate|].
        unbind Hc as r w1 Hr. unfold draw in Hr. inversion Hr; subst.
        unfold lift_option in Hc. destruct (nth_error _ _); [|discriminate].
        apply ret_ok in Hc as [_ <-]. reflexivity. }
      rewrite (Hd _ _ _ _ _ Hl), (Hd _ _ _ _ _ Hs). reflexivity.
    + intros n acc. simpl. rewrite (bind_step _ _ _ _ _ Hatt). reflexivity.
Qed.

(** C6.  No scene is written with zero annotation records: when a scene
    accepts no placement, neither file is written, [generated_count] stays
    and the loop goes on to another scene; and whenever a scene attempt
    changes the output tree, at least one placement was accepted. *)
Theorem C6_empty_scene_not_written (c : Z) (st : world) :
  (forall (bg : raster) (st1 : world),
     assemble_scene rotated_size d st = (Ok (bg, []), st1) ->
     scene_attempt rotated_size float_repr d c st = (Skipped, c, st1)
     /\ fs st1 = fs st
     /\ forall (fuel : nat) (num_images : Z),
          c < num_images ->
          main_loop rotated_size float_repr d (S fuel) num_images c st
          = main_loop rotated_size float_repr d fuel num_images c st1)
  /\ (fs (snd (scene_attempt rotated_size float_repr d c st)) <> fs st ->
      exists bg l st1,
        assemble_scene rotated_size d st = (Ok (bg, l), st1) /\ l <> []).
Proof.
  assert (Hskip : forall bg st1,
             assemble_scene rotated_size d st = (Ok (bg, []), st1) ->
             scene_attempt rotated_size float_repr d c st = (Skipped, c, st1)).
  { intros bg st1 H. unfold scene_attempt, scene_body.
    rewrite (bind_step _ _ _ _ _ H). reflexivity. }
  pose proof (assemble_scene_same_output rotated_size d st) as Hsame.
  split.
  - intros bg st1 H. split; [apply (Hskip bg st1 H)|].
    rewrite H in Hsame. destruct Hsame as (Hfs & _). split; [exact Hfs|].
    intros fuel num_images Hc. cbn [main_loop].
    destruct (Z.ltb_spec c num_images); [|lia].
    rewrite (Hskip bg st1 H). reflexivity.
  - intros Hchanged.
    destruct (assemble_scene rotated_size d st) as [[[bg l]|e] st1] eqn:E.
    + destruct l as [|x l].
      * exfalso. apply Hchanged. rewrite (Hskip bg st1 eq_refl).
        destruct Hsame as (Hfs & _). exact Hfs.
      * exists bg, (x :: l), st1. split; [reflexivity | discriminate].
    + exfalso. apply Hchanged. unfold scene_attempt, scene_body.
      rewrite (bind_raise _ _ _ _ _ E). destruct Hsame as (Hfs & _). exact Hfs.
Qed.

(** C4, as the script has it.  The image file is written first and the
    label file after it, and nothing is cleaned up.  A scene is counted
    only when the image of the assembled scene and its complete label
    file, one record for each placement in order, were both written; a
    scene that is not saved is not counted.  For an assembled scene with
    a logo, by the first output operation that fails: when the image file
    cannot be opened the tree is left as it was; when the encoding of the
    image fails no label is written, and the image file is left partly
    written if it was there before or if its removal, the next output
    operation, is refused, and is absent otherwise; when the label file
    cannot be opened the image stays without its label; when a record
    cannot be written the image stays with a label file that holds the
    records written before it. *)
Theorem C4_scene_counted_only_when_complete
    (c c' : Z) (st st' : world) (o : outcome) :
  scene_attempt rotated_size float_repr d c st = (o, c', st') ->
  (o = Saved ->
   c' = c + 1
   /\ exists (split : string) (st1 : world) (bg : raster)
             (l : list (placement * yolo_bbox)),
        assemble_scene rotated_size d st = (Ok (bg, l), st1)
        /\ l <> [] /\ is_split split
        /\ fs st' !! image_file split c = Some (ImageFile bg)
        /\ fs st' !! label_file split c
           = Some (TextFile (label_text float_repr (map snd l))))
  /\ (o <> Saved -> c' = c)
  /\ (forall (bg : raster) (l : list (placement * yolo_bbox)) (st1 : world),
        assemble_scene rotated_size d st = (Ok (bg, l), st1) -> l <> [] ->
        exists (rnd : float) (st2 : world),
          random st1 = (Ok rnd, st2)
          /\ let split := if Float.ltb rnd f_0_9 then "train"%string
                          else "val"%string in
             let img := image_file split c in
             let lab := label_file split c in
             let n := io_pos st in
             (io_fault st n = true -> o <> Saved /\ fs st' = fs st)
             /\ (io_fault st n = false -> io_fault st (S n) = true ->
                 o <> Saved
                 /\ fs st' = match fs st !! img with
                             | Some _ => <[img := PartialFile]> (fs st)
                             | None => if io_fault st (S (S n))
                                       then <[img := PartialFile]> (fs st)
                                       else fs st
                             end)
             /\ (io_fault st n = false -> io_fault st (S n) = false ->
                 io_fault st (S (S n)) = true ->
                 o <> Saved /\ fs st' = <[img := ImageFile bg]> (fs st))
             /\ (io_fault st n = false -> io_fault st (S n) = false ->
                 io_fault st (S (S n)) = false ->
                 exists j : nat,
                   (j <= length l)%nat
                   /\ fs st'
                      = <[lab := TextFile (label_text float_repr
                                             (take j (map snd l)))]>
                          (<[img := ImageFile bg]> (fs st))
                   /\ (forall i : nat,
                         (i < j)%nat -> io_fault st (n + 3 + i)%nat = false)
                   /\ (o = Saved <-> j = length l)
                   /\ (o <> Saved ->
                       io_fault st (n + 3 + j)%nat = true))).
Proof.
  intros H. unfold scene_attempt in H.
  pose proof (assemble_scene_same_output rotated_size d st) as Hsame.
  unfold scene_body, bind in H.
  destruct (assemble_scene rotated_size d st) as [[[bg l]|e0] st1] eqn:Hasm.
  2:{ (* no scene was assembled *)
    inversion H; subst; clear H.
    split; [discriminate|]. split; [reflexivity|].
    intros bg l st2 E. discriminate. }
  destruct Hsame as (Hfs & Hpos & Hfault & _). simpl in Hfs, Hpos, Hfault.
  cbn [fst snd] in H.
  destruct (save_scene float_repr c bg l st1) as [res st2] eqn:Hsave.
  destruct l as [|x l0] eqn:El.
  { (* no logo was placed *)
    unfold save_scene, ret in Hsave. inversion Hsave; subst res st2.
    inversion H; subst; clear H.
    split; [discriminate|]. split; [reflexivity|].
    intros bg' l' st2 E Hne. inversion E; subst. contradiction. }
  rewrite <- El in *.
  assert (Hne : l <> []) by (rewrite El; discriminate).
  clear El x l0.
  destruct (save_scene_outcome float_repr _ _ _ _ _ _ Hsave Hne)
    as (rnd & st3 & Hrnd & Hcase).
  cbv zeta in Hcase. rewrite Hfault, Hpos, Hfs in Hcase.
  set (split := if Float.ltb rnd f_0_9 then "train"%string else "val"%string)
    in *.
  assert (Hsplit : is_split split).
  { unfold is_split, split. destruct (Float.ltb rnd f_0_9); auto. }
  assert (Hst' : fs st' = fs st2).
  { destruct res as [[|]|e]; inversion H; reflexivity. }
  assert (Ho : o = Saved <-> res = Ok true).
  { destruct res as [[|]|e]; inversion H; split; intros; congruence. }
  assert (Hc : (o = Saved -> c' = c + 1) /\ (o <> Saved -> c' = c)).
  { destruct res as [[|]|e]; inversion H; split; intros; congruence. }
  destruct Hc as [Hc1 Hc2]. rewrite Hst'. clear H Hst'.
  split; [|split; [exact Hc2|]].
  - (* saved *)
    intros Hs. split; [exact (Hc1 Hs)|]. apply Ho in Hs. subst res.
    exists split, st1, bg, l. split; [reflexivity|]. split; [exact Hne|].
    split; [exact Hsplit|].
    destruct (io_fault st (io_pos st)); [destruct Hcase; discriminate|].
    destruct (io_fault st (S (io_pos st))); [destruct Hcase; discriminate|].
    destruct (io_fault st (S (S (io_pos st))));
      [destruct Hcase; discriminate|].
    destruct Hcase as (j & Hj & Hfs2 & _ & [[_ ->] | (Hr & _)]);
      [|discriminate].
    rewrite firstn_all2 in Hfs2 by (rewrite length_map; lia).
    rewrite Hfs2. split.
    + rewrite lookup_insert_ne by (apply not_eq_sym, image_label_distinct).
      apply lookup_insert_eq.
    + apply lookup_insert_eq.
  - (* by the first failing operation *)
    intros bg' l' st1' E _. inversion E; subst bg' l' st1'; clear E.
    exists rnd, st3. split; [exact Hrnd|]. cbv zeta. fold split.
    assert (Hraise : res = Raise OSError -> o <> Saved).
    { intros -> Hs. apply Ho in Hs. discriminate. }
    split; [|split; [|split]].
    + intros F0. rewrite F0 in Hcase. destruct Hcase as [Hr Hf2]. auto.
    + intros F0 F1. rewrite F0, F1 in Hcase. destruct Hcase as [Hr Hf2].
      auto.
    + intros F0 F1 F2. rewrite F0, F1, F2 in Hcase.
      destruct Hcase as [Hr Hf2]. auto.
    + intros F0 F1 F2. rewrite F0, F1, F2 in Hcase.
      destruct Hcase as (j & Hj & Hfs2 & Hok & Hres).
      exists j. split; [exact Hj|]. split; [exact Hfs2|].
      split; [exact Hok|].
      destruct Hres as [[-> ->] | (-> & Hlt & Hfj)].
      * split; [split; intros _; [reflexivity | apply Ho; reflexivity]|].
        intros Hn. exfalso. apply Hn, Ho. reflexivity.
      * split; [|intros _; exact Hfj].
        split; [intros Hs; apply Ho in Hs; discriminate | intros Ej; lia].
Qed.

(** C3, as the script has it.  One text is written per annotation record,
    in order, each of the form [0 x y w h] followed by a backslash and
    the letter n: the last character of a line is the letter n, and the
    label file of a saved scene is the concatenation of those texts. *)
Theorem C3_label_lines_end_in_backslash_n (b : yolo_bbox) :
  (exists x y w h : string,
     label_line float_repr b
     = "0 " +:+ x +:+ " " +:+ y +:+ " " +:+ w +:+ " " +:+ h
            +:+ String "\" (String "n" EmptyString))
  /\ last_char (label_line float_repr b) = Some "n"%char
  /\ last_char (label_line float_repr b) <> last_char newline.
Proof.
  destruct b as [[[x y] w] h]. unfold label_line.
  assert (L : last_char
                ("0 " +:+ float_repr x +:+ " " +:+ float_repr y +:+ " "
                      +:+ float_repr w +:+ " " +:+ float_repr h +:+ "\n")
              = Some "n"%char).
  { rewrite <- !append_assoc. rewrite last_char_append by discriminate.
    reflexivity. }
  split; [|split].
  - exists (float_repr x), (float_repr y), (float_repr w), (float_repr h).
    reflexivity.
  - exact L.
  - rewrite L. discriminate.
Qed.

(** C2, as the script has it.  For a shield with sides of at least two
    pixels, the letter is resized to a square whose side is
    [int(0.7 * min(shield_width, shield_height))], the truncated binary64
    product, which lies between [0.7 * min - 1] and [0.7 * min], whatever
    the aspect ratio of the letter; it is then pasted centred, at the
    floor of half the difference of the sides. *)
Theorem C2_letter_resized_to_square
    (shield letter : raster) (sw sh : Z) (st : world) :
  size rotated_size shield = (sw, sh) ->
  2 <= sw < 2 ^ 31 -> 2 <= sh < 2 ^ 31 ->
  exists (n : Z) (letter' : raster),
    create_composite_logo rotated_size shield letter st
    = (Ok (Pasted (Pasted (Blank sw sh) shield 0 0) letter'
                  ((sw - n) / 2) ((sh - n) / 2)), st)
    /\ int_scaled (Z.min sw sh) f_0_7 st = (Ok n, st)
    /\ size rotated_size letter' = (n, n)
    /\ (letter' = letter \/ letter' = Resized letter n n)
    /\ 7 * Z.min sw sh - 10 <= 10 * n <= 7 * Z.min sw sh.
Proof.
  intros Hsize Hsw Hsh.
  destruct (create_composite_logo_ok rotated_size shield letter sw sh st
              Hsize Hsw Hsh) as (n & letter' & H1 & H2 & H3 & H4 & _ & H5).
  exists n, letter'. auto.
Qed.

(** C8, as the script has it.  For a shield with sides of at least two
    pixels and any letter, larger than the shield or not, the compositor
    raises nothing and returns a composite of exactly the shield's width
    and height. *)
Theorem C8_composite_has_shield_size
    (shield letter : raster) (sw sh : Z) (st : world) :
  size rotated_size shield = (sw, sh) ->
  2 <= sw < 2 ^ 31 -> 2 <= sh < 2 ^ 31 ->
  exists composite : raster,
    create_composite_logo rotated_size shield letter st = (Ok composite, st)
    /\ size rotated_size composite = (sw, sh).
Proof.
  intros Hsize Hsw Hsh.
  destruct (create_composite_logo_ok rotated_size shield letter sw sh st
              Hsize Hsw Hsh) as (n & letter' & H1 & _).
  eexists. split; [exact H1 | reflexivity].
Qed.

(** C9, as the script has it.  Each destination corner of the warp is its
    source corner moved inward only: the left and top coordinates by an
    integer of [0..J], the right and bottom coordinates by an integer of
    [1..J], where [J] is [int(0.15 * width)] for x and
    [int(0.15 * height)] for y, at most 15% of the side.  Each of the
    eight offsets is one [randint] draw of its own, and every such vector
    of offsets is the outcome of some draws. *)
Theorem C9_corners_jittered_inward (w h : Z) :
  side_ok w -> side_ok h ->
  (forall (st st' : world) (pts : list (Z * Z)),
     jitter_corners w h st = (Ok pts, st') ->
     exists jw jh x0 y0 x1 y1 x2 y2 x3 y3 : Z,
       int_scaled w f_0_15 st = (Ok jw, st)
       /\ int_scaled h f_0_15 st = (Ok jh, st)
       /\ 20 * jw <= 3 * w /\ 20 * jh <= 3 * h
       /\ pts = [(x0, y0); (w - x1, y1); (w - x2, h - y2); (x3, h - y3)]
       /\ 0 <= x0 <= jw /\ 0 <= y0 <= jh
       /\ 1 <= x1 <= jw /\ 0 <= y1 <= jh
       /\ 1 <= x2 <= jw /\ 1 <= y2 <= jh
       /\ 0 <= x3 <= jw /\ 1 <= y3 <= jh)
  /\ (forall (st0 : world) (jw jh x0 y0 x1 y1 x2 y2 x3 y3 : Z),
        int_scaled w f_0_15 st0 = (Ok jw, st0) ->
        int_scaled h f_0_15 st0 = (Ok jh, st0) ->
        0 <= x0 <= jw -> 0 <= y0 <= jh -> 1 <= x1 <= jw -> 0 <= y1 <= jh ->
        1 <= x2 <= jw -> 1 <= y2 <= jh -> 0 <= x3 <= jw -> 1 <= y3 <= jh ->
        exists st st' : world,
          jitter_corners w h st
          = (Ok [(x0, y0); (w - x1, y1); (w - x2, h - y2); (x3, h - y3)], st')).
Proof.
  intros Hw Hh. split.
  - intros st st' pts H. apply (jitter_corners_inv w h st st' pts Hw Hh H).
  - intros st0 jw jh x0 y0 x1 y1 x2 y2 x3 y3 Hjw Hjh ? ? ? ? ? ? ? ?.
    eexists.
    apply (jitter_corners_reach w h jw jh x0 y0 x1 y1 x2 y2 x3 y3);
      try assumption.
    + intros st. apply (int_scaled_any_world _ _ _ st0). exact Hjw.
    + intros st. apply (int_scaled_any_world _ _ _ st0). exact Hjh.
Qed.

(** C10.  A composite with a side of at most 6 pixels makes
    [apply_augmentations] raise, its jitter amplitude being 0 and
    [randint(1, 0)] an empty range, and the scene that built it from an
    admissible pair is abandoned by the handler of the loop, uncounted and
    unwritten; for a composite with both sides of at least 7 pixels every
    jitter draw has a non-empty range and the transformer returns. *)
Theorem C10_small_composites_abandon_the_scene :
  (forall (logo : raster) (w h : Z) (st : world),
     size rotated_size logo = (w, h) -> side_ok w -> side_ok h ->
     w <= 6 \/ h <= 6 ->
     (exists st',
        apply_augmentations rotated_size logo st = (Raise ValueError, st'))
     /\ (int_scaled w f_0_15 st = (Ok 0, st)
         \/ int_scaled h f_0_15 st = (Ok 0, st))
     /\ randint 1 0 st = (Raise ValueError, st))
  /\ (forall (c : Z) (st0 sta stb stc std : world) (b s l : string)
             (bw bh n w h : Z),
        choice (background_files d) st0 = (Ok b, sta) ->
        decoded d !! b = Some (bw, bh) ->
        randint 1 3 sta = (Ok n, stb) ->
        choice (shield_files d) stb = (Ok s, stc) ->
        choice (letter_files d) stc = (Ok l, std) ->
        forbidden (basename s) (basename l) = false ->
        decoded d !! s = Some (w, h) ->
        is_Some (decoded d !! l) ->
        2 <= w < 2 ^ 31 -> 2 <= h < 2 ^ 31 -> w <= 6 \/ h <= 6 ->
        exists st',
          scene_attempt rotated_size float_repr d c st0
          = (Abandoned ValueError, c, st')
          /\ fs st' = fs st0)
  /\ (forall (logo : raster) (w h : Z) (st : world),
        size rotated_size logo = (w, h) ->
        7 <= w < 2 ^ 31 -> 7 <= h < 2 ^ 31 ->
        (exists jw jh,
           int_scaled w f_0_15 st = (Ok jw, st)
           /\ int_scaled h f_0_15 st = (Ok jh, st)
           /\ 1 <= jw /\ 1 <= jh)
        /\ exists logo' st',
             apply_augmentations rotated_size logo st = (Ok logo', st')).
Proof.
  split; [|split].
  - intros logo w h st Hsize Hw Hh Hsmall. split; [|split].
    + apply (apply_augmentations_raises rotated_size logo w h st); assumption.
    + unfold side_ok in *.
      destruct Hsmall; [left | right]; apply jitter_small; lia.
    + apply randint_empty. lia.
  - intros c st0 sta stb stc std b s l bw bh n w h
           Hb Hdb Hn Hs Hl Hf Hds [[lw lh] Hdl] Hw Hh Hsmall.
    pose proof (assemble_scene_same_output rotated_size d st0) as Hsame.
    assert (Hasm : exists st1,
               assemble_scene rotated_size d st0 = (Raise ValueError, st1)).
    { unfold assemble_scene.
      rewrite (bind_step _ _ _ _ _ Hb).
      unfold image_open at 1. rewrite Hdb.
      rewrite (bind_step _ _ _ _ _ (eq_refl : ret _ sta = (Ok _, sta))).
      cbn [size fst snd].
      rewrite (bind_step _ _ _ _ _ Hn).
      apply randint_ok in Hn.
      destruct (Z.to_nat n) as [|k] eqn:Ek; [lia|].
      cbn [place_logos].
      assert (Hatt : exists st1,
                 logo_attempt rotated_size d (Asset b bw bh) bw bh stb
                 = (Raise ValueError, st1)).
      { unfold logo_attempt.
        rewrite (bind_step _ _ _ _ _ Hs), (bind_step _ _ _ _ _ Hl), Hf.
        unfold image_open. rewrite Hds, Hdl.
        rewrite (bind_step _ _ _ _ _ (eq_refl : ret _ std = (Ok _, std))).
        rewrite (bind_step _ _ _ _ _ (eq_refl : ret _ std = (Ok _, std))).
        rewrite (bind_step _ _ _ _ _
                   (eq_refl : log_composite s l std = (Ok tt, _))).
        match goal with
        | |- context [create_composite_logo _ ?sh ?le] =>
            destruct (create_composite_logo_ok rotated_size sh le w h
                        (mkWorld (rng std) (rng_pos std) (io_fault std)
                                 (io_pos std) (fs std)
                                 ((s, l) :: composited std) (warnings std))
                        eq_refl Hw Hh)
              as (k' & letter' & Hc & _)
        end.
        rewrite (bind_step _ _ _ _ _ Hc).
        match goal with
        | |- context [apply_augmentations _ ?logo] =>
            destruct (apply_augmentations_raises rotated_size logo w h
                        (mkWorld (rng std) (rng_pos std) (io_fault std)
                                 (io_pos std) (fs std)
                                 ((s, l) :: composited std) (warnings std)))
              as (st1 & Ha);
            [reflexivity | unfold side_ok; lia | unfold side_ok; lia
            | exact Hsmall |]
        end.
        exists st1. apply bind_raise. exact Ha. }
      destruct Hatt as (st1 & Hatt). exists st1.
      apply bind_raise. exact Hatt. }
    destruct Hasm as (st1 & Hasm). rewrite Hasm in Hsame.
    exists (warn ValueError st1). split.
    + unfold scene_attempt, scene_body.
      rewrite (bind_raise _ _ _ _ _ Hasm). reflexivity.
    + destruct Hsame as (Hfs & _). exact Hfs.
  - intros logo w h st Hsize Hw Hh. split.
    + destruct (jitter_large w st Hw) as (jw & Hjw & Hjw1 & _).
      destruct (jitter_large h st Hh) as (jh & Hjh & Hjh1 & _).
      exists jw, jh. auto.
    + destruct (apply_augmentations_total rotated_size logo w h st Hsize Hw Hh)
        as (pts & angle & bf & cf & st' & H).
      eauto.
Qed.

(** C7.  Every annotation record made from an accepted placement on a
    background of positive size has [x_center], [y_center], [width] and
    [height] in (0, 1]; each is the exact normalised coordinate up to
    binary64 rounding, and in exact arithmetic decoding the normalised box
    gives back the pixel box, so that re-encoding it gives the same
    normalised box. *)
Theorem C7_annotations_normalised
    (st st' : world) (bg : raster) (l : list (placement * yolo_bbox))
    (bg_w bg_h : Z) :
  assemble_scene rotated_size d st = (Ok (bg, l), st') ->
  size rotated_size bg = (bg_w, bg_h) ->
  side_ok bg_w -> side_ok bg_h ->
  Forall (fun py => annotation_ok bg_w bg_h (fst py) (snd py)) l.
Proof.
  intros H Hsize Hw Hh. unfold side_ok in *. unfold assemble_scene in H.
  unbind H as bgf st1 Hbgf. unbind H as bg0 st2 Hopen.
  unbind H as n st3 Hn.
  destruct (place_logos_in_bounds rotated_size d _ _ _ _ _ _ _ _ _ H
              (List.Forall_nil _)) as [_ Hs].
  rewrite Hsize in Hs. rewrite <- Hs in H. cbn [fst snd] in H.
  apply (place_logos_Forall rotated_size d
           (fun py => annotation_ok bg_w bg_h (fst py) (snd py)) bg_w bg_h)
    in H; [exact H | | constructor].
  intros b b' p y s s' Hatt.
  apply logo_attempt_accepts in Hatt
    as (Hb & Hrw & Hrh & _ & s1 & s2 & Hc).
  apply (annotation_ok_intro p bg_w bg_h s1 s2 y); try assumption; lia.
Qed.

End Claims.

Lemma C1_witness :
  exists bg l st',
    assemble_scene same_canvas sample_disk sample_world = (Ok (bg, l), st')
    /\ l <> []
    /\ Forall (fun py => placement_in_bounds 640 480 (fst py)) l.
Proof.
  destruct (assemble_scene same_canvas sample_disk sample_world)
    as [[[bg l]|e] st'] eqn:E; vm_compute in E; [|discriminate].
  exists bg, l, st'. split; [reflexivity|].
  split; [inversion E; discriminate|].
  apply (C1_accepted_placements_in_bounds same_canvas sample_disk
           sample_world st' bg l 640 480).
  - vm_compute. exact E.
  - inversion E. reflexivity.
  - lia.
  - lia.
Defined.

Lemma C5_witness :
  Forall admissible
    (composited (snd (main same_canvas sample_repr sample_disk 2 1 sample_world)))
  /\ exists st2,
       logo_attempt same_canvas sample_disk (Blank 640 480) 640 480
                    forbidden_turn_world = (Ok None, st2)
       /\ composited st2 = composited forbidden_turn_world.
Proof.
  split.
  - apply (C5_forbidden_pairs_never_composited same_canvas sample_repr
             sample_disk 2 1 sample_world).
    reflexivity.
  - destruct (choice (shield_files sample_disk) forbidden_turn_world)
      as [[s|e] st1] eqn:Es; vm_compute in Es; [|discriminate].
    destruct (choice (letter_files sample_disk) st1)
      as [[l|e] st2] eqn:El;
      [|inversion Es; subst; vm_compute in El; discriminate].
    exists st2.
    destruct (C5_forbidden_pairs_never_composited same_canvas sample_repr
                sample_disk 0 0 forbidden_turn_world) as [_ H].
    destruct (H (Blank 640 480) 640 480 s l st1 st2) as (H1 & H2 & _).
    + vm_compute. exact Es.
    + exact El.
    + inversion Es; subst. vm_compute in El. inversion El; subst.
      vm_compute. reflexivity.
    + split; assumption.
Defined.

Lemma C6_witness :
  (exists bg st1,
     assemble_scene same_canvas sample_disk forbidden_scene_world
     = (Ok (bg, []), st1)
     /\ scene_attempt same_canvas sample_repr sample_disk 7
                      forbidden_scene_world = (Skipped, 7, st1)
     /\ fs st1 = fs forbidden_scene_world)
  /\ exists bg l st1,
       assemble_scene same_canvas sample_disk sample_world = (Ok (bg, l), st1)
       /\ l <> [].
Proof.
  split.
  - destruct (assemble_scene same_canvas sample_disk forbidden_scene_world)
      as [[[bg l]|e] st1] eqn:E; vm_compute in E; [|discriminate].
    assert (l = []) by (inversion E; reflexivity). subst l.
    exists bg, st1. split; [reflexivity|].
    destruct (C6_empty_scene_not_written same_canvas sample_repr sample_disk 7
                forbidden_scene_world) as [H _].
    destruct (H bg st1) as (H1 & H2 & _).
    + vm_compute. exact E.
    + split; assumption.
  - destruct (C6_empty_scene_not_written same_canvas sample_repr sample_disk 0
                sample_world) as [_ H].
    apply H. intros Heq.
    assert (Hl : fs (snd (scene_attempt same_canvas sample_repr sample_disk 0
                            sample_world))
                 !! image_file "train" 0 = fs sample_world !! image_file "train" 0)
      by (rewrite Heq; reflexivity).
    vm_compute in Hl. discriminate.
Defined.

(** The scene whose label file cannot be opened leaves its image behind. *)
Lemma C4_counterexample :
  ~ scene_files_paired 0
      (snd (scene_attempt same_canvas sample_repr sample_disk 0
              label_fault_world)).
Proof.
  intros H. destruct (H "train"%string) as [H1 _].
  assert (Himg : is_Some
                   (fs (snd (scene_attempt same_canvas sample_repr sample_disk 0
                               label_fault_world))
                    !! image_file "train" 0)).
  { vm_compute. eexists. reflexivity. }
  apply H1 in Himg. destruct Himg as [f Hf]. vm_compute in Hf. discriminate.
Qed.

Lemma C4_witness :
  (exists (split : string) (st1 : world) (bg : raster)
          (l : list (placement * yolo_bbox)),
     assemble_scene same_canvas sample_disk sample_world = (Ok (bg, l), st1)
     /\ l <> [] /\ is_split split
     /\ fs (snd (scene_attempt same_canvas sample_repr sample_disk 0
                   sample_world))
        !! image_file split 0 = Some (ImageFile bg)
     /\ fs (snd (scene_attempt same_canvas sample_repr sample_disk 0
                   sample_world))
        !! label_file split 0
        = Some (TextFile (label_text sample_repr (map snd l))))
  /\ fs (snd (scene_attempt same_canvas sample_repr sample_disk 0
                image_fault_world)) = fs image_fault_world
  /\ fs (snd (scene_attempt same_canvas sample_repr sample_disk 0
                stale_image_world))
     !! image_file "train" 0 = Some PartialFile.
Proof.
  split; [|split].
  - destruct (scene_attempt same_canvas sample_repr sample_disk 0 sample_world)
      as [[o c'] st'] eqn:E.
    destruct (C4_scene_counted_only_when_complete same_canvas sample_repr
                sample_disk 0 c' sample_world st' o E) as (H & _ & _).
    assert (Ho : o = Saved) by (vm_compute in E; inversion E; reflexivity).
    destruct (H Ho) as (_ & split & st1 & bg & l & Ha & Hl & Hs & Hi & Hlab).
    exists split, st1, bg, l. simpl. auto.
  - destruct (scene_attempt same_canvas sample_repr sample_disk 0
                image_fault_world) as [[o c'] st'] eqn:E.
    destruct (C4_scene_counted_only_when_complete same_canvas sample_repr
                sample_disk 0 c' image_fault_world st' o E) as (_ & _ & H).
    destruct (assemble_scene same_canvas sample_disk image_fault_world)
      as [[[bg l]|e] st1] eqn:Ea; [|vm_compute in Ea; discriminate].
    assert (Hl : l <> [])
      by (vm_compute in Ea; inversion Ea; discriminate).
    destruct (H bg l st1 eq_refl Hl) as (rnd & st2 & _ & H0 & _).
    simpl. apply H0. reflexivity.
  - destruct (scene_attempt same_canvas sample_repr sample_disk 0
                stale_image_world) as [[o c'] st'] eqn:E.
    destruct (C4_scene_counted_only_when_complete same_canvas sample_repr
                sample_disk 0 c' stale_image_world st' o E) as (_ & _ & H).
    destruct (assemble_scene same_canvas sample_disk stale_image_world)
      as [[[bg l]|e] st1] eqn:Ea; [|vm_compute in Ea; discriminate].
    assert (Hl : l <> [])
      by (vm_compute in Ea; inversion Ea; discriminate).
    destruct (H bg l st1 eq_refl Hl) as (rnd & st2 & Hr & _ & H1 & _).
    assert (Hrnd : Float.ltb rnd f_0_9 = true).
    { vm_compute in Ea. inversion Ea; subst. vm_compute in Hr.
      inversion Hr; subst. reflexivity. }
    cbv zeta in H1. rewrite Hrnd in H1.
    destruct (H1 eq_refl eq_refl) as [_ Hfs]. simpl. rewrite Hfs.
    reflexivity.
Defined.

(** A 10 x 20 letter comes out 70 x 70 in a 100 x 100 shield, and a shield
    of smaller side 90 gets a letter of side 62. *)
Lemma C2_counterexample :
  create_composite_logo same_canvas (Asset "shield.png" 100 100)
                        (Asset "letter.png" 10 20) sample_world
  = (Ok (Pasted (Pasted (Blank 100 100) (Asset "shield.png" 100 100) 0 0)
                (Resized (Asset "letter.png" 10 20) 70 70) 15 15),
     sample_world)
  /\ ~ letter_fitted_as_specified 100 100 10 20 70 70
  /\ create_composite_logo same_canvas (Asset "shield.png" 90 120)
                           (Asset "letter.png" 40 40) sample_world
     = (Ok (Pasted (Pasted (Blank 90 120) (Asset "shield.png" 90 120) 0 0)
                   (Resized (Asset "letter.png" 40 40) 62 62) 14 29),
        sample_world)
  /\ ~ letter_fitted_as_specified 90 120 40 40 62 62.
Proof.
  split; [vm_compute; reflexivity|].
  split; [intros [H _]; lia|].
  split; [vm_compute; reflexivity|].
  intros [_ H]. lia.
Qed.

Lemma C2_witness :
  exists (n : Z) (letter' : raster),
    create_composite_logo same_canvas (Asset "shield.png" 90 120)
                          (Asset "letter.png" 40 60) sample_world
    = (Ok (Pasted (Pasted (Blank 90 120) (Asset "shield.png" 90 120) 0 0)
                  letter' ((90 - n) / 2) ((120 - n) / 2)), sample_world)
    /\ int_scaled (Z.min 90 120) f_0_7 sample_world = (Ok n, sample_world)
    /\ size same_canvas letter' = (n, n)
    /\ (letter' = Asset "letter.png" 40 60
        \/ letter' = Resized (Asset "letter.png" 40 60) n n)
    /\ 7 * Z.min 90 120 - 10 <= 10 * n <= 7 * Z.min 90 120.
Proof.
  apply (C2_letter_resized_to_square same_canvas (Asset "shield.png" 90 120)
           (Asset "letter.png" 40 60) 90 120 sample_world).
  - reflexivity.
  - lia.
  - lia.
Defined.

(** A shield one pixel wide makes the compositor raise. *)
Lemma C8_counterexample :
  ~ exists (composite : raster) (st' : world),
      create_composite_logo same_canvas (Asset "shield.png" 1 1)
                            (Asset "letter.png" 4 4) sample_world
      = (Ok composite, st').
Proof.
  intros (composite & st' & H). vm_compute in H. discriminate.
Qed.

Lemma C8_witness :
  exists composite : raster,
    create_composite_logo same_canvas (Asset "shield.png" 3 5)
                          (Asset "letter.png" 400 400) sample_world
    = (Ok composite, sample_world)
    /\ size same_canvas composite = (3, 5).
Proof.
  apply (C8_composite_has_shield_size same_canvas (Asset "shield.png" 3 5)
           (Asset "letter.png" 400 400) 3 5 sample_world).
  - reflexivity.
  - lia.
  - lia.
Defined.

(** No draw moves the first corner of a 100 x 100 image one pixel
    outward. *)
Lemma C9_counterexample : ~ jitter_as_specified 100 100.
Proof.
  intros H.
  destruct (H 0%nat 0 0 (-1) 0 eq_refl ltac:(lia) ltac:(lia))
    as (st & pts & st' & Hj & Hn).
  apply jitter_corners_inv in Hj; [|unfold side_ok; lia|unfold side_ok; lia].
  destruct Hj as (jw & jh & x0 & y0 & x1 & y1 & x2 & y2 & x3 & y3
                  & _ & _ & _ & _ & Hpts & Hx0 & _).
  subst pts. simpl in Hn. inversion Hn. lia.
Qed.

Lemma C9_witness :
  (exists jw jh x0 y0 x1 y1 x2 y2 x3 y3 : Z,
     20 * jw <= 3 * 100 /\ 20 * jh <= 3 * 100
     /\ fst (jitter_corners 100 100 sample_world)
        = Ok [(x0, y0); (100 - x1, y1); (100 - x2, 100 - y2); (x3, 100 - y3)]
     /\ 0 <= x0 <= jw /\ 1 <= x1 <= jw /\ 1 <= y2 <= jh)
  /\ exists st st' : world,
       jitter_corners 100 100 st
       = (Ok [(15, 0); (100 - 1, 15); (100 - 15, 100 - 1); (0, 100 - 15)], st').
Proof.
  assert (Hs : side_ok 100) by (unfold side_ok; lia).
  destruct (C9_corners_jittered_inward 100 100 Hs Hs) as [H1 H2].
  split.
  - destruct (jitter_corners 100 100 sample_world) as [[pts|e] st'] eqn:E;
      [|vm_compute in E; discriminate].
    destruct (H1 sample_world st' pts E)
      as (jw & jh & x0 & y0 & x1 & y1 & x2 & y2 & x3 & y3
          & _ & _ & Bw & Bh & Hpts & Hx0 & _ & Hx1 & _ & _ & Hy2 & _).
    exists jw, jh, x0, y0, x1, y1, x2, y2, x3, y3. simpl. subst pts.
    repeat split; first [reflexivity | lia].
  - apply (H2 sample_world 15 15); try lia; reflexivity.
Defined.

Lemma C10_witness :
  (exists st',
     apply_augmentations same_canvas (Blank 5 40) sample_world
     = (Raise ValueError, st'))
  /\ (exists st',
        scene_attempt same_canvas sample_repr tiny_disk 3 sample_world
        = (Abandoned ValueError, 3, st')
        /\ fs st' = fs sample_world)
  /\ exists logo' st',
       apply_augmentations same_canvas (Blank 7 7) sample_world
       = (Ok logo', st').
Proof.
  destruct (C10_small_composites_abandon_the_scene same_canvas sample_repr
              tiny_disk) as (H1 & H2 & H3).
  split; [|split].
  - destruct (H1 (Blank 5 40) 5 40 sample_world) as (H & _).
    + reflexivity.
    + unfold side_ok. lia.
    + unfold side_ok. lia.
    + left. lia.
    + exact H.
  - eapply H2.
    + reflexivity.
    + reflexivity.
    + reflexivity.
    + reflexivity.
    + reflexivity.
    + reflexivity.
    + reflexivity.
    + eexists. reflexivity.
    + lia.
    + lia.
    + left. lia.
  - destruct (H3 (Blank 7 7) 7 7 sample_world) as (_ & H).
    + reflexivity.
    + lia.
    + lia.
    + exact H.
Defined.

Lemma C7_witness :
  exists bg l st',
    assemble_scene same_canvas sample_disk sample_world = (Ok (bg, l), st')
    /\ l <> []
    /\ Forall (fun py => annotation_ok 640 480 (fst py) (snd py)) l.
Proof.
  destruct (assemble_scene same_canvas sample_disk sample_world)
    as [[[bg l]|e] st'] eqn:E; vm_compute in E; [|discriminate].
  exists bg, l, st'. split; [reflexivity|].
  split; [inversion E; discriminate|].
  apply (C7_annotations_normalised same_canvas sample_disk
           sample_world st' bg l 640 480).
  - vm_compute. exact E.
  - inversion E. reflexivity.
  - unfold side_ok. lia.
  - unfold side_ok. lia.
Defined.

(** The label file of the sample scene: two records, no newline. *)
Example sample_label_file :
  fs (snd (scene_attempt same_canvas sample_repr sample_disk 0 sample_world))
  !! label_file "train" 0
  = Some (TextFile
            ("0 6530219459687219p-53 5620117034989431p-53 "
             +:+ "5854679515581645p-55 5216669568370825p-54\n"
             +:+ "0 8176848073444557p-53 8294129313740663p-54 "
             +:+ "7656119366529843p-57 6905519428634761p-56\n")).
Proof. vm_compute. reflexivity. Qed.

(** * Further properties of the script *)

Section Scene.

Variable rotated_size : float -> Z * Z -> Z * Z.
Variable float_repr : float -> string.
Variable d : disk.

Lemma choice_In {A} (xs : list A) (x : A) (st st' : world) :
  choice xs st = (Ok x, st') -> In x xs.
Proof.
  unfold choice. destruct xs as [|a xs]; [discriminate|].
  intros H. unbind H as r st1 Hr. unfold lift_option in H.
  destruct (nth_error (a :: xs) _) as [y|] eqn:E; [|discriminate].
  apply ret_ok in H as [<- _]. apply (nth_error_In _ _ E).
Qed.

Lemma image_open_inv (path : string) (img : raster) (st st' : world) :
  image_open d path st = (Ok img, st') ->
  exists w h : Z, decoded d !! path = Some (w, h) /\ img = Asset path w h.
Proof.
  unfold image_open. destruct (decoded d !! path) as [[w h]|];
    [|discriminate].
  intros H. apply ret_ok in H as [<- _]. eauto.
Qed.

Lemma logo_attempt_layer (bg bg' : raster) (bg_w bg_h : Z) (p : placement)
    (y : yolo_bbox) (st st' : world) :
  logo_attempt rotated_size d bg bg_w bg_h st = (Ok (Some (bg', p, y)), st') ->
  exists logo : raster,
    bg' = Pasted bg logo (paste_x p) (paste_y p)
    /\ size rotated_size logo = (rendered_w p, rendered_h p).
Proof.
  intros H. unfold logo_attempt in H.
  unbind H as s st1 Hs. unbind H as l st2 Hl.
  destruct (forbidden _ _); [apply ret_ok in H as [H _]; discriminate|].
  unbind H as shield st3 Hshield. unbind H as letter st4 Hletter.
  unbind H as u st5 Hlog. unbind H as logo st6 Hlogo.
  unbind H as logo' st7 Haug. unbind H as scale st8 Hscale.
  unbind H as target_w st9 Htw. unbind H as target_h st10 Hth.
  destruct ((_ =? 0) || (_ =? 0)); [apply ret_ok in H as [H _]; discriminate|].
  unbind H as rw st11 Hrw. unbind H as rh st12 Hrh.
  unbind H as new_w st13 Hnw. unbind H as new_h st14 Hnh.
  destruct ((new_w <? 1) || (new_h <? 1));
    [apply ret_ok in H as [H _]; discriminate|].
  unbind H as logo'' st15 Hres.
  unbind H as px st16 Hpx. unbind H as py st17 Hpy.
  unbind H as yolo st18 Hyolo.
  apply ret_ok in H as [H _]. inversion H; subst; clear H.
  apply resize_inv in Hres as [Hsz _].
  exists logo''. split; [reflexivity | exact Hsz].
Qed.

Lemma place_logos_layers (bg_w bg_h : Z) (n : nat) :
  forall (bg bg' : raster) (acc l : list (placement * yolo_bbox))
         (st st' : world),
    place_logos rotated_size d n bg_w bg_h bg acc st = (Ok (bg', l), st') ->
    exists new : list (placement * yolo_bbox),
      l = acc ++ new /\ (length new <= n)%nat
      /\ pasted_layers (size rotated_size) bg'
         = pasted_layers (size rotated_size) bg
           ++ map (fun py => placement_rect (fst py)) new
      /\ bottom_layer bg' = bottom_layer bg.
Proof.
  induction n as [|n IH]; intros bg bg' acc l st st' H; simpl in H.
  - apply ret_ok in H as [H _]. inversion H; subst. exists [].
    rewrite !app_nil_r. repeat split; auto.
  - unbind H as r st1 Hstep. destruct r as [[[bg1 p] y]|].
    + apply logo_attempt_layer in Hstep as (logo & -> & Hsz).
      apply IH in H as (new & -> & Hlen & Hlay & Hbot).
      exists ((p, y) :: new). rewrite <- app_assoc. split; [reflexivity|].
      split; [simpl; lia|]. split; [|exact Hbot].
      rewrite Hlay. cbn [pasted_layers map]. rewrite Hsz, <- app_assoc.
      reflexivity.
    + apply IH in H as (new & -> & Hlen & Hlay & Hbot).
      exists new. repeat split; auto.
Qed.

Lemma assemble_scene_inv (st st' : world) (bg : raster)
    (l : list (placement * yolo_bbox)) :
  assemble_scene rotated_size d st = (Ok (bg, l), st') ->
  exists (path : string) (w h : Z),
    In path (background_files d)
    /\ decoded d !! path = Some (w, h)
    /\ bottom_layer bg = Asset path w h
    /\ size rotated_size bg = (w, h)
    /\ (length l <= 3)%nat
    /\ pasted_layers (size rotated_size) bg
       = map (fun py => placement_rect (fst py)) l.
Proof.
  intros H. unfold assemble_scene in H.
  unbind H as path st1 Hpath. unbind H as bg0 st2 Hopen.
  unbind H as n st3 Hn.
  unfold image_open in Hopen.
  destruct (decoded d !! path) as [[w h]|] eqn:Hd; [|discriminate].
  apply ret_ok in Hopen as [<- _].
  apply randint_ok in Hn.
  destruct (place_logos_in_bounds rotated_size d _ _ _ _ _ _ _ _ _ H
              (List.Forall_nil _)) as [_ Hs].
  apply place_logos_layers in H as (new & -> & Hlen & Hlay & Hbot).
  exists path, w, h. simpl in *.
  repeat split; try assumption.
  - apply (choice_In _ _ _ _ Hpath).
  - lia.
Qed.

(** X1.  The annotations of an assembled scene describe its pasted logos
    one for one: the rectangles of the layers pasted on the background,
    bottom first, are the rectangles of the accepted placements in the
    order of the list. *)
Theorem annotations_match_pasted_layers
    (st st' : world) (bg : raster) (l : list (placement * yolo_bbox)) :
  assemble_scene rotated_size d st = (Ok (bg, l), st') ->
  pasted_layers (size rotated_size) bg
  = map (fun py => placement_rect (fst py)) l.
Proof.
  intros H. apply assemble_scene_inv in H as (p & w & h & _ & _ & _ & _ & _ & E).
  exact E.
Qed.

(** X2.  The image of an assembled scene is one of the listed background
    files with logos pasted over it: its bottom layer is a decoded
    background asset and it has that asset's size. *)
Theorem assembled_image_is_a_background
    (st st' : world) (bg : raster) (l : list (placement * yolo_bbox)) :
  assemble_scene rotated_size d st = (Ok (bg, l), st') ->
  exists (path : string) (w h : Z),
    In path (background_files d)
    /\ decoded d !! path = Some (w, h)
    /\ bottom_layer bg = Asset path w h
    /\ size rotated_size bg = (w, h).
Proof.
  intros H.
  apply assemble_scene_inv in H as (p & w & h & H1 & H2 & H3 & H4 & _).
  exists p, w, h. auto.
Qed.

(** X3.  The label file of a saved scene holds between one and three
    records. *)
Theorem saved_label_file_has_one_to_three_records
    (c c' : Z) (st st' : world) :
  scene_attempt rotated_size float_repr d c st = (Saved, c', st') ->
  exists (split : string) (l : list (placement * yolo_bbox)),
    is_split split /\ (1 <= length l <= 3)%nat
    /\ fs st' !! label_file split c
       = Some (TextFile (label_text float_repr (map snd l))).
Proof.
  intros H. unfold scene_attempt in H.
  destruct (scene_body rotated_size float_repr d c st) as [[[|]|e] st1] eqn:E;
    inversion H; subst; clear H.
  unfold scene_body in E. unbind E as placed st2 Hasm.
  destruct placed as [bg l]. cbn [fst snd] in E.
  apply assemble_scene_inv in Hasm as (_ & _ & _ & _ & _ & _ & _ & Hlen & _).
  apply save_scene_saved in E as (Hne & split & Hsplit & _ & Hlab).
  exists split, l. split; [exact Hsplit|]. split; [|exact Hlab].
  destruct l; [contradiction | simpl in *; lia].
Qed.

End Scene.

Lemma annotations_match_pasted_layers_witness :
  exists bg l st',
    assemble_scene same_canvas sample_disk sample_world = (Ok (bg, l), st')
    /\ pasted_layers (size same_canvas) bg = [(412, 230, 104, 139); (564, 198, 34, 46)]
    /\ map (fun py => placement_rect (fst py)) l
       = [(412, 230, 104, 139); (564, 198, 34, 46)].
Proof.
  destruct (assemble_scene same_canvas sample_disk sample_world)
    as [[[bg l]|e] st'] eqn:E; vm_compute in E; [|discriminate].
  exists bg, l, st'. split; [reflexivity|].
  assert (H : pasted_layers (size same_canvas) bg
              = map (fun py => placement_rect (fst py)) l).
  { apply (annotations_match_pasted_layers same_canvas sample_disk
             sample_world st' bg l).
    vm_compute. exact E. }
  split; [|rewrite <- H]; inversion E; subst; vm_compute; reflexivity.
Defined.

Lemma assembled_image_is_a_background_witness :
  exists bg l st' path w h,
    assemble_scene same_canvas sample_disk sample_world = (Ok (bg, l), st')
    /\ In path (background_files sample_disk)
    /\ decoded sample_disk !! path = Some (w, h)
    /\ bottom_layer bg = Asset path w h
    /\ size same_canvas bg = (w, h).
Proof.
  destruct (assemble_scene same_canvas sample_disk sample_world)
    as [[[bg l]|e] st'] eqn:E; vm_compute in E; [|discriminate].
  destruct (assembled_image_is_a_background same_canvas sample_disk
              sample_world st' bg l) as (path & w & h & H).
  - vm_compute. exact E.
  - exists bg, l, st', path, w, h. split; [reflexivity | exact H].
Defined.

Lemma saved_label_file_has_one_to_three_records_witness :
  exists (split : string) (l : list (placement * yolo_bbox)),
    is_split split /\ (1 <= length l <= 3)%nat
    /\ fs (snd (scene_attempt same_canvas sample_repr sample_disk 0
                  sample_world))
       !! label_file split 0
       = Some (TextFile (label_text sample_repr (map snd l))).
Proof.
  destruct (scene_attempt same_canvas sample_repr sample_disk 0 sample_world)
    as [[o c'] st'] eqn:E.
  assert (Ho : o = Saved) by (vm_compute in E; inversion E; reflexivity).
  subst o.
  apply (saved_label_file_has_one_to_three_records same_canvas sample_repr
           sample_disk 0 c' sample_world st' E).
Defined.

Section Run.

Variable rotated_size : float -> Z * Z -> Z * Z.
Variable float_repr : float -> string.
Variable d : disk.

Lemma scene_attempt_count (c c' : Z) (st st' : world) (o : outcome) :
  scene_attempt rotated_size float_repr d c st = (o, c', st') ->
  c <= c' <= c + 1.
Proof.
  unfold scene_attempt.
  destruct (scene_body rotated_size float_repr d c st) as [[[|]|e] st1];
    intros H; inversion H; lia.
Qed.

Lemma main_loop_count (fuel : nat) :
  forall (num c : Z) (st : world),
    c <= fst (main_loop rotated_size float_repr d fuel num c st)
    /\ fst (main_loop rotated_size float_repr d fuel num c st) <= Z.max c num
    /\ fst (main_loop rotated_size float_repr d fuel num c st) - c
       <= Z.of_nat fuel.
Proof.
  induction fuel as [|fuel IH]; intros num c st; cbn [main_loop].
  - simpl. lia.
  - destruct (Z.ltb_spec c num) as [Hlt|Hge]; [|simpl; lia].
    destruct (scene_attempt rotated_size float_repr d c st) as [[o c'] st']
      eqn:E.
    apply scene_attempt_count in E.
    specialize (IH num c' st'). lia.
Qed.

(** X4.  The run counts from zero, by at most one per turn of the loop,
    and never past the requested number of images. *)
Theorem main_count_bounds (fuel : nat) (num_images : Z) (st : world) :
  0 <= fst (main rotated_size float_repr d fuel num_images st)
  /\ fst (main rotated_size float_repr d fuel num_images st)
     <= Z.max 0 num_images
  /\ fst (main rotated_size float_repr d fuel num_images st) <= Z.of_nat fuel.
Proof.
  unfold main. destruct (_ || _); [simpl; lia|].
  pose proof (main_loop_count fuel num_images 0 st). lia.
Qed.

Lemma main_loop_stable (fuel : nat) :
  forall (k : nat) (num c : Z) (st : world),
    num <= fst (main_loop rotated_size float_repr d fuel num c st) ->
    main_loop rotated_size float_repr d (fuel + k) num c st
    = main_loop rotated_size float_repr d fuel num c st.
Proof.
  induction fuel as [|fuel IH]; intros k num c st H.
  - simpl in H. destruct k; [reflexivity|]. cbn [Nat.add main_loop].
    destruct (Z.ltb_spec c num); [lia | reflexivity].
  - cbn [Nat.add main_loop] in *.
    destruct (c <? num); [|reflexivity].
    destruct (scene_attempt rotated_size float_repr d c st) as [[o c'] st'].
    apply IH. exact H.
Qed.

(** X5.  Once the count has reached the requested number the run is
    over: further turns of the loop change neither the count nor the
    world. *)
Theorem main_stops_at_target (fuel k : nat) (num_images : Z) (st : world) :
  num_images <= fst (main rotated_size float_repr d fuel num_images st) ->
  main rotated_size float_repr d (fuel + k) num_images st
  = main rotated_size float_repr d fuel num_images st.
Proof.
  unfold main. destruct (_ || _); [reflexivity|].
  apply main_loop_stable.
Qed.

Lemma grows_within_refl (S : string -> Prop) (st : world) :
  grows_within S st st.
Proof. intros p H. now left. Qed.

Lemma grows_within_trans (S : string -> Prop) (a b c : world) :
  grows_within S a b -> grows_within S b c -> grows_within S a c.
Proof.
  intros H1 H2 p H. destruct (H2 p H) as [Hb|Hs]; [|now right].
  apply (H1 p Hb).
Qed.

Lemma grows_within_same (S : string -> Prop) (st st' : world) :
  fs st' = fs st -> grows_within S st st'.
Proof. intros E p H. left. rewrite <- E. exact H. Qed.

Lemma grows_within_weaken (S S' : string -> Prop) (st st' : world) :
  (forall p, S p -> S' p) -> grows_within S st st' -> grows_within S' st st'.
Proof.
  intros HS H p Hp. destruct (H p Hp) as [?|?]; [now left | right; auto].
Qed.

Lemma grows_within_insert (S : string -> Prop) (path : string) (f : file) :
  S path ->
  keeps (grows_within S)
        (fun st => (Ok tt, set_fs (<[path := f]> (fs st)) st)).
Proof.
  intros HS st p H. simpl in H.
  destruct (decide (path = p)) as [<-|Hne]; [now right|].
  left. rewrite lookup_insert_ne in H by exact Hne. exact H.
Qed.

Lemma grows_within_output_op (S : string -> Prop) :
  keeps (grows_within S) output_op.
Proof.
  intros st. apply grows_within_same. unfold output_op.
  destruct (io_fault st (io_pos st)); reflexivity.
Qed.

Lemma grows_within_write_lines (S : string -> Prop) (path : string)
    (bs : list yolo_bbox) :
  S path -> keeps (grows_within S) (write_lines float_repr path bs).
Proof.
  intros HS. induction bs as [|b bs IH]; simpl.
  - apply keeps_ret, grows_within_refl.
  - apply keeps_bind; [apply grows_within_trans | | intros _; exact IH].
    unfold file_write.
    apply keeps_bind;
      [apply grows_within_trans | apply grows_within_output_op | intros _].
    intros st p H. simpl in H.
    destruct (decide (path = p)) as [<-|Hne]; [now right|].
    left. rewrite lookup_insert_ne in H by exact Hne. exact H.
Qed.

Lemma grows_within_image_save (S : string -> Prop) (r : raster)
    (path : string) :
  S path -> keeps (grows_within S) (image_save r path).
Proof.
  intros HS st p Hp.
  destruct (image_save r path st) as [res st'] eqn:E.
  destruct (image_save_inv _ _ _ _ _ E) as (_ & Hcase). simpl in Hp.
  destruct (decide (path = p)) as [<-|Hne]; [now right|]. left.
  destruct (io_fault st (io_pos st));
    [destruct Hcase as (_ & Hfs & _); rewrite <- Hfs; exact Hp|].
  destruct (io_fault st (Datatypes.S (io_pos st)));
    [destruct Hcase as (_ & Hfs) | destruct Hcase as (_ & Hfs & _)];
    rewrite Hfs in Hp.
  - destruct (fs st !! path);
      [|destruct (io_fault st (Datatypes.S (Datatypes.S (io_pos st))));
        [|exact Hp]];
      rewrite lookup_insert_ne in Hp by exact Hne; exact Hp.
  - rewrite lookup_insert_ne in Hp by exact Hne. exact Hp.
Qed.

(** The paths of the scene numbered [c]. *)
Lemma scene_attempt_grows (c : Z) (st : world) :
  grows_within
    (fun p => exists split, is_split split
                            /\ (p = image_file split c \/ p = label_file split c))
    st (snd (scene_attempt rotated_size float_repr d c st)).
Proof.
  set (S := fun p => exists split, is_split split
                     /\ (p = image_file split c \/ p = label_file split c)).
  assert (Hbody : keeps (grows_within S)
                        (scene_body rotated_size float_repr d c)).
  { unfold scene_body.
    apply keeps_bind; [apply grows_within_trans | | intros placed].
    - apply keeps_assemble_scene.
      + apply grows_within_refl.
      + apply grows_within_trans.
      + intros w. apply grows_within_same. reflexivity.
      + intros s l _ w. apply grows_within_same. reflexivity.
    - unfold save_scene. destruct (snd placed) as [|x l];
        [apply keeps_ret, grows_within_refl|].
      apply keeps_bind; [apply grows_within_trans | | intros r].
      { apply keeps_random.
        intros w. apply grows_within_same. reflexivity. }
      assert (Hsplit : is_split (if Float.ltb r f_0_9 then "train"%string
                                 else "val"%string)).
      { unfold is_split. destruct (Float.ltb r f_0_9); auto. }
      set (split := if Float.ltb r f_0_9 then "train"%string else "val"%string)
        in *.
      assert (Si : S (image_file split c)) by (exists split; auto).
      assert (Sl : S (label_file split c)) by (exists split; auto).
      apply keeps_bind; [apply grows_within_trans | | intros _].
      { apply grows_within_image_save. exact Si. }
      apply keeps_bind; [apply grows_within_trans | | intros _].
      { unfold open_w.
        apply keeps_bind;
          [apply grows_within_trans | apply grows_within_output_op | intros _].
        apply (grows_within_insert S _ _ Sl). }
      apply keeps_bind; [apply grows_within_trans | | intros _].
      { apply grows_within_write_lines. exact Sl. }
      apply keeps_ret, grows_within_refl. }
  unfold scene_attempt. specialize (Hbody st).
  destruct (scene_body rotated_size float_repr d c st) as [[[|]|e] st1];
    simpl in *; exact Hbody.
Qed.

Lemma main_loop_grows (fuel : nat) :
  forall (num c : Z) (st : world),
    0 <= c ->
    grows_within (dataset_path num) st
      (snd (main_loop rotated_size float_repr d fuel num c st)).
Proof.
  induction fuel as [|fuel IH]; intros num c st Hc; cbn [main_loop].
  - apply grows_within_refl.
  - destruct (Z.ltb_spec c num) as [Hlt|Hge]; [|apply grows_within_refl].
    pose proof (scene_attempt_grows c st) as Hs.
    destruct (scene_attempt rotated_size float_repr d c st) as [[o c'] st']
      eqn:E.
    apply scene_attempt_count in E. simpl in Hs.
    eapply grows_within_trans; [|apply IH; lia].
    eapply grows_within_weaken; [|exact Hs].
    intros p (split & Hsp & Hp). exists split, c. auto.
Qed.

(** X6.  A run that starts on an empty output tree leaves in it only
    image and label files of the train and val splits, numbered from 0
    to below the requested number of images. *)
Theorem main_writes_only_dataset_paths
    (fuel : nat) (num_images : Z) (st : world) (p : string) :
  fs st = ∅ ->
  is_Some (fs (snd (main rotated_size float_repr d fuel num_images st)) !! p) ->
  dataset_path num_images p.
Proof.
  intros Hempty Hp. unfold main in Hp.
  destruct (_ || _).
  - simpl in Hp. rewrite Hempty, lookup_empty in Hp. destruct Hp; discriminate.
  - destruct (main_loop_grows fuel num_images 0 st ltac:(lia) p Hp) as [H|H];
      [|exact H].
    rewrite Hempty, lookup_empty in H. destruct H; discriminate.
Qed.

End Run.

Lemma main_stops_at_target_witness :
  main same_canvas sample_repr sample_disk (1 + 5) 1 sample_world
  = main same_canvas sample_repr sample_disk 1 1 sample_world.
Proof.
  apply (main_stops_at_target same_canvas sample_repr sample_disk 1 5 1
           sample_world).
  vm_compute. discriminate.
Defined.

Lemma main_writes_only_dataset_paths_witness :
  dataset_path 1 (image_file "train" 0).
Proof.
  apply (main_writes_only_dataset_paths same_canvas sample_repr sample_disk
           1 1 sample_world (image_file "train" 0)).
  - reflexivity.
  - vm_compute. eexists. reflexivity.
Defined.

Section Layers.

Variable rotated_size : float -> Z * Z -> Z * Z.
Variable float_repr : float -> string.
Variable d : disk.

(** X7.  The composite logo has two layers on its blank canvas: the
    shield at the origin and the square letter, which lies inside the
    shield, centred to within one pixel, at least 15% of the shield's
    side (less half a pixel) away from its left and top edges. *)
Theorem composite_letter_inside_shield
    (shield letter logo : raster) (sw sh : Z) (st st' : world) :
  size rotated_size shield = (sw, sh) ->
  2 <= sw < 2 ^ 31 -> 2 <= sh < 2 ^ 31 ->
  create_composite_logo rotated_size shield letter st = (Ok logo, st') ->
  exists n px py : Z,
    pasted_layers (size rotated_size) logo = [(0, 0, sw, sh); (px, py, n, n)]
    /\ bottom_layer logo = Blank sw sh
    /\ 0 <= px /\ px + n <= sw /\ 0 <= py /\ py + n <= sh
    /\ 0 <= (sw - (px + n)) - px <= 1
    /\ 0 <= (sh - (py + n)) - py <= 1
    /\ 3 * sw - 10 <= 20 * px /\ 3 * sh - 10 <= 20 * py
    /\ st' = st.
Proof.
  intros Hsize Hsw Hsh H.
  destruct (create_composite_logo_ok rotated_size shield letter sw sh st
              Hsize Hsw Hsh)
    as (n & letter' & E & _ & Hls & _ & Hn1 & Hn).
  rewrite E in H. inversion H; subst logo st'; clear H.
  exists n, ((sw - n) / 2), ((sh - n) / 2).
  cbn [pasted_layers bottom_layer app]. rewrite Hsize, Hls. cbn [fst snd].
  pose proof (Z.div_mod (sw - n) 2 ltac:(lia)) as Dx.
  pose proof (Z.mod_pos_bound (sw - n) 2 ltac:(lia)) as Mx.
  pose proof (Z.div_mod (sh - n) 2 ltac:(lia)) as Dy.
  pose proof (Z.mod_pos_bound (sh - n) 2 ltac:(lia)) as My.
  repeat split; try reflexivity; lia.
Qed.

(** X8.  The transformer warps, rotates, brightens and contrasts, in this
    order.  The four destination corners of the warp stay on the canvas,
    in the order of the source corners, and opposite edges of the warped
    quadrilateral keep at least 70% of the side between them. *)
Theorem warp_corners_stay_inside
    (logo r : raster) (w h : Z) (st st' : world) :
  size rotated_size logo = (w, h) -> side_ok w -> side_ok h ->
  apply_augmentations rotated_size logo st = (Ok r, st') ->
  exists (ax ay bx by' cx cy dx dy : Z) (angle b c : float),
    r = Contrast
          (Brightness
             (Rotated
                (Warped logo [(ax, ay); (bx, by'); (cx, cy); (dx, dy)])
                angle) b) c
    /\ size rotated_size r = rotated_size angle (w, h)
    /\ Forall (fun p => 0 <= fst p <= w /\ 0 <= snd p <= h)
              [(ax, ay); (bx, by'); (cx, cy); (dx, dy)]
    /\ 7 * w <= 10 * (bx - ax) /\ 7 * w <= 10 * (cx - dx)
    /\ 7 * h <= 10 * (dy - ay) /\ 7 * h <= 10 * (cy - by').
Proof.
  intros Hsize Hw Hh H. unfold apply_augmentations in H.
  rewrite Hsize in H. cbn [fst snd] in H.
  unbind H as pts st1 Hj. unbind H as angle st2 Ha.
  unbind H as b st3 Hb. unbind H as c st4 Hc.
  apply ret_ok in H as [<- _].
  apply jitter_corners_inv in Hj
    as (jw & jh & x0 & y0 & x1 & y1 & x2 & y2 & x3 & y3
        & _ & _ & Hjw & Hjh & -> & ? & ? & ? & ? & ? & ? & ? & ?);
    [|assumption..].
  exists x0, y0, (w - x1), y1, (w - x2), (h - y2), x3, (h - y3), angle, b, c.
  unfold side_ok in *.
  split; [reflexivity|]. split; [cbn [size]; rewrite Hsize; reflexivity|].
  split; [repeat constructor; cbn [fst snd]; lia|].
  lia.
Qed.

Lemma create_composite_logo_size (shield letter logo : raster)
    (st st' : world) :
  create_composite_logo rotated_size shield letter st = (Ok logo, st') ->
  size rotated_size logo = size rotated_size shield.
Proof.
  intros H. unfold create_composite_logo in H.
  unbind H as n st1 Hn. unbind H as letter' st2 Hl.
  apply ret_ok in H as [<- _]. cbn [paste_transparent size].
  destruct (size rotated_size shield). reflexivity.
Qed.

Lemma logo_attempt_small (bg : raster) (bg_w bg_h : Z) (st st' : world)
    (r : option (raster * placement * yolo_bbox)) :
  shields_too_small d ->
  logo_attempt rotated_size d bg bg_w bg_h st = (Ok r, st') -> r = None.
Proof.
  intros Hsmall H. unfold logo_attempt in H.
  unbind H as s st1 Hs. unbind H as l st2 Hl.
  destruct (forbidden _ _); [apply ret_ok in H as [H _]; now symmetry|].
  unbind H as shield st3 Hshield. unbind H as letter st4 Hletter.
  unbind H as u st5 Hlog. unbind H as logo st6 Hlogo.
  unbind H as logo' st7 Haug. exfalso.
  apply choice_In in Hs. unfold image_open in Hshield.
  destruct (decoded d !! s) as [[w h]|] eqn:Ed; [|discriminate].
  apply ret_ok in Hshield as [<- _].
  destruct (Hsmall s w h Hs Ed) as (Hw & Hh & Hwh).
  apply create_composite_logo_size in Hlogo. cbn [size] in Hlogo.
  destruct (apply_augmentations_raises rotated_size logo w h st6
              Hlogo Hw Hh Hwh) as (st'' & E).
  rewrite E in Haug. discriminate.
Qed.

Lemma place_logos_small (bg_w bg_h : Z) (n : nat) :
  forall (bg bg' : raster) (acc l : list (placement * yolo_bbox))
         (st st' : world),
    shields_too_small d ->
    place_logos rotated_size d n bg_w bg_h bg acc st = (Ok (bg', l), st') ->
    l = acc.
Proof.
  induction n as [|n IH]; intros bg bg' acc l st st' Hsmall H; simpl in H.
  - apply ret_ok in H as [H _]. now inversion H.
  - unbind H as r st1 Hstep.
    apply (logo_attempt_small _ _ _ _ _ _ Hsmall) in Hstep. subst r.
    apply (IH _ _ _ _ _ _ Hsmall H).
Qed.

Lemma scene_attempt_small (c : Z) (st : world) :
  shields_too_small d ->
  snd (fst (scene_attempt rotated_size float_repr d c st)) = c
  /\ fs (snd (scene_attempt rotated_size float_repr d c st)) = fs st.
Proof.
  intros Hsmall.
  pose proof (assemble_scene_same_output rotated_size d st) as (Hfs & _).
  unfold scene_attempt, scene_body, bind.
  destruct (assemble_scene rotated_size d st) as [[[bg l]|e] st1] eqn:E;
    [|simpl in *; auto].
  assert (l = []) as ->.
  { unfold assemble_scene in E.
    unbind E as b st2 Hb. unbind E as bgr st3 Hbg. unbind E as n st4 Hn.
    apply (place_logos_small _ _ _ _ _ _ _ _ _ Hsmall E). }
  simpl in *. auto.
Qed.

Lemma main_loop_small (fuel : nat) :
  forall (num c : Z) (st : world),
    shields_too_small d ->
    fst (main_loop rotated_size float_repr d fuel num c st) = c
    /\ fs (snd (main_loop rotated_size float_repr d fuel num c st)) = fs st.
Proof.
  induction fuel as [|fuel IH]; intros num c st Hsmall; cbn [main_loop].
  - auto.
  - destruct (c <? num); [|auto].
    destruct (scene_attempt_small c st Hsmall) as [Hc Hfs].
    destruct (scene_attempt rotated_size float_repr d c st) as [[o c'] st'].
    simpl in Hc, Hfs. subst c'.
    destruct (IH num c st' Hsmall) as [Hc' Hfs'].
    split; [exact Hc' | congruence].
Qed.

(** X9.  When every shield has a side of at most six pixels no scene is
    ever produced: whatever is drawn and however long the loop runs, the
    count stays at zero and nothing is written, so that the loop does not
    end for a positive number of images. *)
Theorem no_scene_from_small_shields
    (fuel : nat) (num_images : Z) (st : world) :
  shields_too_small d ->
  fst (main rotated_size float_repr d fuel num_images st) = 0
  /\ fs (snd (main rotated_size float_repr d fuel num_images st)) = fs st.
Proof.
  intros Hsmall. unfold main. destruct (_ || _); [auto|].
  apply main_loop_small. exact Hsmall.
Qed.

Lemma scene_body_warnings (c : Z) :
  keeps (fun a b => warnings b = warnings a)
        (scene_body rotated_size float_repr d c).
Proof.
  apply keeps_scene_body.
  - reflexivity.
  - intros a b c' H1 H2. congruence.
  - intros st. reflexivity.
  - intros s l _ st. reflexivity.
  - intros st. unfold output_op.
    destruct (io_fault st (io_pos st)); reflexivity.
  - intros f st. reflexivity.
Qed.

(** X10.  A turn of the loop logs exactly one warning, the exception it
    caught, when the scene is abandoned, and none when the scene is saved
    or skipped. *)
Theorem one_warning_per_abandoned_scene (c : Z) (st : world) :
  warnings (snd (scene_attempt rotated_size float_repr d c st))
  = new_warnings (fst (fst (scene_attempt rotated_size float_repr d c st)))
    ++ warnings st.
Proof.
  pose proof (scene_body_warnings c st) as H.
  unfold scene_attempt.
  destruct (scene_body rotated_size float_repr d c st) as [[[|]|e] st1];
    simpl in *; congruence.
Qed.

End Layers.

Lemma composite_letter_inside_shield_witness :
  exists n px py : Z,
    pasted_layers (size same_canvas)
      (Pasted (Pasted (Blank 100 80) (Asset "s" 100 80) 0 0)
              (Resized (Asset "l" 40 60) 56 56) 22 12)
    = [(0, 0, 100, 80); (px, py, n, n)]
    /\ bottom_layer
         (Pasted (Pasted (Blank 100 80) (Asset "s" 100 80) 0 0)
                 (Resized (Asset "l" 40 60) 56 56) 22 12)
       = Blank 100 80
    /\ 0 <= px /\ px + n <= 100 /\ 0 <= py /\ py + n <= 80
    /\ 0 <= (100 - (px + n)) - px <= 1
    /\ 0 <= (80 - (py + n)) - py <= 1
    /\ 3 * 100 - 10 <= 20 * px /\ 3 * 80 - 10 <= 20 * py
    /\ sample_world = sample_world.
Proof.
  apply (composite_letter_inside_shield same_canvas
           (Asset "s" 100 80) (Asset "l" 40 60) _ 100 80
           sample_world sample_world).
  - reflexivity.
  - lia.
  - lia.
  - vm_compute. reflexivity.
Defined.

Lemma no_scene_from_small_shields_witness :
  fst (main same_canvas sample_repr tiny_disk 4 2 sample_world) = 0
  /\ fs (snd (main same_canvas sample_repr tiny_disk 4 2 sample_world))
     = fs sample_world.
Proof.
  apply (no_scene_from_small_shields same_canvas sample_repr tiny_disk 4 2
           sample_world).
  intros s w h Hin Hdec. vm_compute in Hin.
  destruct Hin as [<-|[]]. vm_compute in Hdec. inversion Hdec.
  unfold side_ok. lia.
Defined.

Lemma warp_corners_stay_inside_witness :
  exists (ax ay bx by' cx cy dx dy : Z) (angle b c : float),
    fst (apply_augmentations same_canvas (Blank 100 100) sample_world)
    = Ok (Contrast
            (Brightness
               (Rotated
                  (Warped (Blank 100 100)
                          [(ax, ay); (bx, by'); (cx, cy); (dx, dy)])
                  angle) b) c)
    /\ Forall (fun p => 0 <= fst p <= 100 /\ 0 <= snd p <= 100)
              [(ax, ay); (bx, by'); (cx, cy); (dx, dy)]
    /\ 7 * 100 <= 10 * (bx - ax) /\ 7 * 100 <= 10 * (cy - by').
Proof.
  assert (Hs : side_ok 100) by (unfold side_ok; lia).
  destruct (apply_augmentations same_canvas (Blank 100 100) sample_world)
    as [[r|e] st'] eqn:E; [|vm_compute in E; discriminate].
  destruct (warp_corners_stay_inside same_canvas (Blank 100 100) r 100 100
              sample_world st' eq_refl Hs Hs E)
    as (ax & ay & bx & by' & cx & cy & dx & dy & angle & b & c
        & -> & _ & Hin & H1 & _ & _ & H4).
  exists ax, ay, bx, by', cx, cy, dx, dy, angle, b, c.
  repeat split; assumption.
Defined.

(** ** File names *)

Lemma append_empty_l (s : string) : EmptyString +:+ s = s.
Proof. reflexivity. Qed.

Lemma length_append' (a b : string) :
  String.length (a +:+ b) = (String.length a + String.length b)%nat.
Proof.
  induction a as [|c a IH]; [reflexivity|].
  rewrite append_cons. simpl. now rewrite IH.
Qed.

Lemma append_inj_l (a x y : string) : a +:+ x = a +:+ y -> x = y.
Proof.
  induction a as [|c a IH]; [exact (fun H => H)|].
  rewrite !append_cons. intros H. inversion H. auto.
Qed.

Lemma append_inj_r (s : string) :
  forall a b : string, a +:+ s = b +:+ s -> a = b.
Proof.
  induction a as [|c a IH]; intros [|c' b] H.
  - reflexivity.
  - apply (f_equal String.length) in H.
    rewrite append_empty_l, length_append' in H. simpl in H. lia.
  - apply (f_equal String.length) in H.
    rewrite append_empty_l, length_append' in H. simpl in H. lia.
  - rewrite !append_cons in H. inversion H. f_equal. auto.
Qed.

Lemma parse_count_zero (s : string) :
  parse_count (String "0" s) = parse_count s.
Proof.
  unfold parse_count. cbn [NilEmpty.uint_of_string].
  destruct (NilEmpty.uint_of_string s); reflexivity.
Qed.

Lemma parse_count_zeros (k : nat) (s : string) :
  parse_count (String.concat EmptyString (repeat "0"%string k) +:+ s)
  = parse_count s.
Proof.
  induction k as [|k IH]; [reflexivity|].
  cbn [repeat]. rewrite concat_cons', append_assoc.
  change ("0" +:+ ?x)%string with (String "0" x).
  rewrite parse_count_zero. exact IH.
Qed.

Lemma parse_count_digits (n : N) :
  parse_count (NilZero.string_of_uint (N.to_uint n)) = Some n.
Proof.
  unfold parse_count, NilZero.string_of_uint.
  destruct (N.to_uint n) eqn:E;
    try (rewrite NilEmpty.usu; cbn [option_map]; rewrite <- E;
         now rewrite DecimalN.Unsigned.of_to).
  cbn. rewrite <- (DecimalN.Unsigned.of_to n), E. reflexivity.
Qed.

Lemma format_06d_parse (n : Z) :
  0 <= n -> parse_count (format_06d n) = Some (Z.to_N n).
Proof.
  intros Hn. unfold format_06d.
  destruct (Z.ltb_spec n 0); [lia|].
  rewrite append_empty_l, parse_count_zeros.
  replace (Z.abs_N n) with (Z.to_N n) by (destruct n; [reflexivity..|lia]).
  apply parse_count_digits.
Qed.

Lemma format_06d_inj (a b : Z) :
  0 <= a -> 0 <= b -> format_06d a = format_06d b -> a = b.
Proof.
  intros Ha Hb E. apply (f_equal parse_count) in E.
  rewrite !format_06d_parse in E by assumption.
  inversion E. lia.
Qed.

(** X11.  Scene files do not collide: two image files, or two label
    files, of non-negative counts have the same path only if they have the
    same split and the same count, so that no scene overwrites the files
    of another. *)
Theorem scene_files_do_not_collide (s1 s2 : string) (c1 c2 : Z) :
  is_split s1 -> is_split s2 -> 0 <= c1 -> 0 <= c2 ->
  image_file s1 c1 = image_file s2 c2 \/ label_file s1 c1 = label_file s2 c2 ->
  s1 = s2 /\ c1 = c2.
Proof.
  intros H1 H2 Hc1 Hc2 H.
  assert (Hinj : forall t : string,
             format_06d c1 +:+ t = format_06d c2 +:+ t -> c1 = c2).
  { intros t E. apply append_inj_r in E. now apply format_06d_inj. }
  unfold image_file, label_file, path_join, output_path in H.
  destruct H1 as [-> | ->], H2 as [-> | ->], H as [H | H];
    try (exfalso; revert H; discriminate);
    (split; [reflexivity|]);
    repeat (rewrite append_cons in H); rewrite ?append_empty_l in H;
    repeat (rewrite append_cons in H); rewrite ?append_empty_l in H;
    inversion H as [E]; apply (Hinj _ E).
Qed.

Lemma basename_from_no_slash (f : string) :
  forall acc : string, no_slash f = true -> basename_from acc f = acc +:+ f.
Proof.
  induction f as [|c f IH]; intros acc H; cbn [basename_from].
  - symmetry. apply append_nil_r.
  - cbn [no_slash] in H. apply andb_true_iff in H as [Hc Hf].
    apply negb_true_iff in Hc. rewrite Hc, IH by exact Hf.
    rewrite append_assoc, append_cons, append_empty_l. reflexivity.
Qed.

Lemma basename_from_slash (a f : string) :
  forall acc : string,
    basename_from acc (a +:+ String "/" f) = basename_from EmptyString f.
Proof.
  induction a as [|c a IH]; intros acc.
  - reflexivity.
  - rewrite append_cons. cbn [basename_from].
    destruct (Ascii.eqb c "/"); apply IH.
Qed.

Lemma basename_path_join (dir f : string) :
  no_slash f = true -> basename (path_join dir f) = f.
Proof.
  intros H. unfold basename, path_join.
  change ("/" +:+ f)%string with (String "/" f).
  rewrite basename_from_slash, basename_from_no_slash by exact H.
  reflexivity.
Qed.

(** X12.  Every asset path the script draws from is a listed file name
    ending in [.png] or [.jpg], joined to its folder, and its basename,
    which the exclusion test inspects, is that file name. *)
Theorem asset_basename_is_listed_name (d : disk) (dir p : string) :
  (forall f : string, In f (listdir d dir) -> no_slash f = true) ->
  In p (asset_files d dir) ->
  exists f : string,
    In f (listdir d dir) /\ is_image_name f = true
    /\ p = path_join dir f /\ basename p = f.
Proof.
  intros Hns Hp. unfold asset_files in Hp.
  apply List.in_map_iff in Hp as (f & <- & Hf).
  apply list_elem_of_In, list_elem_of_filter in Hf as [Himg Hin].
  apply list_elem_of_In in Hin.
  exists f. repeat split; try assumption.
  apply basename_path_join. auto.
Qed.

Lemma scene_files_do_not_collide_witness :
  "train"%string = "train"%string /\ 7 = 7.
Proof.
  apply (scene_files_do_not_collide "train" "train" 7 7).
  - now left.
  - now left.
  - lia.
  - lia.
  - left. reflexivity.
Defined.

Lemma asset_basename_is_listed_name_witness :
  exists f : string,
    In f (listdir sample_disk shield_path) /\ is_image_name f = true
    /\ path_join shield_path "shield1.png" = path_join shield_path f
    /\ basename (path_join shield_path "shield1.png") = f.
Proof.
  apply (asset_basename_is_listed_name sample_disk shield_path
           (path_join shield_path "shield1.png")).
  - intros f Hin. vm_compute in Hin.
    repeat (destruct Hin as [<-|Hin]; [reflexivity|]). destruct Hin.
  - vm_compute. auto.
Defined.

(** ** The exceptions of a turn of the loop *)

Section Errors.

Variable rotated_size : float -> Z * Z -> Z * Z.
Variable float_repr : float -> string.
Variable d : disk.






Lemma raises_only_on_error {A} (P : exn -> Prop) (m : M A)
    (cleanup : M unit) :
  raises_only P m -> raises_only P (on_error m cleanup).
Proof.
  intros Hm st st' e H. unfold on_error in H.
  destruct (m st) as [[a|e'] st1] eqn:E; inversion H; subst.
  apply (Hm st st1 e E).
Qed.


























End Errors.


(** ** The saved scene and the output directories *)

Section Dataset.

Variable rotated_size : float -> Z * Z -> Z * Z.
Variable float_repr : float -> string.
Variable d : disk.

(** X14.  A saved scene is consistent with what was assembled: its image
    file holds the assembled image, whose pasted layers are the accepted
    placements in the order of pasting; its label file holds the records
    of those placements in the same order, each record being the
    normalised box of its placement on that image; both files are in the
    same split, and the count has moved by one. *)
Theorem saved_image_matches_its_labels (c c' : Z) (st st' : world) :
  scene_attempt rotated_size float_repr d c st = (Saved, c', st') ->
  exists (split : string) (st1 : world) (bg : raster)
         (l : list (placement * yolo_bbox)),
    assemble_scene rotated_size d st = (Ok (bg, l), st1)
    /\ is_split split
    /\ fs st' !! image_file split c = Some (ImageFile bg)
    /\ fs st' !! label_file split c
       = Some (TextFile (label_text float_repr (map snd l)))
    /\ pasted_layers (size rotated_size) bg
       = map (fun py => placement_rect (fst py)) l
    /\ Forall (fun py =>
                 exists sa sb : world,
                   convert_to_yolo
                     (paste_x (fst py), paste_y (fst py),
                      paste_x (fst py) + rendered_w (fst py),
                      paste_y (fst py) + rendered_h (fst py))
                     (size rotated_size bg) sa
                   = (Ok (snd py), sb)) l
    /\ c' = c + 1.
Proof.
  intros H. unfold scene_attempt in H.
  destruct (scene_body rotated_size float_repr d c st) as [[[|]|e] st1] eqn:E;
    inversion H; subst; clear H.
  unfold scene_body in E. unbind E as placed st2 Hasm.
  destruct placed as [bg l]. cbn [fst snd] in E.
  pose proof Hasm as Hinv.
  apply assemble_scene_inv in Hinv
    as (path & w & h & _ & _ & _ & Hsz & _ & Hlay).
  apply save_scene_saved in E as (_ & split & Hsplit & Himg & Hlab).
  exists split, st2, bg, l.
  split; [exact Hasm|]. split; [exact Hsplit|]. split; [exact Himg|].
  split; [exact Hlab|]. split; [exact Hlay|]. split; [|reflexivity].
  rewrite Hsz. unfold assemble_scene in Hasm.
  unbind Hasm as path' sta Hpath. unbind Hasm as bg0 stb Hopen.
  unbind Hasm as n stc Hn.
  apply image_open_inv in Hopen as (w' & h' & Hd' & ->).
  cbn [size fst snd] in Hasm.
  assert (Ewh : (w', h') = (w, h)).
  { destruct (place_logos_in_bounds rotated_size d _ _ _ _ _ _ _ _ _ Hasm
                (List.Forall_nil _)) as [_ Hs].
    cbn [size] in Hs. congruence. }
  inversion Ewh; subst w' h'.
  apply (place_logos_Forall rotated_size d _ w h) with (n := Z.to_nat n)
    (bg := Asset path' w h) (bg' := bg) (acc := []) (st := stc) (st' := st2);
    [|exact Hasm|constructor].
  intros b b' p y s s' Hatt. cbn [fst snd].
  apply logo_attempt_accepts in Hatt as (_ & _ & _ & _ & sa & sb & Hy).
  exists sa, sb. exact Hy.
Qed.

Lemma float_of_int_small (n : Z) (st : world) :
  0 <= n < 2 ^ 53 -> exists x : float, float_of_int n st = (Ok x, st).
Proof.
  intros Hn. destruct (Z.eq_dec n 0) as [->|Hz].
  - eexists. reflexivity.
  - destruct (float_of_int_exact n st ltac:(lia)) as (m & a & H & _).
    eexists. exact H.
Qed.

(** X15.  The normaliser divides by the sides of the image as they are: a
    zero width or a zero height raises [ZeroDivisionError] and leaves the
    world alone. *)
Theorem convert_to_yolo_zero_side
    (b0 b1 b2 b3 img_w img_h : Z) (st : world) :
  0 <= b0 <= b2 -> b2 < 2 ^ 52 -> 0 <= b1 <= b3 -> b3 < 2 ^ 52 ->
  0 <= img_w < 2 ^ 53 ->
  img_w = 0 \/ img_h = 0 ->
  convert_to_yolo (b0, b1, b2, b3) (img_w, img_h) st
  = (Raise ZeroDivisionError, st).
Proof.
  intros Hx Hx2 Hy Hy2 Hw Hz.
  assert (E52 : 2 ^ 53 = 2 * 2 ^ 52) by reflexivity.
  unfold convert_to_yolo.
  destruct (float_of_int_small (b0 + b2) st ltac:(lia)) as (sx & Hsx).
  destruct (float_of_int_small (b1 + b3) st ltac:(lia)) as (sy & Hsy).
  rewrite (bind_step _ _ _ _ _ Hsx), (bind_step _ _ _ _ _ Hsy).
  destruct (Z.eq_dec img_w 0) as [->|Hnz]; [reflexivity|].
  destruct Hz as [?| ->]; [contradiction|].
  rewrite (bind_step _ _ _ _ _
             (float_div_int_eq _ img_w st ltac:(lia))).
  assert (Hd : exists q, int_truediv (b2 - b0) img_w st = (Ok q, st)).
  { destruct (Z.eq_dec (b2 - b0) 0) as [->|Hpos].
    - unfold int_truediv. destruct (Z.eqb_spec img_w 0); [contradiction|].
      destruct img_w; try lia. eexists. reflexivity.
    - rewrite int_truediv_eq by lia. eexists. reflexivity. }
  destruct Hd as (q & Hq). rewrite (bind_step _ _ _ _ _ Hq).
  reflexivity.
Qed.

Lemma ancestors_from_self (s : string) :
  forall acc : string, In (acc +:+ s) (ancestors_from acc s).
Proof.
  induction s as [|c s IH]; intros acc; cbn [ancestors_from].
  - rewrite append_nil_r. now left.
  - replace (acc +:+ String c s)
      with ((acc +:+ String c EmptyString) +:+ s)
      by (rewrite append_assoc, append_cons; reflexivity).
    destruct (Ascii.eqb_spec c "/") as [->|_].
    + right. apply IH.
    + apply IH.
Qed.

Lemma makedirs_makes (name : string) (dirs : gset string) :
  name ∈ makedirs name dirs.
Proof.
  unfold makedirs. apply elem_of_union_r, elem_of_list_to_set.
  apply list_elem_of_In. apply (ancestors_from_self name EmptyString).
Qed.

Lemma makedirs_keeps (name : string) (dirs : gset string) :
  dirs ⊆ makedirs name dirs.
Proof. unfold makedirs. set_solver. Qed.

Lemma no_slash_append (a b : string) :
  no_slash (a +:+ b) = no_slash a && no_slash b.
Proof.
  induction a as [|c a IH]; [reflexivity|].
  rewrite append_cons. cbn [no_slash]. rewrite IH. apply andb_assoc.
Qed.

Lemma no_slash_digits (u : Decimal.uint) :
  no_slash (NilEmpty.string_of_uint u) = true.
Proof. induction u; cbn; auto. Qed.

Lemma no_slash_zeros (k : nat) :
  no_slash (String.concat EmptyString (repeat "0"%string k)) = true.
Proof.
  induction k as [|k IH]; [reflexivity|].
  cbn [repeat]. rewrite concat_cons', no_slash_append, IH. reflexivity.
Qed.

Lemma no_slash_format_06d (n : Z) : no_slash (format_06d n) = true.
Proof.
  unfold format_06d. rewrite !no_slash_append, no_slash_zeros.
  assert (H : no_slash (NilZero.string_of_uint (N.to_uint (Z.abs_N n)))
              = true).
  { unfold NilZero.string_of_uint.
    destruct (N.to_uint (Z.abs_N n)) eqn:E; try reflexivity;
      rewrite <- E; try apply no_slash_digits;
      rewrite E; apply (no_slash_digits (_ u)). }
  rewrite H. destruct (n <? 0); reflexivity.
Qed.

(** X16.  The directories made at the start are those the scenes are
    written into: every image and label file of a split is a slash-free
    name joined to a directory that [create_output_dirs] has made;
    directories that were there are kept, and making the directories a
    second time changes nothing. *)
Theorem create_output_dirs_covers_scene_files
    (dirs : gset string) (split : string) (c : Z) :
  is_split split ->
  (exists dir name : string,
     image_file split c = path_join dir name /\ no_slash name = true
     /\ dir ∈ create_output_dirs output_path dirs)
  /\ (exists dir name : string,
        label_file split c = path_join dir name /\ no_slash name = true
        /\ dir ∈ create_output_dirs output_path dirs)
  /\ dirs ⊆ create_output_dirs output_path dirs
  /\ create_output_dirs output_path (create_output_dirs output_path dirs)
     = create_output_dirs output_path dirs.
Proof.
  intros Hsplit.
  assert (Hname : forall ext : string,
             no_slash ext = true ->
             no_slash ("synthetic_" +:+ format_06d c +:+ ext) = true).
  { intros ext He.
    rewrite !no_slash_append, no_slash_format_06d, He. reflexivity. }
  pose proof (makedirs_makes (path_join output_path "images/train")) as M1.
  pose proof (makedirs_makes (path_join output_path "images/val")) as M2.
  pose proof (makedirs_makes (path_join output_path "labels/train")) as M3.
  pose proof (makedirs_makes (path_join output_path "labels/val")) as M4.
  pose proof makedirs_keeps as K.
  split; [|split; [|split]].
  - eexists _, _. split; [reflexivity|]. split; [apply Hname; reflexivity|].
    unfold create_output_dirs. destruct Hsplit as [-> | ->].
    + do 3 apply K. apply M1.
    + do 2 apply K. apply M2.
  - eexists _, _. split; [reflexivity|]. split; [apply Hname; reflexivity|].
    unfold create_output_dirs. destruct Hsplit as [-> | ->].
    + apply K. apply M3.
    + apply M4.
  - unfold create_output_dirs. intros x Hx. do 4 apply K. exact Hx.
  - assert (E : forall D : gset string,
               create_output_dirs output_path D
               = D ∪ create_output_dirs output_path ∅).
    { intros D. unfold create_output_dirs, makedirs.
      rewrite !(assoc_L (∪)), (right_id_L ∅ (∪)). reflexivity. }
    rewrite (E (create_output_dirs output_path dirs)), (E dirs).
    rewrite <- (assoc_L (∪)), (idemp_L (∪)). reflexivity.
Qed.

End Dataset.

Lemma saved_image_matches_its_labels_witness :
  exists (split : string) (st1 : world) (bg : raster)
         (l : list (placement * yolo_bbox)),
    assemble_scene same_canvas sample_disk sample_world = (Ok (bg, l), st1)
    /\ is_split split
    /\ fs (snd (scene_attempt same_canvas sample_repr sample_disk 0
                  sample_world))
       !! image_file split 0 = Some (ImageFile bg)
    /\ fs (snd (scene_attempt same_canvas sample_repr sample_disk 0
                  sample_world))
       !! label_file split 0
       = Some (TextFile (label_text sample_repr (map snd l)))
    /\ pasted_layers (size same_canvas) bg
       = map (fun py => placement_rect (fst py)) l
    /\ length l = 2%nat.
Proof.
  destruct (scene_attempt same_canvas sample_repr sample_disk 0 sample_world)
    as [[o c'] st'] eqn:E.
  assert (Ho : o = Saved) by (vm_compute in E; inversion E; reflexivity).
  subst o.
  destruct (saved_image_matches_its_labels same_canvas sample_repr
              sample_disk 0 c' sample_world st' E)
    as (split & st1 & bg & l & Ha & Hs & Hi & Hl & Hp & _ & _).
  exists split, st1, bg, l. simpl.
  repeat (split; [assumption|]).
  vm_compute in Ha. inversion Ha. reflexivity.
Defined.

Lemma convert_to_yolo_zero_side_witness :
  convert_to_yolo (10, 20, 30, 40) (640, 0) sample_world
  = (Raise ZeroDivisionError, sample_world).
Proof.
  apply (convert_to_yolo_zero_side 10 20 30 40 640 0 sample_world);
    first [lia | now right].
Defined.

Lemma create_output_dirs_covers_scene_files_witness :
  (exists dir name : string,
     image_file "val" 12 = path_join dir name /\ no_slash name = true
     /\ dir ∈ create_output_dirs output_path ∅)
  /\ (exists dir name : string,
        label_file "val" 12 = path_join dir name /\ no_slash name = true
        /\ dir ∈ create_output_dirs output_path ∅)
  /\ ∅ ⊆ create_output_dirs output_path ∅
  /\ create_output_dirs output_path (create_output_dirs output_path ∅)
     = create_output_dirs output_path ∅.
Proof.
  apply (create_output_dirs_covers_scene_files ∅ "val" 12).
  now right.
Defined.

(** ** The split of a scene *)

Lemma normalize_exact (k e : Z) :
  0 < k < 2 ^ 53 -> -1000 <= e <= 900 ->
  exists (m : positive) (a : Z),
    binary_normalize Float.prec Float.emax k e false
    = S754_finite false m (e - a)
    /\ 0 <= a <= 52
    /\ Zpos m = k * 2 ^ a
    /\ 2 ^ 52 <= Zpos m < 2 ^ 53.
Proof.
  intros Hk He. destruct k as [|p|p]; try lia.
  pose proof (FloatFacts.digits_bounds p) as Hd.
  set (dp := Zpos (digits2_pos p)) in *.
  assert (Hdp : 1 <= dp <= 53).
  { split; [unfold dp; lia|].
    destruct (Z_lt_le_dec 53 dp) as [Hgt|]; [|lia]. exfalso.
    assert (2 ^ 53 <= 2 ^ (dp - 1)) by (apply Z.pow_le_mono_r; lia). lia. }
  unfold binary_normalize, binary_round.
  fold dp. rewrite FloatFacts.fexp_normal by lia. unfold shl_align.
  replace (dp + e - 53 - e) with (dp - 53) by lia.
  destruct (dp - 53) as [|q|q] eqn:Eq; try lia.
  - exists p, 0. assert (dp = 53) by lia.
    replace (dp - 1) with 52 in Hd by lia. replace dp with 53 in Hd by lia.
    rewrite FloatFacts.binary_round_aux_exact by lia.
    replace (e - 0) with e by lia.
    repeat split; try lia.
  - pose proof (FloatFacts.iter_xO q p) as Hit.
    assert (Epow : 2 ^ 52 = 2 ^ (dp - 1) * 2 ^ Zpos q).
    { rewrite <- Z.pow_add_r by lia. f_equal. lia. }
    assert (Epow' : 2 ^ 53 = 2 ^ dp * 2 ^ Zpos q).
    { rewrite <- Z.pow_add_r by lia. f_equal. lia. }
    assert (0 < 2 ^ Zpos q) by (apply Z.pow_pos_nonneg; lia).
    exists (Pos.iter xO p q), (Zpos q).
    replace (dp + e - 53) with (e - Zpos q) by lia.
    rewrite FloatFacts.binary_round_aux_exact by (split; first [lia | nia]).
    repeat split; try lia; nia.
Qed.


Lemma f_0_9_bits : f_0_9 = S754_finite false 8106479329266893 (-53).
Proof. vm_compute. reflexivity. Qed.

Lemma ltb_same_exponent (m c : positive) (e : Z) :
  Float.ltb (S754_finite false m e) (S754_finite false c e)
  = (Zpos m <? Zpos c).
Proof.
  unfold Float.ltb, SFltb, SFcompare. rewrite Z.compare_refl.
  change (PosDef.Pos.compare_cont Eq m c) with (Pos.compare m c).
  destruct (Pos.compare_spec m c) as [H|H|H]; symmetry;
    first [apply Z.ltb_lt; lia | apply Z.ltb_ge; lia].
Qed.

Lemma ltb_lower_exponent (m c : positive) (e e' : Z) :
  e < e' ->
  Float.ltb (S754_finite false m e) (S754_finite false c e') = true.
Proof.
  intros He. unfold Float.ltb, SFltb, SFcompare.
  destruct (Z.compare_spec e e'); first [reflexivity | lia].
Qed.

Lemma unit_float_below_0_9 (u : Z) :
  0 <= u < 2 ^ 53 ->
  Float.ltb (binary_normalize Float.prec Float.emax u (-53) false) f_0_9
  = (10 * u <? 9 * 2 ^ 53).
Proof.
  intros Hu. rewrite f_0_9_bits.
  destruct (Z.eq_dec u 0) as [->|Hnz]; [vm_compute; reflexivity|].
  destruct (normalize_exact u (-53) ltac:(lia) ltac:(lia))
    as (m & a & -> & Ha & Em & Hm).
  assert (E53 : 2 ^ 53 = 9007199254740992) by reflexivity.
  assert (E52 : 2 ^ 52 = 4503599627370496) by reflexivity.
  rewrite E53 in *. rewrite E52 in *.
  destruct (Z.eq_dec a 0) as [->|Ha0].
  - rewrite Z.mul_1_r in Em. replace (-53 - 0) with (-53) by lia.
    rewrite ltb_same_exponent, Em.
    destruct (Z.ltb_spec u 8106479329266893);
      symmetry; first [apply Z.ltb_lt; lia | apply Z.ltb_ge; lia].
  - rewrite ltb_lower_exponent by lia.
    symmetry. apply Z.ltb_lt.
    assert (H2 : 2 ^ 1 <= 2 ^ a) by (apply Z.pow_le_mono_r; lia).
    change (2 ^ 1) with 2 in H2.
    assert (H3 : u * 2 <= u * 2 ^ a)
      by (apply Z.mul_le_mono_nonneg_l; lia).
    lia.
Qed.

Lemma random_below_0_9 (st st' : world) (r : float) :
  random st = (Ok r, st') ->
  Float.ltb r f_0_9 = (10 * unit_draw st <? 9 * 2 ^ 53).
Proof.
  intros H. unfold random in H. unbind H as k st1 Hk.
  apply ret_ok in H as [<- _].
  assert (Ek : k = rng st (rng_pos st)) by (inversion Hk; reflexivity).
  unfold unit_draw. rewrite <- Ek.
  apply unit_float_below_0_9. apply Z.mod_pos_bound. reflexivity.
Qed.

Section Split.

Variable float_repr : float -> string.

Lemma save_scene_split (c : Z) (bg : raster)
    (l : list (placement * yolo_bbox)) (st st' : world) :
  save_scene float_repr c bg l st = (Ok true, st') ->
  fs st' !! image_file (split_of_draw (unit_draw st)) c = Some (ImageFile bg)
  /\ fs st' !! label_file (split_of_draw (unit_draw st)) c
     = Some (TextFile (label_text float_repr (map snd l))).
Proof.
  intros H.
  assert (Hne : l <> []).
  { destruct l; [|discriminate]. inversion H. }
  destruct (save_scene_outcome _ _ _ _ _ _ _ H Hne)
    as (rnd & st1 & Hr & Hcase).
  cbv zeta in Hcase.
  apply random_below_0_9 in Hr. rewrite Hr in Hcase.
  fold (split_of_draw (unit_draw st)) in Hcase.
  set (split := split_of_draw (unit_draw st)) in *.
  destruct (io_fault st (io_pos st)); [destruct Hcase; discriminate|].
  destruct (io_fault st (S (io_pos st))); [destruct Hcase; discriminate|].
  destruct (io_fault st (S (S (io_pos st)))); [destruct Hcase; discriminate|].
  destruct Hcase as (j & Hj & Hfs & _ & [[_ ->] | (E & _)]);
    [|discriminate].
  rewrite firstn_all2 in Hfs by (rewrite length_map; lia).
  rewrite Hfs. split.
  - rewrite lookup_insert_ne by (apply not_eq_sym, image_label_distinct).
    apply lookup_insert_eq.
  - apply lookup_insert_eq.
Qed.

(** X17.  A saved scene goes to the train split exactly when the draw
    [k / 2^53] of [random.random()] is below nine tenths, as an exact
    fraction, and to the val split otherwise: comparing the float of the
    draw with the float [0.9] decides as the fractions do. *)
Theorem scene_split_follows_the_draw (c : Z) (bg : raster)
    (l : list (placement * yolo_bbox)) (st st' : world) :
  save_scene float_repr c bg l st = (Ok true, st') ->
  exists split : string,
    (10 * unit_draw st < 9 * 2 ^ 53 -> split = "train"%string)
    /\ (9 * 2 ^ 53 <= 10 * unit_draw st -> split = "val"%string)
    /\ fs st' !! image_file split c = Some (ImageFile bg)
    /\ fs st' !! label_file split c
       = Some (TextFile (label_text float_repr (map snd l))).
Proof.
  intros H. apply save_scene_split in H as [Himg Hlab].
  exists (split_of_draw (unit_draw st)).
  split; [|split; [|split; assumption]]; unfold split_of_draw; intros Hk.
  - apply Z.ltb_lt in Hk. now rewrite Hk.
  - apply Z.ltb_ge in Hk. now rewrite Hk.
Qed.

End Split.

Lemma scene_split_follows_the_draw_witness :
  exists split : string,
    (10 * unit_draw sample_world < 9 * 2 ^ 53 -> split = "train"%string)
    /\ (9 * 2 ^ 53 <= 10 * unit_draw sample_world -> split = "val"%string)
    /\ fs (snd (save_scene sample_repr 4 (Blank 10 10)
                  [(mkPlacement 0 0 1 1, (f_0_7, f_0_7, f_0_7, f_0_7))]
                  sample_world))
       !! image_file split 4 = Some (ImageFile (Blank 10 10))
    /\ fs (snd (save_scene sample_repr 4 (Blank 10 10)
                  [(mkPlacement 0 0 1 1, (f_0_7, f_0_7, f_0_7, f_0_7))]
                  sample_world))
       !! label_file split 4
       = Some (TextFile
                 (label_text sample_repr
                    (map snd [(mkPlacement 0 0 1 1,
                               (f_0_7, f_0_7, f_0_7, f_0_7))]))).
Proof.
  destruct (save_scene sample_repr 4 (Blank 10 10)
              [(mkPlacement 0 0 1 1, (f_0_7, f_0_7, f_0_7, f_0_7))]
              sample_world) as [r st'] eqn:E.
  assert (Hr : r = Ok true) by (vm_compute in E; inversion E; reflexivity).
  subst r.
  apply (scene_split_follows_the_draw sample_repr 4 (Blank 10 10) _
           sample_world st' E).
Defined.

(** ** Where a pasted logo comes from *)

Section Provenance.

Variable rotated_size : float -> Z * Z -> Z * Z.
Variable d : disk.

Lemma resize_shape (img img' : raster) (w h : Z) (st st' : world) :
  resize rotated_size img w h st = (Ok img', st') -> resized_from img img'.
Proof.
  unfold resize, resized_from. destruct (_ && _).
  - intros H. apply ret_ok in H as [<- _]. now left.
  - destruct (_ || _); [discriminate|].
    intros H. apply ret_ok in H as [<- _]. right. eauto.
Qed.

Lemma logo_attempt_made (bg bg' : raster) (bg_w bg_h : Z) (p : placement)
    (y : yolo_bbox) (st st' : world) :
  logo_attempt rotated_size d bg bg_w bg_h st = (Ok (Some (bg', p, y)), st') ->
  exists logo : raster,
    bg' = Pasted bg logo (paste_x p) (paste_y p) /\ made_logo d logo.
Proof.
  intros H. unfold logo_attempt in H.
  unbind H as s st1 Hs. unbind H as l st2 Hl.
  destruct (forbidden _ _) eqn:Hf; [apply ret_ok in H as [H _]; discriminate|].
  unbind H as shield st3 Hshield. unbind H as letter st4 Hletter.
  unbind H as u st5 Hlog. unbind H as logo st6 Hlogo.
  unbind H as logo' st7 Haug. unbind H as scale st8 Hscale.
  unbind H as target_w st9 Htw. unbind H as target_h st10 Hth.
  destruct ((_ =? 0) || (_ =? 0)); [apply ret_ok in H as [H _]; discriminate|].
  unbind H as rw st11 Hrw. unbind H as rh st12 Hrh.
  unbind H as new_w st13 Hnw. unbind H as new_h st14 Hnh.
  destruct ((new_w <? 1) || (new_h <? 1));
    [apply ret_ok in H as [H _]; discriminate|].
  unbind H as logo'' st15 Hres.
  unbind H as px st16 Hpx. unbind H as py st17 Hpy.
  unbind H as yolo st18 Hyolo.
  apply ret_ok in H as [H _]. inversion H; subst; clear H.
  exists logo''. split; [reflexivity|].
  apply choice_In in Hs, Hl.
  apply image_open_inv in Hshield as (sw & sh & Hds & ->).
  apply image_open_inv in Hletter as (lw & lh & Hdl & ->).
  unfold create_composite_logo in Hlogo. cbn [size fst snd] in Hlogo.
  unbind Hlogo as n sta Hn. unbind Hlogo as letter' stb Hfit.
  apply ret_ok in Hlogo as [<- _]. apply resize_shape in Hfit.
  unfold apply_augmentations in Haug.
  unbind Haug as pts stc Hpts. unbind Haug as angle std Hangle.
  unbind Haug as b ste Hb. unbind Haug as c stf Hc.
  apply ret_ok in Haug as [<- _]. apply resize_shape in Hres.
  unfold made_logo, paste_transparent in *. cbn [fst snd] in *.
  exists s, l, sw, sh, lw, lh, ((sw - fst (size rotated_size letter')) / 2),
    ((sh - snd (size rotated_size letter')) / 2), letter', pts, angle, b, c.
  repeat split; assumption.
Qed.

Lemma place_logos_made (bg_w bg_h : Z) (n : nat) :
  forall (bg bg' : raster) (acc l : list (placement * yolo_bbox))
         (st st' : world),
    place_logos rotated_size d n bg_w bg_h bg acc st = (Ok (bg', l), st') ->
    Forall (made_logo d) (pasted_rasters bg) ->
    Forall (made_logo d) (pasted_rasters bg').
Proof.
  induction n as [|n IH]; intros bg bg' acc l st st' H Hbg; simpl in H.
  - apply ret_ok in H as [H _]. now inversion H; subst.
  - unbind H as r st1 Hstep. destruct r as [[[bg1 p] y]|].
    + apply logo_attempt_made in Hstep as (logo & -> & Hmade).
      apply (IH _ _ _ _ _ _ H). cbn [pasted_rasters].
      apply Forall_app. split; [exact Hbg|]. now constructor.
    + apply (IH _ _ _ _ _ _ H Hbg).
Qed.

(** X18.  Every logo pasted on an assembled scene was made the same way:
    from a shield and a letter of the asset folders that are not a
    forbidden pair, the letter fitted and pasted on the shield over a
    blank canvas of the shield's size, the composite warped, then
    rotated, then brightened, then contrasted, and the result fitted to
    the background. *)
Theorem pasted_logos_are_made_from_assets (st st' : world) (bg : raster)
    (l : list (placement * yolo_bbox)) :
  assemble_scene rotated_size d st = (Ok (bg, l), st') ->
  Forall (made_logo d) (pasted_rasters bg)
  /\ length (pasted_rasters bg) = length l.
Proof.
  intros H. pose proof H as H'. unfold assemble_scene in H.
  unbind H as path st1 Hpath. unbind H as bg0 st2 Hopen.
  unbind H as n st3 Hn.
  apply image_open_inv in Hopen as (w & h & _ & ->).
  split.
  - apply (place_logos_made _ _ _ _ _ _ _ _ _ H). constructor.
  - apply assemble_scene_inv in H' as (_ & _ & _ & _ & _ & _ & _ & _ & Hlay).
    apply (f_equal (@length _)) in Hlay.
    rewrite length_map in Hlay. rewrite <- Hlay. clear.
    induction bg; cbn [pasted_rasters pasted_layers]; try reflexivity.
    rewrite !length_app, IHbg1. reflexivity.
Qed.

End Provenance.

Lemma pasted_logos_are_made_from_assets_witness :
  exists bg l st',
    assemble_scene same_canvas sample_disk sample_world = (Ok (bg, l), st')
    /\ Forall (made_logo sample_disk) (pasted_rasters bg)
    /\ length (pasted_rasters bg) = 2%nat.
Proof.
  destruct (assemble_scene same_canvas sample_disk sample_world)
    as [[[bg l]|e] st'] eqn:E; vm_compute in E; [|discriminate].
  exists bg, l, st'. split; [reflexivity|].
  destruct (pasted_logos_are_made_from_assets same_canvas sample_disk
              sample_world st' bg l) as [H1 H2].
  { vm_compute. exact E. }
  split; [exact H1|]. rewrite H2. inversion E. reflexivity.
Defined.

(** ** The size of a pasted logo *)

(** Binary64 operations on positive normal floats, read on the rationals
    the floats denote. *)
Module QFacts.

Lemma pow2_pos (e : Z) : (0 < 2 ^ e)%Q.
Proof. apply Qpower_0_lt. reflexivity. Qed.

Lemma pow2_add (a b : Z) : (2 ^ (a + b) == 2 ^ a * 2 ^ b)%Q.
Proof. apply Qpower_plus. discriminate. Qed.

Lemma pow2_inject (k : Z) : 0 <= k -> (2 ^ k == inject_Z (2 ^ k))%Q.
Proof. intros Hk. rewrite Zpower_Qpower by exact Hk. reflexivity. Qed.

Lemma pow2_neg (k : Z) : (2 ^ (- k) * 2 ^ k == 1)%Q.
Proof. rewrite <- pow2_add. replace (- k + k) with 0 by lia. reflexivity. Qed.

Lemma inject_Z_le (a b : Z) : a <= b -> (inject_Z a <= inject_Z b)%Q.
Proof. intros H. rewrite <- Zle_Qle. exact H. Qed.

Lemma inject_Z_lt (a b : Z) : a < b -> (inject_Z a < inject_Z b)%Q.
Proof. intros H. rewrite <- Zlt_Qlt. exact H. Qed.

(** The integer form of a rounding, as the rounding lemmas give it, read
    as a relative error. *)
Lemma rel_err (m : positive) (k N D e : Z) :
  0 < D -> 0 <= k -> 2 ^ 52 <= Zpos m ->
  2 * Z.abs (Zpos m * (2 ^ k * D) - N) <= 2 ^ k * D ->
  (value (S754_finite false m (e + k)) * (1 - half_ulp)
   <= inject_Z N / inject_Z D * 2 ^ e
   <= value (S754_finite false m (e + k)) * (1 + half_ulp))%Q.
Proof.
  intros HD Hk Hm Herr.
  assert (P : 0 < 2 ^ k) by (apply Z.pow_pos_nonneg; lia).
  set (V := Zpos m * (2 ^ k * D)) in *.
  assert (HV : 2 ^ 52 * (2 ^ k * D) <= V).
  { unfold V. apply Z.mul_le_mono_nonneg_r; [nia | exact Hm]. }
  assert (E52 : 2 ^ 52 = 4503599627370496) by reflexivity.
  assert (H1 : 9007199254740992 * Z.abs (V - N) <= V) by lia.
  cbn [value]. unfold half_ulp.
  rewrite pow2_add, (pow2_inject k Hk).
  pose proof (pow2_pos e) as Pe.
  assert (HDq : (0 < inject_Z D)%Q) by (apply (inject_Z_lt 0); exact HD).
  assert (EV : (inject_Z V
                == inject_Z (Zpos m) * inject_Z (2 ^ k) * inject_Z D)%Q).
  { unfold V. rewrite !inject_Z_mult. ring. }
  set (qm := inject_Z (Z.pos m)) in *.
  set (qk := inject_Z (2 ^ k)) in *.
  set (qD := inject_Z D) in *.
  set (qe := (2 ^ e)%Q) in *.
  assert (Hlo : (inject_Z V * (1 - (1 # 9007199254740992)) <= inject_Z N)%Q).
  { assert (9007199254740992 * (V - N) <= V) by lia.
    assert (Hq : (inject_Z (9007199254740992 * (V - N)) <= inject_Z V)%Q)
      by (apply inject_Z_le; assumption).
    rewrite inject_Z_mult in Hq. unfold Zminus in Hq.
    rewrite inject_Z_plus, inject_Z_opp in Hq.
    change (inject_Z 9007199254740992) with 9007199254740992%Q in Hq. lra. }
  assert (Hhi : (inject_Z N <= inject_Z V * (1 + (1 # 9007199254740992)))%Q).
  { assert (9007199254740992 * (N - V) <= V) by lia.
    assert (Hq : (inject_Z (9007199254740992 * (N - V)) <= inject_Z V)%Q)
      by (apply inject_Z_le; assumption).
    rewrite inject_Z_mult in Hq. unfold Zminus in Hq.
    rewrite inject_Z_plus, inject_Z_opp in Hq.
    change (inject_Z 9007199254740992) with 9007199254740992%Q in Hq. lra. }
  rewrite EV in Hlo, Hhi.
  assert (Hdiv : forall a b : Q,
             (a * qD <= b -> a * qe <= b / qD * qe)%Q).
  { intros a b H. apply Qmult_le_compat_r; [|lra].
    apply Qle_shift_div_l; assumption. }
  assert (Hdiv' : forall a b : Q,
             (b <= a * qD -> b / qD * qe <= a * qe)%Q).
  { intros a b H. apply Qmult_le_compat_r; [|lra].
    apply Qle_shift_div_r; assumption. }
  split.
  - assert (E1 : (1 * qm * (qe * qk) * (1 - (1 # 9007199254740992))
                 == (qm * qk * (1 - (1 # 9007199254740992))) * qe)%Q) by ring.
    rewrite E1. apply Hdiv.
    assert (E2 : (qm * qk * (1 - (1 # 9007199254740992)) * qD
                 == qm * qk * qD * (1 - (1 # 9007199254740992)))%Q) by ring.
    rewrite E2. exact Hlo.
  - assert (E1 : (1 * qm * (qe * qk) * (1 + (1 # 9007199254740992))
                 == (qm * qk * (1 + (1 # 9007199254740992))) * qe)%Q) by ring.
    rewrite E1. apply Hdiv'.
    assert (E2 : (qm * qk * (1 + (1 # 9007199254740992)) * qD
                 == qm * qk * qD * (1 + (1 # 9007199254740992)))%Q) by ring.
    rewrite E2. exact Hhi.
Qed.


Lemma value_pos (m : positive) (e : Z) :
  (0 < value (S754_finite false m e))%Q.
Proof.
  cbn [value]. pose proof (pow2_pos e).
  assert (0 < inject_Z (Zpos m))%Q by (apply (inject_Z_lt 0); lia).
  apply Qmult_lt_0_compat; [|assumption]. lra.
Qed.

(** An integer of at least 53 digits, scaled, is rounded to a normal
    float within half a unit in the last place. *)
Lemma round_int (N e : Z) :
  2 ^ 52 <= N ->
  -1074 <= Zdigits2 N + e - 53 -> Zdigits2 N + e - 52 <= 971 ->
  rounds_to e (binary_round_aux Float.prec Float.emax false N e loc_Exact)
            (inject_Z N * 2 ^ e)%Q.
Proof.
  intros HN Hlo Hhi.
  assert (E1 : N / 1 = N) by apply Z.div_1_r.
  assert (El : Float.loc_of N 1 = loc_Exact).
  { apply FloatFacts.loc_of_exact. apply Z.mod_1_r. }
  destruct (FloatFacts.binary_round_aux_spec false N 1 e)
    as (m & k & Hr & Hk & Hm & Herr); rewrite ?E1; try lia.
  rewrite E1, El in Hr. rewrite Hr.
  exists m, (e + k). split; [reflexivity|]. split; [exact Hm|].
  split; [lia|].
  pose proof (rel_err m k N 1 e ltac:(lia) Hk ltac:(lia) Herr) as H.
  assert (E : (inject_Z N / inject_Z 1 * 2 ^ e == inject_Z N * 2 ^ e)%Q).
  { change (inject_Z 1) with 1%Q. field. }
  rewrite E in H. exact H.
Qed.

Lemma mul_rounds (m1 m2 : positive) (e1 e2 : Z) :
  2 ^ 52 <= Zpos m1 < 2 ^ 53 -> 2 ^ 52 <= Zpos m2 < 2 ^ 53 ->
  -1000 <= e1 + e2 <= 800 ->
  rounds_to (e1 + e2)
            (Float.mul (S754_finite false m1 e1) (S754_finite false m2 e2))
            (value (S754_finite false m1 e1)
             * value (S754_finite false m2 e2))%Q.
Proof.
  intros H1 H2 He. unfold Float.mul, SFmul. cbn [xorb].
  set (N := Zpos (m1 * m2)).
  assert (EN : N = Zpos m1 * Zpos m2) by reflexivity.
  assert (HNr : 2 ^ 104 <= N < 2 ^ 106).
  { change (2 ^ 104) with (2 ^ 52 * 2 ^ 52).
    change (2 ^ 106) with (2 ^ 53 * 2 ^ 53). nia. }
  assert (HNd : 105 <= Zdigits2 N <= 106).
  { apply (FloatFacts.pow2_digits_range N 104 106); lia. }
  assert (H52 : 2 ^ 52 <= N).
  { assert (2 ^ 52 <= 2 ^ 104) by (apply Z.pow_le_mono_r; lia). lia. }
  pose proof (round_int N (e1 + e2) H52 ltac:(lia) ltac:(lia)) as H.
  assert (E : (value (S754_finite false m1 e1)
               * value (S754_finite false m2 e2)
               == inject_Z N * 2 ^ (e1 + e2))%Q).
  { cbn [value]. rewrite EN, inject_Z_mult, pow2_add. ring. }
  destruct H as (m & e & Hx & Hm & Hlo & Hv).
  exists m, e. split; [exact Hx|]. split; [exact Hm|]. split; [exact Hlo|].
  rewrite E. exact Hv.
Qed.

Lemma shl_align_value (m : positive) (e ez : Z) :
  ez <= e ->
  Zpos (fst (shl_align m e ez)) = Zpos m * 2 ^ (e - ez).
Proof.
  intros H. unfold shl_align.
  destruct (ez - e) as [|p|p] eqn:E; try lia.
  - replace (e - ez) with 0 by lia. simpl. lia.
  - cbn [fst]. replace (e - ez) with (Zpos p) by lia.
    apply (FloatFacts.iter_xO p m).
Qed.

Lemma add_rounds (m1 m2 : positive) (e1 e2 : Z) :
  2 ^ 52 <= Zpos m1 < 2 ^ 53 -> 2 ^ 52 <= Zpos m2 < 2 ^ 53 ->
  -1000 <= e1 <= 800 -> -1000 <= e2 <= 800 ->
  rounds_to (Z.min e1 e2)
            (Float.add (S754_finite false m1 e1) (S754_finite false m2 e2))
            (value (S754_finite false m1 e1)
             + value (S754_finite false m2 e2))%Q.
Proof.
  intros H1 H2 He1 He2. unfold Float.add, SFadd.
  change IntDef.Z.min with Z.min. cbn [cond_Zopp].
  set (ez := Z.min e1 e2).
  assert (Hz1 : ez <= e1) by (unfold ez; lia).
  assert (Hz2 : ez <= e2) by (unfold ez; lia).
  pose proof (shl_align_value m1 e1 ez Hz1) as A1.
  pose proof (shl_align_value m2 e2 ez Hz2) as A2.
  set (s1 := fst (shl_align m1 e1 ez)) in *.
  set (s2 := fst (shl_align m2 e2 ez)) in *.
  change (Zpos s1 + Zpos s2) with (Zpos (s1 + s2)).
  cbn [binary_normalize]. unfold binary_round.
  set (S := Zpos (s1 + s2)).
  assert (ES : S = Zpos m1 * 2 ^ (e1 - ez) + Zpos m2 * 2 ^ (e2 - ez)).
  { unfold S. rewrite Pos2Z.inj_add, A1, A2. reflexivity. }
  set (dmax := Z.max e1 e2 - ez).
  assert (P1 : 0 < 2 ^ (e1 - ez)) by (apply Z.pow_pos_nonneg; lia).
  assert (P2 : 0 < 2 ^ (e2 - ez)) by (apply Z.pow_pos_nonneg; lia).
  assert (Q1 : 2 ^ (e1 - ez) <= 2 ^ dmax)
    by (apply Z.pow_le_mono_r; unfold dmax; lia).
  assert (Q2 : 2 ^ (e2 - ez) <= 2 ^ dmax)
    by (apply Z.pow_le_mono_r; unfold dmax; lia).
  assert (HS : 2 ^ 52 <= S < 2 ^ (54 + dmax)).
  { rewrite Z.pow_add_r by (unfold dmax; lia).
    change (2 ^ 54) with (2 * 2 ^ 53). split; nia. }
  assert (Hd : 53 <= Zdigits2 S <= 54 + dmax).
  { apply (FloatFacts.pow2_digits_range S 52 (54 + dmax)); try lia. }
  change (Zpos (digits2_pos (s1 + s2))) with (Zdigits2 S).
  rewrite FloatFacts.fexp_normal by lia.
  assert (Ea : shl_align (s1 + s2) ez (Zdigits2 S + ez - 53)
               = ((s1 + s2)%positive, ez)).
  { unfold shl_align.
    destruct (Zdigits2 S + ez - 53 - ez) as [|p|p] eqn:E; try reflexivity.
    lia. }
  rewrite Ea. fold S.
  pose proof (round_int S ez ltac:(lia) ltac:(lia)
                ltac:(unfold dmax in *; lia)) as H.
  assert (E : (value (S754_finite false m1 e1)
               + value (S754_finite false m2 e2)
               == inject_Z S * 2 ^ ez)%Q).
  { cbn [value]. rewrite ES, inject_Z_plus, !inject_Z_mult.
    rewrite <- !pow2_inject by lia.
    replace e1 with ((e1 - ez) + ez) at 1 by lia.
    replace e2 with ((e2 - ez) + ez) at 1 by lia.
    rewrite !pow2_add. ring. }
  destruct H as (m & e & Hx & Hm & Hlo & Hv).
  exists m, e. split; [exact Hx|]. split; [exact Hm|]. split; [exact Hlo|].
  rewrite E. exact Hv.
Qed.

Lemma div_rounds (m1 m2 : positive) (e1 e2 : Z) :
  2 ^ 52 <= Zpos m1 < 2 ^ 53 -> 2 ^ 52 <= Zpos m2 < 2 ^ 53 ->
  -1000 <= e1 - e2 <= 900 ->
  rounds_to (e1 - e2 - 53)
            (Float.div (S754_finite false m1 e1) (S754_finite false m2 e2))
            (value (S754_finite false m1 e1)
             / value (S754_finite false m2 e2))%Q.
Proof.
  intros H1 H2 He.
  destruct (DivFacts.div_spec m1 m2 e1 e2 H1 H2 He)
    as (m & k & Hr & Hk & Hm & Herr).
  rewrite Hr. exists m, (e1 - e2 - 53 + k).
  split; [reflexivity|]. split; [exact Hm|]. split; [lia|].
  pose proof (rel_err m k (Zpos m1 * 2 ^ 53) (Zpos m2) (e1 - e2 - 53)
                ltac:(lia) Hk ltac:(lia) Herr) as H.
  assert (E : (value (S754_finite false m1 e1)
               / value (S754_finite false m2 e2)
               == inject_Z (Zpos m1 * 2 ^ 53) / inject_Z (Zpos m2)
                  * 2 ^ (e1 - e2 - 53))%Q).
  { cbn [value]. rewrite inject_Z_mult.
    replace (e1 - e2 - 53) with (e1 + (- e2 + - (53))) by lia.
    rewrite !pow2_add, !Qpower_opp.
    change (inject_Z (2 ^ 53)) with (2 ^ 53)%Q.
    pose proof (pow2_pos e2). pose proof (pow2_pos e1).
    assert (0 < inject_Z (Zpos m2))%Q by (apply (inject_Z_lt 0); lia).
    set (a := (2 ^ e1)%Q) in *. set (b := (2 ^ e2)%Q) in *.
    set (c := (2 ^ 53)%Q) in *.
    assert (0 < c)%Q by reflexivity.
    field. repeat split; lra. }
  rewrite E. exact H.
Qed.

Lemma of_int_value (w : Z) :
  0 < w < 2 ^ 53 ->
  exists (m : positive) (a : Z),
    Float.of_int w = S754_finite false m (- a)
    /\ 0 <= a <= 52 /\ 2 ^ 52 <= Zpos m < 2 ^ 53
    /\ (value (Float.of_int w) == inject_Z w)%Q.
Proof.
  intros Hw.
  destruct (FloatFacts.of_int_exact w Hw) as (m & a & Hof & Ha & Em & Hm).
  exists m, a. rewrite Hof. repeat split; try lia.
  cbn [value]. rewrite Em, inject_Z_mult.
  rewrite <- (pow2_inject a) by lia.
  pose proof (pow2_neg a).
  set (x := (2 ^ a)%Q) in *. set (y := (2 ^ (- a))%Q) in *.
  assert (E : (1 * (inject_Z w * x) * y == inject_Z w * (y * x))%Q) by ring.
  rewrite E, H. ring.
Qed.

Lemma trunc_value (m : positive) (e : Z) :
  e <= 0 ->
  exists n : Z,
    Float.trunc (S754_finite false m e) = Some n
    /\ 0 <= n
    /\ (inject_Z n <= value (S754_finite false m e) < inject_Z n + 1)%Q.
Proof.
  intros He.
  pose proof (FloatFacts.trunc_scaled m 0 (- e) ltac:(lia) ltac:(lia)) as H.
  replace (0 - - e) with e in H by lia.
  rewrite Z.pow_0_r, Z.mul_1_r in H.
  assert (P : 0 < 2 ^ (- e)) by (apply Z.pow_pos_nonneg; lia).
  exists (Zpos m / 2 ^ (- e)). split; [exact H|].
  split; [apply Z.div_pos; lia|].
  pose proof (Z.div_mod (Zpos m) (2 ^ (- e)) ltac:(lia)) as Hdm.
  pose proof (Z.mod_pos_bound (Zpos m) (2 ^ (- e)) P) as Hr.
  set (n := Zpos m / 2 ^ (- e)) in *.
  set (r := Zpos m mod 2 ^ (- e)) in *.
  cbn [value].
  pose proof (pow2_neg (- e)) as Hn. replace (- - e) with e in Hn by lia.
  rewrite (pow2_inject (- e)) in Hn by lia.
  pose proof (pow2_pos e) as Pe.
  set (E := inject_Z (2 ^ (- e))) in *. set (x := (2 ^ e)%Q) in *.
  assert (PE : (0 < E)%Q) by (apply (inject_Z_lt 0); exact P).
  assert (Hm : (inject_Z (Zpos m) == E * inject_Z n + inject_Z r)%Q).
  { rewrite Hdm at 1. rewrite inject_Z_plus, inject_Z_mult. reflexivity. }
  assert (Hr0 : (0 <= inject_Z r)%Q) by (apply (inject_Z_le 0); lia).
  assert (Hr1 : (inject_Z r < E)%Q) by (apply inject_Z_lt; lia).
  rewrite Hm.
  assert (Ex : (1 * (E * inject_Z n + inject_Z r) * x
                == inject_Z n * (x * E) + inject_Z r * x)%Q) by ring.
  rewrite Ex, Hn.
  assert (B0 : (0 <= inject_Z r * x)%Q) by (apply Qmult_le_0_compat; lra).
  assert (B1 : (inject_Z r * x < 1)%Q).
  { rewrite <- Hn. rewrite (Qmult_comm x E).
    apply Qmult_lt_compat_r; assumption. }
  split; lra.
Qed.

Lemma ltb_value (m1 m2 : positive) (e1 e2 : Z) :
  2 ^ 52 <= Zpos m1 < 2 ^ 53 -> 2 ^ 52 <= Zpos m2 < 2 ^ 53 ->
  if Float.ltb (S754_finite false m1 e1) (S754_finite false m2 e2)
  then (value (S754_finite false m1 e1) < value (S754_finite false m2 e2))%Q
  else (value (S754_finite false m2 e2) <= value (S754_finite false m1 e1))%Q.
Proof.
  intros H1 H2.
  assert (Hlow : forall (a b : positive) (ea eb : Z),
             Zpos a < 2 ^ 53 -> 2 ^ 52 <= Zpos b -> ea < eb ->
             (value (S754_finite false a ea)
              < value (S754_finite false b eb))%Q).
  { intros a b ea eb Ha Hb Hlt. cbn [value].
    pose proof (pow2_pos ea) as Pa. pose proof (pow2_pos eb) as Pb.
    assert (La : (inject_Z (Zpos a) < 2 ^ 53)%Q).
    { change (2 ^ 53)%Q with (inject_Z (2 ^ 53)). apply inject_Z_lt, Ha. }
    assert (Lb : (2 ^ 52 <= inject_Z (Zpos b))%Q).
    { change (2 ^ 52)%Q with (inject_Z (2 ^ 52)). apply inject_Z_le, Hb. }
    assert (Le : (2 ^ 53 * 2 ^ ea <= 2 ^ 52 * 2 ^ eb)%Q).
    { rewrite <- !pow2_add. apply Qpower_le_compat_l; [lia|]. discriminate. }
    assert (X1 : (inject_Z (Zpos a) * 2 ^ ea < 2 ^ 53 * 2 ^ ea)%Q)
      by (apply Qmult_lt_compat_r; assumption).
    assert (X2 : (2 ^ 52 * 2 ^ eb <= inject_Z (Zpos b) * 2 ^ eb)%Q)
      by (apply Qmult_le_compat_r; [assumption | lra]).
    lra. }
  unfold Float.ltb, SFltb, SFcompare.
  destruct (Z.compare_spec e1 e2) as [E|E|E].
  - subst e2. change (PosDef.Pos.compare_cont Eq m1 m2)
      with (Pos.compare m1 m2).
    pose proof (pow2_pos e1) as Pe. cbn [value].
    destruct (Pos.compare_spec m1 m2) as [H|H|H].
    + subst. lra.
    + apply Pos2Z.pos_lt_pos in H. apply inject_Z_lt in H.
      assert (inject_Z (Zpos m1) * 2 ^ e1 < inject_Z (Zpos m2) * 2 ^ e1)%Q
        by (apply Qmult_lt_compat_r; assumption).
      lra.
    + apply Pos2Z.pos_lt_pos in H. apply inject_Z_lt in H.
      assert (inject_Z (Zpos m2) * 2 ^ e1 < inject_Z (Zpos m1) * 2 ^ e1)%Q
        by (apply Qmult_lt_compat_r; assumption).
      lra.
  - apply Hlow; lia.
  - apply Qlt_le_weak. apply Hlow; lia.
Qed.


Lemma value_exponent (m : positive) (e a : Z) :
  2 ^ 52 <= Zpos m < 2 ^ 53 ->
  ((value (S754_finite false m e) < 2 ^ a)%Q -> e < a - 52)
  /\ ((2 ^ a <= value (S754_finite false m e))%Q -> a - 53 < e).
Proof.
  intros Hm. cbn [value]. pose proof (pow2_pos e) as Pe.
  assert (L : (2 ^ 52 <= inject_Z (Zpos m))%Q).
  { change (2 ^ 52)%Q with (inject_Z (2 ^ 52)). apply inject_Z_le. lia. }
  assert (U : (inject_Z (Zpos m) < 2 ^ 53)%Q).
  { change (2 ^ 53)%Q with (inject_Z (2 ^ 53)). apply inject_Z_lt. lia. }
  assert (X1 : (2 ^ 52 * 2 ^ e <= inject_Z (Zpos m) * 2 ^ e)%Q)
    by (apply Qmult_le_compat_r; [assumption | lra]).
  assert (X2 : (inject_Z (Zpos m) * 2 ^ e < 2 ^ 53 * 2 ^ e)%Q)
    by (apply Qmult_lt_compat_r; assumption).
  rewrite <- pow2_add in X1, X2.
  split; intros H.
  - assert (Hlt : (2 ^ (52 + e) < 2 ^ a)%Q) by lra.
    apply Qpower_lt_compat_l_inv in Hlt; [lia | reflexivity].
  - assert (Hlt : (2 ^ a < 2 ^ (53 + e))%Q) by lra.
    apply Qpower_lt_compat_l_inv in Hlt; [lia | reflexivity].
Qed.

Lemma random_value (st st' : world) (r : float) :
  random st = (Ok r, st') ->
  r = S754_zero false
  \/ exists (m : positive) (e : Z),
       r = S754_finite false m e
       /\ 2 ^ 52 <= Zpos m < 2 ^ 53 /\ -105 <= e <= -53
       /\ (value r < 1)%Q.
Proof.
  intros H. unfold random in H. unbind H as k st1 Hk.
  apply ret_ok in H as [<- _].
  pose proof (Z.mod_pos_bound (Z.of_N k) (2 ^ 53) ltac:(reflexivity)) as Hb.
  set (u := Z.of_N k mod 2 ^ 53) in *. clearbody u.
  destruct (Z.eq_dec u 0) as [->|Hnz]; [left; reflexivity|right].
  destruct (normalize_exact u (-53) ltac:(lia) ltac:(lia))
    as (m & a & -> & Ha & Em & Hm).
  exists m, (-53 - a). split; [reflexivity|]. split; [exact Hm|].
  split; [lia|].
  cbn [value]. pose proof (pow2_pos (-53 - a)) as Pe.
  assert (U : (inject_Z (Zpos m) < 2 ^ 53)%Q).
  { change (2 ^ 53)%Q with (inject_Z (2 ^ 53)). apply inject_Z_lt. lia. }
  assert (X2 : (inject_Z (Zpos m) * 2 ^ (-53 - a) < 2 ^ 53 * 2 ^ (-53 - a))%Q)
    by (apply Qmult_lt_compat_r; assumption).
  rewrite <- pow2_add in X2.
  assert (X3 : (2 ^ (53 + (-53 - a)) <= 2 ^ 0)%Q)
    by (apply Qpower_le_compat_l; [lia | discriminate]).
  change (2 ^ 0)%Q with 1%Q in X3. lra.
Qed.

(** [random.uniform(0.05, 0.35)] lies between [0.05 - 10^-15] and
    [0.35 + 10^-15]. *)
Lemma uniform_scale (st st' : world) (scale : float) :
  uniform f_0_05 f_0_35 st = (Ok scale, st') ->
  exists (m : positive) (e : Z),
    scale = S754_finite false m e
    /\ 2 ^ 52 <= Zpos m < 2 ^ 53 /\ -60 <= e <= -53
    /\ ((1 # 20) - (1 # 1000000000000000) <= value scale
        <= (7 # 20) + (1 # 1000000000000000))%Q.
Proof.
  intros H. unfold uniform in H. unbind H as r st1 Hr.
  apply ret_ok in H as [<- _].
  change (Float.sub f_0_35 f_0_05)
    with (S754_finite false 5404319552844595 (-54)).
  assert (V3 : (value (S754_finite false 5404319552844595 (-54))
                == 5404319552844595 # 18014398509481984)%Q)
    by (vm_compute; reflexivity).
  assert (V5 : (value f_0_05
                == 7205759403792794 # 144115188075855872)%Q)
    by (vm_compute; reflexivity).
  apply random_value in Hr as [-> | (mr & er & -> & Hmr & Her & Hr1)].
  - exists 7205759403792794%positive, (-57).
    split; [reflexivity|]. split; [lia|]. split; [lia|].
    change (Float.add f_0_05
              (Float.mul (S754_finite false 5404319552844595 (-54))
                 (S754_zero false))) with f_0_05.
    rewrite V5. split; [vm_compute; discriminate | vm_compute; discriminate].
  - pose proof (value_pos mr er) as Hr0.
    destruct (mul_rounds 5404319552844595 mr (-54) er
                ltac:(lia) Hmr ltac:(lia))
      as (mp & ep & Hp & Hmp & Hlo & Hvp).
    rewrite Hp. rewrite V3 in Hvp. rewrite Hp in Hvp.
    pose proof (value_pos mp ep) as Hp0.
    set (vr := value (S754_finite false mr er)) in *.
    set (vp := value (S754_finite false mp ep)) in *.
    unfold half_ulp in Hvp.
    assert (Hpu : (vp < 1)%Q) by lra.
    assert (Hep : ep < -52).
    { destruct (value_exponent mp ep 0 Hmp) as [Hu _].
      fold vp in Hu. change (2 ^ 0)%Q with 1%Q in Hu.
      specialize (Hu Hpu). lia. }
    destruct (add_rounds 7205759403792794 mp (-57) ep
                ltac:(lia) Hmp ltac:(lia) ltac:(lia))
      as (ms & es & Hs & Hms & Hlos & Hvs).
    change (S754_finite false 7205759403792794 (-57)) with f_0_05 in Hs, Hvs.
    rewrite Hs. rewrite Hs in Hvs. rewrite V5 in Hvs. fold vp in Hvs.
    pose proof (value_pos ms es) as Hs0.
    set (vs := value (S754_finite false ms es)) in *.
    unfold half_ulp in Hvs.
    assert (Hb : ((1 # 20) - (1 # 1000000000000000) <= vs
                  <= (7 # 20) + (1 # 1000000000000000))%Q)
      by (split; lra).
    exists ms, es. split; [reflexivity|]. split; [exact Hms|].
    split; [|exact Hb].
    destruct (value_exponent ms es 0 Hms) as [Hu _].
    destruct (value_exponent ms es (-5) Hms) as [_ Hl].
    fold vs in Hu, Hl. change (2 ^ 0)%Q with 1%Q in Hu.
    change (2 ^ (-5))%Q with (1 # 32)%Q in Hl.
    specialize (Hu ltac:(lra)). specialize (Hl ltac:(lra)). lia.
Qed.


(** [int(w * c)] for a positive integer and a positive normal float whose
    product stays below [2^52]: the floor of a float within half a unit in
    the last place of the exact product. *)
Lemma int_scaled_value (w : Z) (mc : positive) (ec : Z) (st : world) :
  0 < w < 2 ^ 53 -> 2 ^ 52 <= Zpos mc < 2 ^ 53 -> -900 <= ec <= 0 ->
  (inject_Z w * value (S754_finite false mc ec) < 2 ^ 52)%Q ->
  exists n : Z,
    int_scaled w (S754_finite false mc ec) st = (Ok n, st)
    /\ 0 <= n
    /\ (inject_Z n * (1 - half_ulp)
        <= inject_Z w * value (S754_finite false mc ec))%Q
    /\ (inject_Z w * value (S754_finite false mc ec)
        < (inject_Z n + 1) * (1 + half_ulp))%Q.
Proof.
  intros Hw Hmc Hec Hprod.
  destruct (float_of_int_exact w st Hw) as (mw & a & Hf & Hof & Ha & Emw & Hmw).
  destruct (of_int_value w Hw) as (mw' & a' & Hof' & _ & _ & Hvw).
  rewrite Hof in Hvw.
  destruct (mul_rounds mw mc (- a) ec Hmw Hmc ltac:(lia))
    as (mx & ex & Hx & Hmx & Hlo & Hvx).
  rewrite Hvw in Hvx. rewrite Hx in Hvx.
  pose proof (value_pos mx ex) as Hx0.
  set (vc := value (S754_finite false mc ec)) in *.
  set (vx := value (S754_finite false mx ex)) in *.
  unfold half_ulp in *.
  assert (Hex : ex <= 0).
  { destruct (value_exponent mx ex 53 Hmx) as [Hu _]. fold vx in Hu.
    change (2 ^ 53)%Q with 9007199254740992%Q in Hu.
    change (2 ^ 52)%Q with 4503599627370496%Q in Hprod.
    specialize (Hu ltac:(lra)). lia. }
  destruct (trunc_value mx ex Hex) as (n & Ht & Hn0 & Hn).
  fold vx in Hn.
  exists n. split.
  - unfold int_scaled. rewrite (bind_step _ _ _ _ _ Hf), Hx.
    unfold int_of_float. rewrite Ht. reflexivity.
  - split; [exact Hn0|]. split; lra.
Qed.

Lemma int_scaled_zero (w : Z) (st : world) :
  0 < w < 2 ^ 53 -> int_scaled w (S754_zero false) st = (Ok 0, st).
Proof.
  intros Hw.
  destruct (float_of_int_exact w st Hw) as (mw & a & Hf & _).
  unfold int_scaled. rewrite (bind_step _ _ _ _ _ Hf). reflexivity.
Qed.

Lemma int_truediv_zero (b : Z) (st : world) :
  0 < b < 2 ^ 53 -> int_truediv 0 b st = (Ok (S754_zero false), st).
Proof.
  intros Hb. unfold int_truediv. destruct (Z.eqb_spec b 0); [lia|].
  destruct b; try lia. reflexivity.
Qed.

Lemma int_truediv_value (a b : Z) (st : world) :
  0 < a < 2 ^ 53 -> 0 < b < 2 ^ 53 ->
  exists q : float,
    int_truediv a b st = (Ok q, st)
    /\ rounds_to (-105) q (inject_Z a / inject_Z b)%Q.
Proof.
  intros Ha Hb.
  rewrite (int_truediv_eq a b st Ha Hb). eexists. split; [reflexivity|].
  destruct (of_int_value a Ha) as (ma & xa & Hofa & Hxa & Hma & Hva).
  destruct (of_int_value b Hb) as (mb & xb & Hofb & Hxb & Hmb & Hvb).
  destruct (div_rounds ma mb (- xa) (- xb) Hma Hmb ltac:(lia))
    as (m & e & Hq & Hm & Hlo & Hv).
  rewrite <- Hofa, <- Hofb in Hq, Hv. rewrite Hva, Hvb in Hv.
  exists m, e. split; [exact Hq|]. split; [exact Hm|]. split; [lia|].
  exact Hv.
Qed.


(** [int(bg * scale)] for a scale of [random.uniform(0.05, 0.35)]: at
    most 35% of the side. *)
Lemma target_bound (bg : Z) (ms : positive) (es : Z) (st : world) :
  side_ok bg -> 2 ^ 52 <= Zpos ms < 2 ^ 53 -> -60 <= es <= -53 ->
  ((1 # 20) - (1 # 1000000000000000) <= value (S754_finite false ms es)
   <= (7 # 20) + (1 # 1000000000000000))%Q ->
  exists t : Z,
    int_scaled bg (S754_finite false ms es) st = (Ok t, st)
    /\ 0 <= t /\ 20 * t <= 7 * bg /\ bg <= 20 * (t + 1).
Proof.
  intros Hbg Hms Hes [Hvl Hv]. unfold side_ok in Hbg.
  assert (E31 : 2 ^ 31 = 2147483648) by reflexivity.
  assert (E53 : 2 ^ 53 = 9007199254740992) by reflexivity.
  pose proof (value_pos ms es) as Hs0.
  set (vs := value (S754_finite false ms es)) in *.
  assert (Hb0 : (1 <= inject_Z bg)%Q) by (apply (inject_Z_le 1); lia).
  assert (Hb1 : (inject_Z bg < 2147483648)%Q)
    by (apply (inject_Z_lt bg 2147483648); lia).
  assert (Hprod : (inject_Z bg * vs
                   <= inject_Z bg * ((7 # 20) + (1 # 1000000000000000)))%Q).
  { apply Qmult_le_l; [lra | exact Hv]. }
  assert (Hprod' : (inject_Z bg * ((1 # 20) - (1 # 1000000000000000))
                    <= inject_Z bg * vs)%Q).
  { apply Qmult_le_l; [lra | exact Hvl]. }
  destruct (int_scaled_value bg ms es st ltac:(lia) Hms ltac:(lia))
    as (t & Ht & Ht0 & Hlo & Hhi).
  { fold vs. change (2 ^ 52)%Q with 4503599627370496%Q. lra. }
  fold vs in Hlo, Hhi. unfold half_ulp in Hlo, Hhi.
  assert (Qt : (0 <= inject_Z t)%Q) by (apply (inject_Z_le 0); exact Ht0).
  exists t. split; [exact Ht|]. split; [exact Ht0|].
  assert (Hq : (inject_Z (20 * t) < inject_Z (7 * bg + 1))%Q).
  { rewrite inject_Z_plus, !inject_Z_mult.
    change (inject_Z 20) with 20%Q. change (inject_Z 7) with 7%Q.
    change (inject_Z 1) with 1%Q. lra. }
  assert (Hq' : (inject_Z (bg - 1) < inject_Z (20 * (t + 1)))%Q).
  { unfold Zminus. rewrite inject_Z_mult, !inject_Z_plus.
    change (inject_Z 20) with 20%Q. change (inject_Z (- (1))) with (- (1))%Q.
    change (inject_Z 1) with 1%Q. lra. }
  rewrite <- Zlt_Qlt in Hq, Hq'. lia.
Qed.

(** Lines 181-183 of [main]: the logo scaled by the smaller of the two
    quotients fits its target and reaches it, to within a pixel, on one
    side. *)
Lemma fit_within_target (tw th lw lh nw nh : Z) (rw rh : float)
    (st1 st2 st3 st4 st5 : world) :
  0 <= tw < 2 ^ 31 -> 0 <= th < 2 ^ 31 -> side_ok lw -> side_ok lh ->
  int_truediv tw lw st1 = (Ok rw, st2) ->
  int_truediv th lh st2 = (Ok rh, st3) ->
  int_scaled lw (Float.min rw rh) st3 = (Ok nw, st4) ->
  int_scaled lh (Float.min rw rh) st4 = (Ok nh, st5) ->
  1 <= nw -> 1 <= nh ->
  nw <= tw /\ nh <= th /\ (tw <= nw + 1 \/ th <= nh + 1).
Proof.
  intros Htw Hth Hlw Hlh Hrw Hrh Hnw Hnh Hw1 Hh1. unfold side_ok in *.
  assert (E31 : 2 ^ 31 = 2147483648) by reflexivity.
  assert (E53 : 2 ^ 53 = 9007199254740992) by reflexivity.
  assert (Hquot : forall (t l : Z) (r : float) (sa sb : world),
             0 <= t < 2 ^ 31 -> 1 <= l < 2 ^ 31 ->
             int_truediv t l sa = (Ok r, sb) ->
             (t = 0 /\ r = S754_zero false)
             \/ (0 < t /\ rounds_to (-105) r (inject_Z t / inject_Z l)%Q)).
  { intros t l r sa sb Ht Hl H.
    destruct (Z.eq_dec t 0) as [->|Hn].
    - left. rewrite int_truediv_zero in H by lia. inversion H. auto.
    - right. split; [lia|].
      destruct (int_truediv_value t l sa ltac:(lia) ltac:(lia))
        as (q & Hq & Hr).
      rewrite Hq in H. inversion H; subst. exact Hr. }
  apply Hquot in Hrw; [|lia..]. apply Hquot in Hrh; [|lia..]. clear Hquot.
  assert (Hzero : Float.min rw rh = S754_zero false -> False).
  { intros E. rewrite E, int_scaled_zero in Hnw by lia.
    inversion Hnw. lia. }
  destruct Hrw as [[-> ->] | [Htw0 (m1 & e1 & -> & Hm1 & Hlo1 & Hv1)]];
    destruct Hrh as [[-> ->] | [Hth0 (m2 & e2 & -> & Hm2 & Hlo2 & Hv2)]];
    try (exfalso; apply Hzero; reflexivity).
  pose proof (ltb_value m2 m1 e2 e1 Hm2 Hm1) as Hcmp.
  pose proof (value_pos m1 e1) as P1. pose proof (value_pos m2 e2) as P2.
  set (v1 := value (S754_finite false m1 e1)) in *.
  set (v2 := value (S754_finite false m2 e2)) in *.
  assert (Qtw : (1 <= inject_Z tw < 2147483648)%Q).
  { split; [apply (inject_Z_le 1) | apply (inject_Z_lt tw 2147483648)]; lia. }
  assert (Qth : (1 <= inject_Z th < 2147483648)%Q).
  { split; [apply (inject_Z_le 1) | apply (inject_Z_lt th 2147483648)]; lia. }
  assert (Qlw : (1 <= inject_Z lw < 2147483648)%Q).
  { split; [apply (inject_Z_le 1) | apply (inject_Z_lt lw 2147483648)]; lia. }
  assert (Qlh : (1 <= inject_Z lh < 2147483648)%Q).
  { split; [apply (inject_Z_le 1) | apply (inject_Z_lt lh 2147483648)]; lia. }
  unfold half_ulp in *.
  (* the quotients, multiplied back *)
  assert (M1 : (inject_Z lw * v1 * (1 - (1 # 9007199254740992))
                <= inject_Z tw)%Q).
  { destruct Hv1 as [Hv1 _].
    apply (Qmult_le_l _ _ (inject_Z lw)) in Hv1; [|lra].
    assert (E : (inject_Z lw * (inject_Z tw / inject_Z lw) == inject_Z tw)%Q)
      by (field; lra).
    rewrite E in Hv1. rewrite <- Qmult_assoc. exact Hv1. }
  assert (M2 : (inject_Z lh * v2 * (1 - (1 # 9007199254740992))
                <= inject_Z th)%Q).
  { destruct Hv2 as [Hv2 _].
    apply (Qmult_le_l _ _ (inject_Z lh)) in Hv2; [|lra].
    assert (E : (inject_Z lh * (inject_Z th / inject_Z lh) == inject_Z th)%Q)
      by (field; lra).
    rewrite E in Hv2. rewrite <- Qmult_assoc. exact Hv2. }
  (* the smaller quotient *)
  assert (Hmin : exists (m : positive) (e : Z),
             Float.min (S754_finite false m1 e1) (S754_finite false m2 e2)
             = S754_finite false m e
             /\ 2 ^ 52 <= Zpos m < 2 ^ 53 /\ -105 <= e
             /\ (value (S754_finite false m e) <= v1)%Q
             /\ (value (S754_finite false m e) <= v2)%Q
             /\ (value (S754_finite false m e) == v1
                 \/ value (S754_finite false m e) == v2)%Q).
  { unfold Float.min.
    destruct (Float.ltb (S754_finite false m2 e2) (S754_finite false m1 e1)).
    - exists m2, e2. fold v2.
      split; [reflexivity|]. split; [lia|]. split; [lia|].
      split; [lra|]. split; [lra|]. right. reflexivity.
    - exists m1, e1. fold v1.
      split; [reflexivity|]. split; [lia|]. split; [lia|].
      split; [lra|]. split; [lra|]. left. reflexivity. }
  destruct Hmin as (m & e & Emin & Hm & Hlo & Le1 & Le2 & Eq12).
  (* the targets, from the quotients *)
  assert (T1 : (inject_Z tw
                <= inject_Z lw * v1 * (1 + (1 # 9007199254740992)))%Q).
  { destruct Hv1 as [_ Hv1].
    apply (Qmult_le_l _ _ (inject_Z lw)) in Hv1; [|lra].
    assert (E : (inject_Z lw * (inject_Z tw / inject_Z lw) == inject_Z tw)%Q)
      by (field; lra).
    rewrite E in Hv1. rewrite <- Qmult_assoc. exact Hv1. }
  assert (T2 : (inject_Z th
                <= inject_Z lh * v2 * (1 + (1 # 9007199254740992)))%Q).
  { destruct Hv2 as [_ Hv2].
    apply (Qmult_le_l _ _ (inject_Z lh)) in Hv2; [|lra].
    assert (E : (inject_Z lh * (inject_Z th / inject_Z lh) == inject_Z th)%Q)
      by (field; lra).
    rewrite E in Hv2. rewrite <- Qmult_assoc. exact Hv2. }
  rewrite Emin in Hnw, Hnh.
  pose proof (value_pos m e) as P.
  set (v := value (S754_finite false m e)) in *.
  assert (X1 : (inject_Z lw * v <= inject_Z lw * v1)%Q)
    by (apply Qmult_le_l; [lra | exact Le1]).
  assert (X2 : (inject_Z lh * v <= inject_Z lh * v2)%Q)
    by (apply Qmult_le_l; [lra | exact Le2]).
  assert (He : e <= 0).
  { destruct (value_exponent m e 52 Hm) as [Hu _]. fold v in Hu.
    change (2 ^ 52)%Q with 4503599627370496%Q in Hu.
    assert (Hlv : (1 * v <= inject_Z lw * v)%Q)
      by (apply Qmult_le_compat_r; lra).
    specialize (Hu ltac:(lra)). lia. }
  destruct (int_scaled_value lw m e st3 ltac:(lia) Hm ltac:(lia))
    as (nw' & Hnw' & _ & Hw & Hw').
  { fold v. change (2 ^ 52)%Q with 4503599627370496%Q. lra. }
  rewrite Hnw' in Hnw. inversion Hnw; subst nw' st4; clear Hnw.
  destruct (int_scaled_value lh m e st3 ltac:(lia) Hm ltac:(lia))
    as (nh' & Hnh' & _ & Hh & Hh').
  { fold v. change (2 ^ 52)%Q with 4503599627370496%Q. lra. }
  rewrite Hnh' in Hnh. inversion Hnh; subst nh' st5; clear Hnh.
  fold v in Hw, Hh, Hw', Hh'. unfold half_ulp in *.
  assert (Fw : nw <= tw).
  { assert (Hq : (inject_Z nw < inject_Z (tw + 1))%Q).
    { rewrite inject_Z_plus. change (inject_Z 1) with 1%Q. lra. }
    rewrite <- Zlt_Qlt in Hq. lia. }
  assert (Fh : nh <= th).
  { assert (Hq : (inject_Z nh < inject_Z (th + 1))%Q).
    { rewrite inject_Z_plus. change (inject_Z 1) with 1%Q. lra. }
    rewrite <- Zlt_Qlt in Hq. lia. }
  split; [exact Fw|]. split; [exact Fh|].
  assert (Qnw : (inject_Z nw <= inject_Z tw)%Q) by (apply inject_Z_le, Fw).
  assert (Qnh : (inject_Z nh <= inject_Z th)%Q) by (apply inject_Z_le, Fh).
  destruct Eq12 as [Ev | Ev].
  - left.
    assert (Ex : (inject_Z lw * v == inject_Z lw * v1)%Q)
      by (rewrite Ev; reflexivity).
    assert (Hq : (inject_Z tw < inject_Z (nw + 2))%Q).
    { rewrite inject_Z_plus. change (inject_Z 2) with 2%Q. lra. }
    rewrite <- Zlt_Qlt in Hq. lia.
  - right.
    assert (Ex : (inject_Z lh * v == inject_Z lh * v2)%Q)
      by (rewrite Ev; reflexivity).
    assert (Hq : (inject_Z th < inject_Z (nh + 2))%Q).
    { rewrite inject_Z_plus. change (inject_Z 2) with 2%Q. lra. }
    rewrite <- Zlt_Qlt in Hq. lia.
Qed.

End QFacts.

Section Cover.

Variable rotated_size : float -> Z * Z -> Z * Z.
Variable d : disk.

Hypothesis rotation_ok : sides_kept rotated_size.
Hypothesis disk_ok : decoded_sides_ok d.

Lemma logo_attempt_covers (bg bg' : raster) (bg_w bg_h : Z) (p : placement)
    (y : yolo_bbox) (st st' : world) :
  side_ok bg_w -> side_ok bg_h ->
  logo_attempt rotated_size d bg bg_w bg_h st = (Ok (Some (bg', p, y)), st') ->
  20 * rendered_w p <= 7 * bg_w /\ 20 * rendered_h p <= 7 * bg_h
  /\ (bg_w <= 20 * (rendered_w p + 2) \/ bg_h <= 20 * (rendered_h p + 2)).
Proof.
  intros Hbw Hbh H. unfold logo_attempt in H.
  unbind H as s st1 Hs. unbind H as l st2 Hl.
  destruct (forbidden _ _); [apply ret_ok in H as [H _]; discriminate|].
  unbind H as shield st3 Hshield. unbind H as letter st4 Hletter.
  unbind H as u st5 Hlog. unbind H as logo st6 Hlogo.
  unbind H as logo' st7 Haug. unbind H as scale st8 Hscale.
  unbind H as target_w st9 Htw. unbind H as target_h st10 Hth.
  destruct ((_ =? 0) || (_ =? 0)); [apply ret_ok in H as [H _]; discriminate|].
  unbind H as rw st11 Hrw. unbind H as rh st12 Hrh.
  unbind H as new_w st13 Hnw. unbind H as new_h st14 Hnh.
  destruct ((new_w <? 1) || (new_h <? 1)) eqn:Eg;
    [apply ret_ok in H as [H _]; discriminate|].
  apply orb_false_iff in Eg as [Eg1 Eg2]. apply Z.ltb_ge in Eg1, Eg2.
  unbind H as logo'' st15 Hres.
  unbind H as px st16 Hpx. unbind H as py st17 Hpy.
  unbind H as yolo st18 Hyolo.
  apply ret_ok in H as [H _]. inversion H; subst; clear H.
  cbn [rendered_w rendered_h].
  (* the sides of the augmented logo *)
  apply image_open_inv in Hshield as (sw & sh & Hds & ->).
  destruct (disk_ok _ _ _ Hds) as [Hsw Hsh].
  apply create_composite_logo_size in Hlogo. cbn [size] in Hlogo.
  assert (Hside : side_ok (fst (size rotated_size logo'))
                  /\ side_ok (snd (size rotated_size logo'))).
  { unfold apply_augmentations in Haug.
    unbind Haug as pts sta Hpts. unbind Haug as angle stb Hangle.
    unbind Haug as b stc Hb. unbind Haug as c std Hc.
    apply ret_ok in Haug as [<- _]. cbn [size]. rewrite Hlogo.
    apply rotation_ok; assumption. }
  destruct Hside as [Hlw Hlh].
  (* the targets *)
  apply QFacts.uniform_scale in Hscale
    as (ms & es & -> & Hms & Hes & Hvs).
  destruct (QFacts.target_bound bg_w ms es st8 Hbw Hms Hes Hvs)
    as (tw & Etw & Htw0 & Htw1 & Htw2).
  rewrite Etw in Htw. inversion Htw; subst target_w st9; clear Htw.
  destruct (QFacts.target_bound bg_h ms es st8 Hbh Hms Hes Hvs)
    as (th & Eth & Hth0 & Hth1 & Hth2).
  rewrite Eth in Hth. inversion Hth; subst target_h st10; clear Hth.
  unfold side_ok in Hbw, Hbh.
  assert (E31 : 2 ^ 31 = 2147483648) by reflexivity.
  destruct (QFacts.fit_within_target tw th _ _ new_w new_h rw rh
              _ _ _ _ _ ltac:(lia) ltac:(lia) Hlw Hlh Hrw Hrh Hnw Hnh Eg1 Eg2)
    as (Fw & Fh & Ft).
  lia.
Qed.

(** X19.  No logo covers more than 35% of a side of its background: the
    rendered width and height of every accepted placement are at most
    the targets [int(bg_w * scale)] and [int(bg_h * scale)], which for a
    scale of [random.uniform(0.05, 0.35)] are at most 35% of the sides,
    whatever the binary64 roundings of the scale, the two quotients and
    the two products. *)
Theorem logos_cover_at_most_35_percent (st st' : world) (bg : raster)
    (l : list (placement * yolo_bbox)) :
  assemble_scene rotated_size d st = (Ok (bg, l), st') ->
  Forall (fun py =>
            20 * rendered_w (fst py) <= 7 * fst (size rotated_size bg)
            /\ 20 * rendered_h (fst py) <= 7 * snd (size rotated_size bg)) l.
Proof.
  intros H. pose proof H as H'.
  apply assemble_scene_inv in H' as (path & w & h & _ & Hd & _ & Hsz & _).
  rewrite Hsz. cbn [fst snd].
  destruct (disk_ok _ _ _ Hd) as [Hw Hh].
  unfold assemble_scene in H.
  unbind H as path' st1 Hpath. unbind H as bg0 st2 Hopen.
  unbind H as n st3 Hn.
  apply image_open_inv in Hopen as (w' & h' & Hd' & ->).
  cbn [size fst snd] in H.
  assert (Ewh : (w', h') = (w, h)).
  { destruct (place_logos_in_bounds rotated_size d _ _ _ _ _ _ _ _ _ H
                (List.Forall_nil _)) as [_ Hs].
    cbn [size] in Hs. congruence. }
  inversion Ewh; subst w' h'.
  apply (place_logos_Forall rotated_size d _ w h) with (n := Z.to_nat n)
    (bg := Asset path' w h) (bg' := bg) (acc := []) (st := st3) (st' := st');
    [|exact H|constructor].
  intros b b' p y s s' Hatt. cbn [fst].
  destruct (logo_attempt_covers b b' w h p y s s' Hw Hh Hatt) as (? & ? & _).
  auto.
Qed.

(** X20.  No logo is much smaller than 5% of its background: the scaled
    logo reaches its target box to within a pixel on one side, and the
    targets are at least 5% of the sides less a pixel, so that the
    rendered width is at least a twentieth of the background width less
    two pixels, or the rendered height is so of the background height. *)
Theorem logos_cover_at_least_5_percent (st st' : world) (bg : raster)
    (l : list (placement * yolo_bbox)) :
  assemble_scene rotated_size d st = (Ok (bg, l), st') ->
  Forall (fun py =>
            fst (size rotated_size bg) <= 20 * (rendered_w (fst py) + 2)
            \/ snd (size rotated_size bg) <= 20 * (rendered_h (fst py) + 2))
         l.
Proof.
  intros H. pose proof H as H'.
  apply assemble_scene_inv in H' as (path & w & h & _ & Hd & _ & Hsz & _).
  rewrite Hsz. cbn [fst snd].
  destruct (disk_ok _ _ _ Hd) as [Hw Hh].
  unfold assemble_scene in H.
  unbind H as path' st1 Hpath. unbind H as bg0 st2 Hopen.
  unbind H as n st3 Hn.
  apply image_open_inv in Hopen as (w' & h' & Hd' & ->).
  cbn [size fst snd] in H.
  assert (Ewh : (w', h') = (w, h)).
  { destruct (place_logos_in_bounds rotated_size d _ _ _ _ _ _ _ _ _ H
                (List.Forall_nil _)) as [_ Hs].
    cbn [size] in Hs. congruence. }
  inversion Ewh; subst w' h'.
  apply (place_logos_Forall rotated_size d _ w h) with (n := Z.to_nat n)
    (bg := Asset path' w h) (bg' := bg) (acc := []) (st := st3) (st' := st');
    [|exact H|constructor].
  intros b b' p y s s' Hatt. cbn [fst].
  destruct (logo_attempt_covers b b' w h p y s s' Hw Hh Hatt) as (_ & _ & Hmin).
  exact Hmin.
Qed.

End Cover.

Lemma logos_cover_at_most_35_percent_witness :
  exists bg l st',
    assemble_scene same_canvas sample_disk sample_world = (Ok (bg, l), st')
    /\ Forall (fun py =>
                 20 * rendered_w (fst py) <= 7 * fst (size same_canvas bg)
                 /\ 20 * rendered_h (fst py) <= 7 * snd (size same_canvas bg))
              l.
Proof.
  destruct (assemble_scene same_canvas sample_disk sample_world)
    as [[[bg l]|e] st'] eqn:E; [|vm_compute in E; discriminate].
  exists bg, l, st'. split; [reflexivity|].
  apply (logos_cover_at_most_35_percent same_canvas sample_disk)
    with (st := sample_world) (st' := st').
  - intros angle w h Hw Hh. split; assumption.
  - intros path w h Hd. unfold sample_disk, decoded in Hd.
    apply elem_of_list_to_map_2 in Hd.
    repeat (apply elem_of_cons in Hd as [Hd|Hd];
            [inversion Hd; unfold side_ok; lia|]).
    inversion Hd.
  - exact E.
Defined.

Lemma logos_cover_at_least_5_percent_witness :
  exists bg l st',
    assemble_scene same_canvas sample_disk sample_world = (Ok (bg, l), st')
    /\ Forall (fun py =>
                 fst (size same_canvas bg) <= 20 * (rendered_w (fst py) + 2)
                 \/ snd (size same_canvas bg)
                    <= 20 * (rendered_h (fst py) + 2))
              l.
Proof.
  destruct (assemble_scene same_canvas sample_disk sample_world)
    as [[[bg l]|e] st'] eqn:E; [|vm_compute in E; discriminate].
  exists bg, l, st'. split; [reflexivity|].
  apply (logos_cover_at_least_5_percent same_canvas sample_disk)
    with (st := sample_world) (st' := st').
  - intros angle w h Hw Hh. split; assumption.
  - intros path w h Hd. unfold sample_disk, decoded in Hd.
    apply elem_of_list_to_map_2 in Hd.
    repeat (apply elem_of_cons in Hd as [Hd|Hd];
            [inversion Hd; unfold side_ok; lia|]).
    inversion Hd.
  - exact E.
Defined.
